(** * Steelix / Spox graph wrapper: a shallow embedding

    The development follows [src/steelix/graph.py], [src/steelix/function.py]
    and [src/spox/_internal_op.py].  Python objects with identity (Vars, Nodes,
    Graphs, [Cached] cells) live in an explicit store, the [World]; methods are
    computations of the state-and-exception monad [M] over that store. *)

From Stdlib Require Import ZArith String List Lia.
From stdpp Require Import base option list gmap sets strings pretty.

Open Scope string_scope.
Open Scope list_scope.

(** ** Python preliminaries *)

(** The exception classes the modelled code raises. [Fault] stands for the
    failures of a dynamically typed program that the model's types do not
    exclude (a reference to an object that was never created, a method called
    on an object of the wrong class). *)
Inductive Exception :=
| TypeError
| ValueError
| RuntimeError
| KeyError
| AssertionError
| IndexError
| AttributeError
| Fault.

(** A Python [dict]: insertion ordered, one entry per key.  Assigning to a
    key that is present keeps its position; a new key goes last. *)
Fixpoint dict_set {K V} `{EqDecision K} (k : K) (v : V) (d : list (K * V))
  : list (K * V) :=
  match d with
  | [] => [(k, v)]
  | (k', v') :: d' =>
      if decide (k' = k) then (k, v) :: d' else (k', v') :: dict_set k v d'
  end.

Fixpoint dict_get {K V} `{EqDecision K} (k : K) (d : list (K * V)) : option V :=
  match d with
  | [] => None
  | (k', v') :: d' => if decide (k' = k) then Some v' else dict_get k d'
  end.

Definition dict_values {K V} (d : list (K * V)) : list V := d.*2.
Definition dict_keys {K V} (d : list (K * V)) : list K := d.*1.

(** ** Type and value model *)

Inductive DType := float32 | float64 | int64 | uint8 | bool_.

Inductive Dim := DimInt (n : Z) | DimName (s : string) | DimUnknown.

Definition SimpleShape := option (list Dim).

Inductive Type_ :=
| Tensor (dtype : DType) (shape : SimpleShape)
| Sequence (elem_type : Type_)
| Optional (elem_type : Type_).

Record ndarray := {
  nd_dtype : DType;
  nd_shape : list Z;
  nd_data : list Z;
}.

(** [Tensor.like_array]: the tensor type of an array. *)
Definition Tensor_like_array (arr : ndarray) : Type_ :=
  Tensor (nd_dtype arr) (Some (DimInt <$> nd_shape arr)).

Inductive PropValueType :=
| PropArray (a : ndarray)
| PropString (s : string).

(** ** Serialized (protobuf) artefacts *)

Record TensorProto := {
  tp_name : option string;
  tp_array : ndarray;
}.

Record NodeProto := {
  np_op_type : string;
  np_input : list string;
  np_output : list string;
  np_name : option string;
  np_doc_string : option string;
  np_attribute : list (string * TensorProto);
}.

Record ValueInfoProto := {
  vi_name : string;
  vi_type : Type_;
}.

Record GraphProto := {
  gp_node : list NodeProto;
  gp_name : string;
  gp_input : list ValueInfoProto;
  gp_output : list ValueInfoProto;
  gp_initializer : list TensorProto;
  gp_doc_string : option string;
}.

Record FunctionProto := {
  fp_domain : string;
  fp_name : string;
  fp_input : list string;
  fp_output : list string;
  fp_node : list NodeProto;
  fp_opset_import : list (string * Z);
  fp_attribute : list string;
}.

Record ModelProto := {
  mp_graph : GraphProto;
  mp_producer_name : string;
  mp_doc_string : string;
  mp_functions : list FunctionProto;
  mp_opset_import : list (string * Z);
}.

#[global] Instance DType_eq_dec : EqDecision DType.
Proof. solve_decision. Defined.
#[global] Instance Dim_eq_dec : EqDecision Dim.
Proof. solve_decision. Defined.
#[global] Instance Type__eq_dec : EqDecision Type_.
Proof. solve_decision. Defined.
#[global] Instance ndarray_eq_dec : EqDecision ndarray.
Proof. solve_decision. Defined.
#[global] Instance TensorProto_eq_dec : EqDecision TensorProto.
Proof. solve_decision. Defined.
#[global] Instance NodeProto_eq_dec : EqDecision NodeProto.
Proof. solve_decision. Defined.
#[global] Instance FunctionProto_eq_dec : EqDecision FunctionProto.
Proof. solve_decision. Defined.

(** ** Objects and the store *)

(** Object identities. *)
Definition Var := nat.
Definition Node := nat.
Definition GraphRef := nat.
Definition CachedRef := nat.
Abbreviation Arrow := Var.

(** A Python callable kept for later use is an opaque token. *)
Definition Callable := nat.

Record OpType := {
  identifier : string;
  domain : string;
  version : Z;
}.

(** [Graph] is a frozen dataclass: its fields never change after
    construction.  [_build_result] refers to a mutable [Cached] cell. *)
Record Graph := {
  _results : list (string * Arrow);
  _name : option string;
  _doc_string : option string;
  _arguments : option (list Arrow);
  _extra_opset_req : option (gset (string * Z));
  _constructor : option Callable;
  _build_result : CachedRef;
}.

(** The [func_*] attributes of a [Function] node that serialization reads,
    set when the node is constructed ([Function.infer_output_types]). *)
Record FunctionFields := {
  fn_op_type : OpType;
  func_graph : Graph;
  func_inputs_kwargs : list string;
  func_outputs_kwargs : list string;
  Attributes_kwargs : list string;
}.

(** The node classes of [_internal_op.py] and [function.py], with their
    attribute records; [Operator] is a node of the per-operator library. *)
Inductive NodeClass :=
| Argument (type : option Type_) (name : option string) (default : option ndarray)
| _Initializer (type : Type_) (default : ndarray)
| _Constant (value : ndarray) (const_version : option Z)
| _Introduce
| Function (f : FunctionFields)
| Operator (op_type : OpType).

Record NodeObj := {
  node_class : NodeClass;
  node_inputs : list Var;
  node_outputs : list Var;
}.

Record VarObj := {
  var_op : option Node;
  var_type : option Type_;
  var_value : option PropValueType;
  var_name : option string;
}.

(** Modelled from the spec: [Scope] is declared in [_scope], which is not
    under src/.  It is the name assignment of one build: [scope.var[v]] and
    [scope.node[n]] are dictionary lookups. *)
Record Scope := {
  scope_var : gmap Var string;
  scope_node : gmap Node string;
}.

(** Modelled from the spec: [BuildResult] is declared in [_build], which is
    not under src/.  Its fields are the ones §3 lists and the code reads:
    the ordered mapping from each Node to its instructions, the scope, the
    argument and result Values, the initializers, the Functions met and the
    aggregated opset requirements. *)
Record BuildResult := {
  br_scope : Scope;
  br_nodes : list (Node * list NodeProto);
  br_arguments : list Var;
  br_results : list Var;
  br_opset_req : gset (string * Z);
  br_functions : list Node;
  br_initializers : list (Var * ndarray);
}.

(** The store.  [w_cached] holds the [Cached] cells whose [_value] is not
    [None]; a cell that was created and never assigned has no entry. *)
Record World := {
  w_vars : list VarObj;
  w_nodes : list NodeObj;
  w_graphs : list Graph;
  w_cached : gmap CachedRef BuildResult;
  w_cached_next : CachedRef;
}.

(** ** The state-and-exception monad *)

Definition M (A : Type) : Type := World -> Exception + (A * World).

Definition ret {A} (a : A) : M A := fun w => inr (a, w).
Definition raise {A} (e : Exception) : M A := fun _ => inl e.
Definition bind {A B} (c : M A) (k : A -> M B) : M B :=
  fun w => match c w with
           | inl e => inl e
           | inr (a, w') => k a w'
           end.

Notation "x <- c1 ;; c2" := (bind c1 (fun x => c2))
  (at level 100, c1 at next level, right associativity).
Notation "c1 ;;; c2" := (bind c1 (fun _ => c2))
  (at level 100, right associativity).

Definition get_world : M World := fun w => inr (w, w).
Definition put_world (w : World) : M unit := fun _ => inr (tt, w).

(** A pure computation that may raise, run inside [M]. *)
Definition lift {A} (r : Exception + A) : M A :=
  match r with
  | inl e => raise e
  | inr a => ret a
  end.

Definition expect {A} (e : Exception) (o : option A) : M A :=
  match o with
  | Some a => ret a
  | None => raise e
  end.

(** [for x in l: acc = f acc x], in [M]. *)
Fixpoint foldM {A B} (f : B -> A -> M B) (b : B) (l : list A) : M B :=
  match l with
  | [] => ret b
  | x :: l' => b' <- f b x ;; foldM f b' l'
  end.

(** [[f x for x in l]], in [M]. *)
Fixpoint mapM {A B} (f : A -> M B) (l : list A) : M (list B) :=
  match l with
  | [] => ret []
  | x :: l' => y <- f x ;; ys <- mapM f l' ;; ret (y :: ys)
  end.

(** ** Store access *)

Definition set_w_vars (vs : list VarObj) (w : World) : World :=
  {| w_vars := vs; w_nodes := w_nodes w; w_graphs := w_graphs w;
     w_cached := w_cached w; w_cached_next := w_cached_next w |}.

Definition set_w_nodes (ns : list NodeObj) (w : World) : World :=
  {| w_vars := w_vars w; w_nodes := ns; w_graphs := w_graphs w;
     w_cached := w_cached w; w_cached_next := w_cached_next w |}.

Definition set_w_graphs (gs : list Graph) (w : World) : World :=
  {| w_vars := w_vars w; w_nodes := w_nodes w; w_graphs := gs;
     w_cached := w_cached w; w_cached_next := w_cached_next w |}.

Definition set_w_cached (c : gmap CachedRef BuildResult) (w : World) : World :=
  {| w_vars := w_vars w; w_nodes := w_nodes w; w_graphs := w_graphs w;
     w_cached := c; w_cached_next := w_cached_next w |}.

Definition read_var (x : Var) : M VarObj :=
  fun w => match w_vars w !! x with
           | Some o => inr (o, w)
           | None => inl Fault
           end.

Definition write_var (x : Var) (o : VarObj) : M unit :=
  fun w => match w_vars w !! x with
           | Some _ => inr (tt, set_w_vars (<[x := o]> (w_vars w)) w)
           | None => inl Fault
           end.

Definition read_node (n : Node) : M NodeObj :=
  fun w => match w_nodes w !! n with
           | Some o => inr (o, w)
           | None => inl Fault
           end.

(** [x.type = t] *)
Definition Var_set_type (x : Var) (t : option Type_) : M unit :=
  o <- read_var x ;;
  write_var x {| var_op := var_op o; var_type := t;
                 var_value := var_value o; var_name := var_name o |}.

(** [x._value = v] *)
Definition Var_set_value (x : Var) (v : option PropValueType) : M unit :=
  o <- read_var x ;;
  write_var x {| var_op := var_op o; var_type := var_type o;
                 var_value := v; var_name := var_name o |}.

(** [x._rename(name)] *)
Definition Var__rename (x : Var) (name : option string) : M unit :=
  o <- read_var x ;;
  write_var x {| var_op := var_op o; var_type := var_type o;
                 var_value := var_value o; var_name := name |}.

(** Modelled from the spec: [Var.unwrap_type] and [Var.unwrap_tensor] are
    declared with [Var], which is not under src/.  A Value has an optional
    static Type (a tensor, a sequence, an optional, or unknown); unwrapping
    yields that Type, respectively its tensor element type and shape, and
    raises when the Value has none to yield. *)
Definition Var_unwrap_type (o : VarObj) : Exception + Type_ :=
  match var_type o with
  | Some t => inr t
  | None => inl TypeError
  end.

Definition Var_unwrap_tensor (o : VarObj) : Exception + (DType * SimpleShape) :=
  match var_type o with
  | Some (Tensor d s) => inr (d, s)
  | _ => inl TypeError
  end.

(** [attr.from_array(arr, name)] *)
Definition from_array (arr : ndarray) (name : option string) : TensorProto :=
  {| tp_name := name; tp_array := arr |}.

(** [onnx.helper.make_node(op_type, inputs, outputs, name, doc_string, **attrs)] *)
Definition make_node (op_type : string) (inputs outputs : list string)
    (name doc_string : option string) (attrs : list (string * TensorProto))
  : NodeProto :=
  {| np_op_type := op_type; np_input := inputs; np_output := outputs;
     np_name := name; np_doc_string := doc_string; np_attribute := attrs |}.

(** ** Collaborators outside src/

    The Builder, the version adapter and the serialization helpers of the
    type system are code of the repository that is not under src/; the
    graph wrapper only calls them. *)
Class Collaborators := {
  (** [_build.Builder(graph).build_main()] *)
  build_main : Graph -> M BuildResult;
  (** [_adapt.adapt_best_effort(node, protos, opsets, var_names, node_names)] *)
  adapt_best_effort :
    Node -> list NodeProto -> gmap string Z ->
    gmap Var string -> gmap Node string -> option (list NodeProto);
  (** [Type.to_onnx_value_info(name, concrete=...)] *)
  to_onnx_value_info : Type_ -> string -> bool -> Exception + ValueInfoProto;
  (** [Node.opset_req], the property of the base class *)
  Node_opset_req : NodeObj -> gset (string * Z);
  (** [onnx.shape_inference.infer_shapes] *)
  infer_shapes : ModelProto -> ModelProto;
  (** [onnx.checker.check_model(model, full_check=...)]: [Some e] when the
      checker raises *)
  check_model : ModelProto -> bool -> option Exception;
}.

(** ** [_build.Cached] *)

(** Modelled from the spec: [Cached] is declared in [_build], which is not
    under src/.  It is a memo cell with an explicit "already computed"
    state: [_value] is [None] until [value] is assigned, and reading
    [value] of an unassigned cell is an error. *)
Definition Cached__value (c : CachedRef) : M (option BuildResult) :=
  fun w => inr (w_cached w !! c, w).

Definition Cached_value (c : CachedRef) : M BuildResult :=
  fun w => match w_cached w !! c with
           | Some v => inr (v, w)
           | None => inl ValueError
           end.

Definition Cached_set_value (c : CachedRef) (v : BuildResult) : M unit :=
  fun w => inr (tt, {| w_vars := w_vars w;
                       w_nodes := w_nodes w;
                       w_graphs := w_graphs w;
                       w_cached := <[c := v]> (w_cached w);
                       w_cached_next := w_cached_next w |}).

(** ** The model of the three modules *)

Section Model.
Context `{Collaborators}.

(** *** [graph.py]: the cached build result *)

(** [Graph._get_build_result] *)
Definition _get_build_result (self : Graph) : M BuildResult :=
  v <- Cached__value (_build_result self) ;;
  match v with
  | None =>
      br <- build_main self ;;
      Cached_set_value (_build_result self) br ;;;
      Cached_value (_build_result self)
  | Some _ => Cached_value (_build_result self)
  end.

(** *** [_internal_op.py] *)

(** The names of the output slots of a node with [n] outputs: the field
    name, or [field_i] for a variadic field.  The slots of the operator
    library are not modelled; its inference is not either. *)
Definition output_slots (cls : NodeClass) (n : nat) : list string :=
  match cls with
  | Argument _ _ _ => ["arg"]
  | _Initializer _ _ => ["arg"]
  | _Constant _ _ => ["output"]
  | _Introduce => (fun i => "outputs_" +:+ pretty i) <$> seq 0 n
  | Function f => func_outputs_kwargs f
  | Operator _ => []
  end.

(** [infer_output_types] of the internal nodes.  [Argument] reads
    [self.attrs.type.value] without a check: on an attribute record whose
    [type] is [None] the access raises an AttributeError.  [Function] and
    the operator library run their own inference, which is not modelled:
    they leave every output type unknown here. *)
Definition infer_output_types (self : Node) : M (list (string * option Type_)) :=
  o <- read_node self ;;
  match node_class o with
  | Argument type _ _ =>
      value <- expect AttributeError type ;;
      ret [("arg", Some value)]
  | _Initializer type _ => ret [("arg", Some type)]
  | _Constant value _ =>
      ret [("output", Some (Tensor (nd_dtype value) (Some (DimInt <$> nd_shape value))))]
  | _Introduce =>
      foldM (fun acc '(i, arr) =>
               a <- read_var arr ;;
               ret match var_type a with
                   | Some t => dict_set ("outputs_" +:+ pretty i) (Some t) acc
                   | None => acc
                   end)
            [] (imap pair (node_inputs o))
  | Function _ => ret []
  | Operator _ => ret []
  end.

(** [propagate_values]: only [_Constant] overrides the default. *)
Definition propagate_values (self : Node) : M (list (string * PropValueType)) :=
  o <- read_node self ;;
  match node_class o with
  | _Constant value _ => ret [("output", PropArray value)]
  | _ => ret []
  end.

(** [post_init]: [Argument] names its output after its [name] attribute. *)
Definition post_init (self : Node) : M unit :=
  o <- read_node self ;;
  match node_class o with
  | Argument _ (Some name) _ =>
      match node_outputs o with
      | arg :: _ => Var__rename arg (Some name)
      | [] => raise Fault
      end
  | _ => ret tt
  end.

(** Modelled from the spec: [Node.__init__] is declared in [_node], which
    is not under src/.  Construction takes an attribute record and an input
    record; the outputs are synthesized as fresh Values, their count fixed
    by the node kind or given explicitly for a variadic field; inference is
    run eagerly and assigns Types (and propagated values) onto the Values
    that already exist; [post_init] runs last.  An exception of inference
    is the exception of the construction, which then leaves no object. *)
Definition Node_init (cls : NodeClass) (inputs : list Var) (out_count : nat)
  : M Node :=
  w <- get_world ;;
  let self := length (w_nodes w) in
  let outs := seq (length (w_vars w)) out_count in
  let fresh := {| var_op := Some self; var_type := None;
                  var_value := None; var_name := None |} in
  put_world (set_w_nodes (w_nodes w ++ [{| node_class := cls;
                                             node_inputs := inputs;
                                             node_outputs := outs |}])
               (set_w_vars (w_vars w ++ replicate out_count fresh) w)) ;;;
  types <- infer_output_types self ;;
  foldM (fun _ '(slot, out) =>
           match dict_get slot types with
           | Some t => Var_set_type out t
           | None => ret tt
           end)
        tt (zip (output_slots cls out_count) outs) ;;;
  values <- propagate_values self ;;
  foldM (fun _ '(slot, out) =>
           match dict_get slot values with
           | Some v => Var_set_value out (Some v)
           | None => ret tt
           end)
        tt (zip (output_slots cls out_count) outs) ;;;
  post_init self ;;;
  ret self.

(** [_InternalNode.opset_req] *)
Definition _InternalNode_opset_req : gset (string * Z) := ∅.

(** [_Constant.opset_req] *)
Definition _Constant_opset_req (const_version : option Z) : gset (string * Z) :=
  match const_version with
  | Some v => {[ ("", v) ]}
  | None => ∅
  end.

(** [_Introduce.opset_req] *)
Definition _Introduce_opset_req : gset (string * Z) := {[ ("", 1%Z) ]}.

(** [Argument.to_onnx], [_Initializer.to_onnx] *)
Definition Argument_to_onnx : list NodeProto := [].
Definition _Initializer_to_onnx : list NodeProto := [].

(** [_Constant.to_onnx] *)
Definition _Constant_to_onnx (self : Node) (scope : Scope) : M (list NodeProto) :=
  o <- read_node self ;;
  match node_class o, node_outputs o with
  | _Constant value _, output :: _ =>
      out <- expect KeyError (scope_var scope !! output) ;;
      name <- expect KeyError (scope_node scope !! self) ;;
      ret [make_node "Constant" [] [out] (Some name) None
             [("value", from_array value None)]]
  | _, _ => raise Fault
  end.

(** [_Introduce.to_onnx] *)
Definition _Introduce_to_onnx (self : Node) (scope : Scope)
    (doc_string : option string) : M (list NodeProto) :=
  o <- read_node self ;;
  let inputs := node_inputs o in
  let outputs := node_outputs o in
  if decide (length inputs = length outputs) then
    let name := scope_node scope !! self in
    foldM (fun protos i =>
             x <- expect IndexError (inputs !! i) ;;
             xn <- expect KeyError (scope_var scope !! x) ;;
             y <- expect IndexError (outputs !! i) ;;
             yn <- expect KeyError (scope_var scope !! y) ;;
             ret (protos ++
                  [make_node "Identity" [xn] [yn]
                     ((fun nm => nm +:+ "_id" +:+ pretty i) <$> name)
                     doc_string []]))
          [] (seq 0 (length inputs))
  else raise AssertionError.

(** [intros] *)
Definition intros (args : list Var) : M (list Var) :=
  n <- Node_init _Introduce args (length args) ;;
  o <- read_node n ;;
  ret (node_outputs o).

(** [intro] *)
Definition intro (args : list Var) : M Var :=
  outs <- intros args ;;
  expect IndexError (last outs).

(** [unsafe_cast] *)
Definition unsafe_cast (x : Var) (typ : Type_) : M Var :=
  y <- intro [x] ;;
  Var_set_type y (Some typ) ;;;
  xo <- read_var x ;;
  Var_set_value y (var_value xo) ;;;
  ret y.

(** [unsafe_reshape] *)
Definition unsafe_reshape (x : Var) (shape : SimpleShape) : M Var :=
  xo <- read_var x ;;
  t <- lift (Var_unwrap_tensor xo) ;;
  unsafe_cast x (Tensor (fst t) shape).

(** *** Opset requirements and metadata of a node *)

(** Modelled from the spec: [max_opset_policy] is declared in [schemas],
    which is not under src/.  The policy is "maximum requested": one version
    per domain, the maximum of the versions required for that domain. *)
Definition max_opset_policy (req : gset (string * Z)) : gmap string Z :=
  set_fold (fun (dv : string * Z) (acc : gmap string Z) =>
              <[dv.1 := match acc !! dv.1 with
                        | Some v => Z.max v dv.2
                        | None => dv.2
                        end]> acc)
           ∅ req.

(** [Function.opset_req] *)
Definition Function_opset_req (o : NodeObj) (f : FunctionFields)
  : M (gset (string * Z)) :=
  let node_opset_req := Node_opset_req o in
  br <- _get_build_result (func_graph f) ;;
  ret (node_opset_req ∪ br_opset_req br).

(** [self.opset_req], dispatched on the class of [self]. *)
Definition opset_req (self : Node) : M (gset (string * Z)) :=
  o <- read_node self ;;
  match node_class o with
  | Argument _ _ _ => ret _InternalNode_opset_req
  | _Initializer _ _ => ret _InternalNode_opset_req
  | _Constant _ const_version => ret (_Constant_opset_req const_version)
  | _Introduce => ret _Introduce_opset_req
  | Function f => Function_opset_req o f
  | Operator _ => ret (Node_opset_req o)
  end.

(** The accumulators [update_metadata] is handed and mutates: the running
    union of opset requirements, the initializers and the functions. *)
Record Metadata := {
  md_opset_req : gset (string * Z);
  md_initializers : list (Var * ndarray);
  md_functions : list Node;
}.

(** Modelled from the spec: [Node.update_metadata] is declared in [_node],
    which is not under src/.  A node contributes its own minimum opset
    requirement to the running union. *)
Definition Node_update_metadata (self : Node) (md : Metadata) : M Metadata :=
  req <- opset_req self ;;
  ret {| md_opset_req := md_opset_req md ∪ req;
         md_initializers := md_initializers md;
         md_functions := md_functions md |}.

(** [self.outputs.arg] *)
Definition outputs_arg (self : Node) : M Var :=
  o <- read_node self ;;
  expect Fault (head (node_outputs o)).

(** [Argument.update_metadata] *)
Definition Argument_update_metadata (self : Node) (default : option ndarray)
    (md : Metadata) : M Metadata :=
  md <- Node_update_metadata self md ;;
  var <- outputs_arg self ;;
  match default with
  | Some d =>
      ret {| md_opset_req := md_opset_req md;
             md_initializers := dict_set var d (md_initializers md);
             md_functions := md_functions md |}
  | None => ret md
  end.

(** [_Initializer.update_metadata] *)
Definition _Initializer_update_metadata (self : Node) (default : ndarray)
    (md : Metadata) : M Metadata :=
  md <- Node_update_metadata self md ;;
  var <- outputs_arg self ;;
  ret {| md_opset_req := md_opset_req md;
         md_initializers := dict_set var default (md_initializers md);
         md_functions := md_functions md |}.

(** [Function.update_metadata] *)
Definition Function_update_metadata (self : Node) (f : FunctionFields)
    (md : Metadata) : M Metadata :=
  md <- Node_update_metadata self md ;;
  let functions := md_functions md ++ [self] in
  br <- _get_build_result (func_graph f) ;;
  ret {| md_opset_req := md_opset_req md;
         md_initializers := md_initializers md;
         md_functions := functions ++ br_functions br |}.

(** [self.update_metadata(opset_req, initializers, functions)], dispatched
    on the class of [self]. *)
Definition update_metadata (self : Node) (md : Metadata) : M Metadata :=
  o <- read_node self ;;
  match node_class o with
  | Argument _ _ default => Argument_update_metadata self default md
  | _Initializer _ default => _Initializer_update_metadata self default md
  | Function f => Function_update_metadata self f md
  | _ => Node_update_metadata self md
  end.

(** Modelled from the spec: the Builder is declared in [_build], which is
    not under src/.  Step 3 of its algorithm calls [update_metadata] once
    for each node, in build order, threading the shared accumulators. *)
Definition collect_metadata (order : list Node) : M Metadata :=
  foldM (fun md n => update_metadata n md)
        {| md_opset_req := ∅; md_initializers := []; md_functions := [] |}
        order.

(** *** [graph.py] *)

(** What a keyword argument of [arguments_dict] can be: [None], a Type, an
    array, or any other Python object. *)
Inductive ArgInfo :=
| InfoNone
| InfoType (t : Type_)
| InfoArray (a : ndarray)
| InfoOther.

#[global] Instance ArgInfo_eq_dec : EqDecision ArgInfo.
Proof. solve_decision. Defined.

(** [arguments_dict] *)
Definition arguments_dict (kwargs : list (string * ArgInfo))
  : M (list (string * Arrow)) :=
  foldM (fun result '(name, info) =>
           let Argument_of (type : option Type_) (default : option ndarray) :=
             n <- Node_init (Argument type (Some name) default) [] 1 ;;
             arg <- outputs_arg n ;;
             ret (dict_set name arg result) in
           match info with
           | InfoNone => Argument_of None None
           | InfoType t => Argument_of (Some t) None
           | InfoArray a => Argument_of (Some (Tensor_like_array a)) (Some a)
           | InfoOther => raise TypeError
           end)
        [] kwargs.

(** [arguments] *)
Definition arguments (kwargs : list (string * ArgInfo)) : M (list Arrow) :=
  d <- arguments_dict kwargs ;;
  ret (dict_values d).

(** [enum_arguments]; dict literals keep the last value of a repeated key. *)
Definition enum_arguments (infos : list ArgInfo) (prefix : string)
  : M (list Arrow) :=
  arguments (foldl (fun d '(i, info) => dict_set (prefix +:+ pretty i) info d)
                   [] (imap pair infos)).

(** [initializer] *)
Definition initializer (arr : ndarray) : M Arrow :=
  n <- Node_init (_Initializer (Tensor_like_array arr) arr) [] 1 ;;
  outputs_arg n.

(** [Graph(...)]: the generated [__init__] creates the object; the checks
    of [__post_init__] cannot fail on results and arguments that are typed
    as Arrows. *)
Definition Graph_init (g : Graph) : M GraphRef :=
  fun w => inr (length (w_graphs w), set_w_graphs (w_graphs w ++ [g]) w).

(** [_build.Cached()]: a new cell, with no value. *)
Definition Cached_init : M CachedRef :=
  fun w => inr (w_cached_next w,
                {| w_vars := w_vars w; w_nodes := w_nodes w;
                   w_graphs := w_graphs w;
                   w_cached := delete (w_cached_next w) (w_cached w);
                   w_cached_next := S (w_cached_next w) |}).

(** [Graph.with_name]: [dataclasses.replace] passes every field of [self]
    that is not overridden, [_build_result] included, to [Graph(...)]. *)
Definition with_name (self : Graph) (name : string) : M GraphRef :=
  Graph_init {| _results := _results self;
                _name := Some name;
                _doc_string := _doc_string self;
                _arguments := _arguments self;
                _extra_opset_req := _extra_opset_req self;
                _constructor := _constructor self;
                _build_result := _build_result self |}.

(** [Graph.with_doc] *)
Definition with_doc (self : Graph) (doc_string : string) : M GraphRef :=
  Graph_init {| _results := _results self;
                _name := _name self;
                _doc_string := Some doc_string;
                _arguments := _arguments self;
                _extra_opset_req := _extra_opset_req self;
                _constructor := _constructor self;
                _build_result := _build_result self |}.

(** [Graph.with_arguments] *)
Definition with_arguments (self : Graph) (args : list Arrow) : M GraphRef :=
  Graph_init {| _results := _results self;
                _name := _name self;
                _doc_string := _doc_string self;
                _arguments := Some args;
                _extra_opset_req := _extra_opset_req self;
                _constructor := _constructor self;
                _build_result := _build_result self |}.

(** [Graph.with_opset] *)
Definition with_opset (self : Graph) (args : list (string * Z)) : M GraphRef :=
  let extra_opset_req : gset (string * Z) := list_to_set args in
  let extra_opset_req :=
    match _extra_opset_req self with
    | Some e => extra_opset_req ∪ e
    | None => extra_opset_req
    end in
  Graph_init {| _results := _results self;
                _name := _name self;
                _doc_string := _doc_string self;
                _arguments := _arguments self;
                _extra_opset_req := Some extra_opset_req;
                _constructor := _constructor self;
                _build_result := _build_result self |}.

(** [Graph._with_constructor] *)
Definition _with_constructor (self : Graph) (fn : Callable) : M GraphRef :=
  Graph_init {| _results := _results self;
                _name := _name self;
                _doc_string := _doc_string self;
                _arguments := _arguments self;
                _extra_opset_req := _extra_opset_req self;
                _constructor := Some fn;
                _build_result := _build_result self |}.

(** [results]: [Graph(kwargs)], every other field at its default; the
    default factory of [_build_result] makes a new [Cached]. *)
Definition results (kwargs : list (string * Arrow)) : M GraphRef :=
  c <- Cached_init ;;
  Graph_init {| _results := kwargs;
                _name := None;
                _doc_string := None;
                _arguments := None;
                _extra_opset_req := None;
                _constructor := None;
                _build_result := c |}.

(** [Graph.get_arguments] *)
Definition get_arguments (self : Graph) : M (list (string * Arrow)) :=
  br <- _get_build_result self ;;
  foldM (fun d arrow =>
           br' <- _get_build_result self ;;
           name <- expect KeyError (scope_var (br_scope br') !! arrow) ;;
           ret (dict_set name arrow d))
        [] (br_arguments br).

(** [Graph.get_results] *)
Definition get_results (self : Graph) : M (list (string * Arrow)) :=
  br <- _get_build_result self ;;
  foldM (fun d arrow =>
           br' <- _get_build_result self ;;
           name <- expect KeyError (scope_var (br_scope br') !! arrow) ;;
           ret (dict_set name arrow d))
        [] (br_results br).

(** [Graph._get_opset_req] *)
Definition _get_opset_req (self : Graph) : M (gset (string * Z)) :=
  br <- _get_build_result self ;;
  ret (br_opset_req br ∪ match _extra_opset_req self with
                         | Some e => e
                         | None => ∅
                         end).

(** [Graph.get_opsets] *)
Definition get_opsets (self : Graph) : M (gmap string Z) :=
  req <- _get_opset_req self ;;
  ret (max_opset_policy req).

(** [Graph._get_initializers_by_name] *)
Definition _get_initializers_by_name (self : Graph)
  : M (list (string * ndarray)) :=
  br <- _get_build_result self ;;
  foldM (fun d '(arrow, init) =>
           br' <- _get_build_result self ;;
           name <- expect KeyError (scope_var (br_scope br') !! arrow) ;;
           ret (dict_set name init d))
        [] (br_initializers br).

(** [Graph.get_adapted_nodes] *)
Definition get_adapted_nodes (self : Graph)
  : M (list (Node * list NodeProto)) :=
  br <- _get_build_result self ;;
  let nodes := br_nodes br in
  let consistent_nodes := nodes in
  foldM (fun consistent_nodes '(node, protos) =>
           opsets <- get_opsets self ;;
           br1 <- _get_build_result self ;;
           br2 <- _get_build_result self ;;
           let best_effort :=
             adapt_best_effort node protos opsets
               (scope_var (br_scope br1)) (scope_node (br_scope br2)) in
           ret (dict_set node
                  match best_effort with
                  | Some adapted => adapted
                  | None => protos
                  end
                  consistent_nodes))
        consistent_nodes nodes.

(** [arrow.unwrap_type().to_onnx_value_info(name, concrete=concrete)] for
    each named arrow. *)
Definition value_infos (concrete : bool) (named : list (string * Arrow))
  : M (list ValueInfoProto) :=
  mapM (fun '(name, arrow) =>
          a <- read_var arrow ;;
          t <- lift (Var_unwrap_type a) ;;
          lift (to_onnx_value_info t name concrete))
       named.

(** [onnx.helper.make_graph] *)
Definition make_graph (node_protos : list NodeProto) (name : string)
    (inputs outputs : list ValueInfoProto) (initializer_tensors : list TensorProto)
    (doc_string : option string) : GraphProto :=
  {| gp_node := node_protos; gp_name := name; gp_input := inputs;
     gp_output := outputs; gp_initializer := initializer_tensors;
     gp_doc_string := doc_string |}.

(** [Graph.to_onnx] *)
Definition to_onnx (self : Graph) (concrete : bool) : M GraphProto :=
  res <- get_results self ;;
  if decide (res = []) then raise ValueError else
  args <- get_arguments self ;;
  argument_info <- value_infos concrete args ;;
  res <- get_results self ;;
  result_info <- value_infos concrete res ;;
  let name := match _name self with
              | Some n => if decide (n = "") then "steelix_graph" else n
              | None => "steelix_graph"
              end in
  inits <- _get_initializers_by_name self ;;
  let initializer_tensors :=
    (fun '(name, arr) => from_array arr (Some name)) <$> inits in
  adapted <- get_adapted_nodes self ;;
  let node_protos := concat (dict_values adapted) in
  ret (make_graph node_protos name argument_info result_info
         initializer_tensors (_doc_string self)).

(** *** [function.py] *)

(** [Function.to_onnx_function]; the order of the opset imports is not
    modelled, as in [to_onnx_model]. *)
Definition Function_to_onnx_function (f : FunctionFields) : M FunctionProto :=
  br <- _get_build_result (func_graph f) ;;
  let node_protos := concat (dict_values (br_nodes br)) in
  opsets <- get_opsets (func_graph f) ;;
  ret {| fp_domain := domain (fn_op_type f);
         fp_name := identifier (fn_op_type f);
         fp_input := func_inputs_kwargs f;
         fp_output := func_outputs_kwargs f;
         fp_node := node_protos;
         fp_opset_import := map_to_list opsets;
         fp_attribute := Attributes_kwargs f |}.

(** [fun.to_onnx_function()] on an element of the function list. *)
Definition to_onnx_function (fn : Node) : M (option FunctionProto) :=
  o <- read_node fn ;;
  match node_class o with
  | Function f => p <- Function_to_onnx_function f ;; ret (Some p)
  | _ => raise Fault
  end.

(** *** [graph.py]: the model *)

(** The body of the loop of [to_onnx_model] over the functions, once
    [proto] is known: skip a missing definition, refuse one that differs
    from the definition already stored under its key, store it otherwise. *)
Definition register_function_proto
    (function_protos : list ((string * string) * FunctionProto))
    (proto : option FunctionProto)
  : Exception + list ((string * string) * FunctionProto) :=
  match proto with
  | None => inr function_protos
  | Some proto =>
      let key := (fp_domain proto, fp_name proto) in
      match dict_get key function_protos with
      | Some known =>
          if decide (proto = known)
          then inr (dict_set key proto function_protos)
          else inl RuntimeError
      | None => inr (dict_set key proto function_protos)
      end
  end.

(** The loop of [to_onnx_model] that collects the function definitions. *)
Definition collect_function_protos (fns : list Node)
  : M (list ((string * string) * FunctionProto)) :=
  foldM (fun function_protos fn =>
           proto <- to_onnx_function fn ;;
           lift (register_function_proto function_protos proto))
        [] fns.

(** [onnx.helper.make_model] *)
Definition make_model (g : GraphProto) (producer_name doc_string : string)
    (fns : list FunctionProto) (opset_imports : list (string * Z)) : ModelProto :=
  {| mp_graph := g; mp_producer_name := producer_name;
     mp_doc_string := doc_string; mp_functions := fns;
     mp_opset_import := opset_imports |}.

(** [Graph.to_onnx_model].  The opset imports are the entries of the
    dictionary that [get_opsets] returns; the order in which that
    dictionary lists them is not modelled, [map_to_list] lists them in an
    order of its own. *)
Definition to_onnx_model (self : Graph) (producer_name model_doc_string : string)
    (infer_shapes_flag : bool) (check_model_level : Z) (concrete : bool)
  : M ModelProto :=
  br <- _get_build_result self ;;
  function_protos <- collect_function_protos (br_functions br) ;;
  opsets <- get_opsets self ;;
  if decide (opsets = ∅) then raise RuntimeError else
  g <- to_onnx self concrete ;;
  opsets <- get_opsets self ;;
  let model := make_model g producer_name model_doc_string
                 (dict_values function_protos) (map_to_list opsets) in
  let model := if infer_shapes_flag then infer_shapes model else model in
  (if decide (check_model_level = 0%Z) then ret tt
   else match check_model model (bool_decide (2 <= check_model_level)%Z) with
        | Some e => raise e
        | None => ret tt
        end) ;;;
  ret model.

End Model.

(** The same collaborators, with another Builder. *)
Definition with_builder (b : Graph -> M BuildResult) (E : Collaborators)
  : Collaborators :=
  {| build_main := b;
     adapt_best_effort := @adapt_best_effort E;
     to_onnx_value_info := @to_onnx_value_info E;
     Node_opset_req := @Node_opset_req E;
     infer_shapes := @infer_shapes E;
     check_model := @check_model E |}.

(** A Builder that always fails: a Graph queried with it answers only from
    its cache. *)
Definition no_builder : Graph -> M BuildResult := fun _ => raise RuntimeError.

(** [self._build_result] holds [br] in [w]. *)
Definition cached (self : Graph) (br : BuildResult) (w : World) : Prop :=
  w_cached w !! _build_result self = Some br.

(** Two computations agree on the worlds that satisfy [P], and leave such a
    world as it is when they return. *)
Definition stable {A} (P : World -> Prop) (c1 c2 : M A) : Prop :=
  forall w, P w ->
    c1 w = c2 w /\ forall a w', c1 w = inr (a, w') -> w' = w.

(** ** Auxiliary notions used to state the properties *)

(** What one iteration of the loop of [get_adapted_nodes] stores. *)
Definition adapted_or_original `{Collaborators} (g : Graph) (br : BuildResult)
    (node : Node) (protos : list NodeProto) : list NodeProto :=
  match adapt_best_effort node protos
          (max_opset_policy (br_opset_req br ∪ default ∅ (_extra_opset_req g)))
          (scope_var (br_scope br)) (scope_node (br_scope br)) with
  | Some adapted => adapted
  | None => protos
  end.

(** [w'] is [w] with one more Graph object, [g'] at [r']; everything that
    [w] holds is in [w'] as it was. *)
Definition allocates_graph (w : World) (r' : GraphRef) (g' : Graph)
    (w' : World) : Prop :=
  w_graphs w !! r' = None /\
  w_graphs w' !! r' = Some g' /\
  (forall r0 g0, w_graphs w !! r0 = Some g0 -> w_graphs w' !! r0 = Some g0) /\
  w_vars w' = w_vars w /\ w_nodes w' = w_nodes w /\
  w_cached w' = w_cached w /\ w_cached_next w' = w_cached_next w.

(** The Argument node and the Var that [arguments_dict] creates for one
    keyword, in a world [w]. *)
Definition Argument_node (type : option Type_) (name : string)
    (default : option ndarray) (w : World) : NodeObj :=
  {| node_class := Argument type (Some name) default;
     node_inputs := [];
     node_outputs := [length (w_vars w)] |}.

Definition Argument_var (type : option Type_) (name : string) (w : World)
  : VarObj :=
  {| var_op := Some (length (w_nodes w)); var_type := type;
     var_value := None; var_name := Some name |}.

(** The [type] and [default] attributes [arguments_dict] passes on. *)
Definition arg_type (info : ArgInfo) : option Type_ :=
  match info with
  | InfoNone => None
  | InfoType t => Some t
  | InfoArray a => Some (Tensor_like_array a)
  | InfoOther => None
  end.

Definition arg_default (info : ArgInfo) : option ndarray :=
  match info with
  | InfoArray a => Some a
  | _ => None
  end.

(** The keyword value is a Type or an array. *)
Definition typed_info (info : ArgInfo) : Prop := is_Some (arg_type info).

(** What [unsafe_cast x typ] leaves: one more Var [y], of type [typ], with
    the propagated value of [x], produced by one more node [n], an
    [_Introduce] from [x] to [y]; nothing else differs from [w]. *)
Definition cast_world (x : Var) (xo : VarObj) (typ : Type_) (w : World) : World :=
  set_w_nodes
    (w_nodes w ++ [{| node_class := _Introduce;
                      node_inputs := [x];
                      node_outputs := [length (w_vars w)] |}])
    (set_w_vars
       (w_vars w ++ [{| var_op := Some (length (w_nodes w));
                        var_type := Some typ;
                        var_value := var_value xo;
                        var_name := None |}])
       w).

(** ** Example objects *)

Definition empty_world : World :=
  {| w_vars := []; w_nodes := []; w_graphs := [];
     w_cached := ∅; w_cached_next := 0 |}.

Definition float_vector : Type_ := Tensor float32 (Some [DimName "N"]).

(** A world with one Var whose Type is unknown: the output [x] of an
    operator for which inference found no Type. *)
Definition untyped_world : World :=
  {| w_vars := [{| var_op := Some 0; var_type := None;
                   var_value := None; var_name := Some "x" |}];
     w_nodes := [{| node_class := Operator {| identifier := "Custom";
                                               domain := "custom";
                                               version := 1%Z |};
                    node_inputs := []; node_outputs := [0] |}];
     w_graphs := []; w_cached := ∅; w_cached_next := 0 |}.

(** The world after [(x,) = arguments(x=Tensor(float32, ("N",)))]. *)
Definition typed_world : World :=
  {| w_vars := [{| var_op := Some 0; var_type := Some float_vector;
                   var_value := None; var_name := Some "x" |}];
     w_nodes := [{| node_class := Argument (Some float_vector) (Some "x") None;
                    node_inputs := []; node_outputs := [0] |}];
     w_graphs := []; w_cached := ∅; w_cached_next := 0 |}.

(** Every Node object of [w] is in [w'], as it was. *)
Definition nodes_kept (w w' : World) : Prop :=
  forall n o, w_nodes w !! n = Some o -> w_nodes w' !! n = Some o.

(** The Builder removes and replaces no Node object; it may create some. *)
Definition builder_keeps_nodes `{Collaborators} : Prop :=
  forall g w br w', build_main g w = inr (br, w') -> nodes_kept w w'.

(** The key under which a function definition is stored. *)
Definition fp_key (p : FunctionProto) : string * string :=
  (fp_domain p, fp_name p).

(** In [w] the Graph [self] is built, with result [br], and every function
    of [br] is a Function node whose internal graph is built. *)
Definition functions_built (self : Graph) (br : BuildResult) (w : World)
  : Prop :=
  cached self br w /\
  forall fn, fn ∈ br_functions br ->
    exists o f brf,
      w_nodes w !! fn = Some o /\ node_class o = Function f /\
      cached (func_graph f) brf w.

(** A dictionary of function definitions is keyed by the identifiers of its
    definitions. *)
Definition keyed (d : list ((string * string) * FunctionProto)) : Prop :=
  NoDup d.*1 /\ forall k q, (k, q) ∈ d -> k = fp_key q.

(** *** A graph with one Introduce node

    [x] is an argument, a vector of floats; [y = intro(x)]; the Graph has
    the one result [y]. *)

Definition example_graph : Graph :=
  {| _results := [("y", 1)]; _name := None; _doc_string := None;
     _arguments := None; _extra_opset_req := None; _constructor := None;
     _build_result := 0 |}.

Definition intro_world : World :=
  {| w_vars := [{| var_op := Some 0; var_type := Some float_vector;
                   var_value := None; var_name := Some "x" |};
                {| var_op := Some 1; var_type := Some float_vector;
                   var_value := None; var_name := None |}];
     w_nodes := [{| node_class := Argument (Some float_vector) (Some "x") None;
                    node_inputs := []; node_outputs := [0] |};
                 {| node_class := _Introduce;
                    node_inputs := [0]; node_outputs := [1] |}];
     w_graphs := [example_graph];
     w_cached := ∅;
     w_cached_next := 1 |}.

Definition example_scope : Scope :=
  {| scope_var := {[ 0 := "x"; 1 := "y" ]};
     scope_node := {[ 0 := "Argument_0"; 1 := "Introduce_0" ]} |}.

Definition example_identity : NodeProto :=
  make_node "Identity" ["x"] ["y"] (Some "Introduce_0_id0") None [].

Definition example_br : BuildResult :=
  {| br_scope := example_scope;
     br_nodes := [(0, []); (1, [example_identity])];
     br_arguments := [0];
     br_results := [1];
     br_opset_req := {[ ("", 1%Z) ]};
     br_functions := [];
     br_initializers := [] |}.

(** Collaborators for the examples: a Builder that knows the build result
    of the example graph, an adapter that gives up on every node that has
    instructions, and a checker that accepts every model. *)
Definition example_collaborators : Collaborators :=
  {| build_main := fun _ => ret example_br;
     adapt_best_effort := fun _ protos _ _ _ =>
       match protos with
       | [] => Some []
       | _ => None
       end;
     to_onnx_value_info := fun t name _ => inr {| vi_name := name; vi_type := t |};
     Node_opset_req := fun o =>
       match node_class o with
       | Function f => {[ (domain (fn_op_type f), version (fn_op_type f)) ]}
       | Operator op => {[ (domain op, version op) ]}
       | _ => ∅
       end;
     infer_shapes := fun m => m;
     check_model := fun _ _ => None |}.

(** [intro_world] once the example graph is built. *)
Definition built_world : World :=
  set_w_cached (<[0 := example_br]> ∅) intro_world.

Definition example_graph_proto : GraphProto :=
  {| gp_node := [example_identity];
     gp_name := "steelix_graph";
     gp_input := [{| vi_name := "x"; vi_type := float_vector |}];
     gp_output := [{| vi_name := "y"; vi_type := float_vector |}];
     gp_initializer := [];
     gp_doc_string := None |}.

(** The example graph, asked for two more opsets with [with_opset]. *)
Definition example_graph_with_opset : Graph :=
  {| _results := [("y", 1)]; _name := None; _doc_string := None;
     _arguments := None;
     _extra_opset_req := Some {[ ("", 17%Z); ("ai.onnx.ml", 3%Z) ]};
     _constructor := None;
     _build_result := 0 |}.

(** *** A graph that calls one function twice

    [double] is a function whose body is one [Add]; the outer graph is
    [z = double(double(x))]. *)

Definition double_op : OpType :=
  {| identifier := "double"; domain := "steelix.function"; version := 0%Z |}.

Definition double_graph (cell : CachedRef) : Graph :=
  {| _results := [("out0", 1)]; _name := None; _doc_string := None;
     _arguments := Some [0]; _extra_opset_req := None; _constructor := None;
     _build_result := cell |}.

Definition double_fields (cell : CachedRef) : FunctionFields :=
  {| fn_op_type := double_op;
     func_graph := double_graph cell;
     func_inputs_kwargs := ["in0"];
     func_outputs_kwargs := ["out0"];
     Attributes_kwargs := [] |}.

(** The build result of the body of [double]: [out0 = op in0 in0]. *)
Definition double_br (op : string) : BuildResult :=
  {| br_scope := {| scope_var := {[ 0 := "in0"; 1 := "out0" ]};
                    scope_node := {[ 0 := "Argument_0"; 1 := "Add_0" ]} |};
     br_nodes := [(0, []);
                  (1, [make_node op ["in0"; "in0"] ["out0"] (Some "Add_0") None []])];
     br_arguments := [0];
     br_results := [1];
     br_opset_req := {[ ("", 17%Z) ]};
     br_functions := [];
     br_initializers := [] |}.

Definition call_double (name input output : string) : NodeProto :=
  make_node "double" [input] [output] (Some name) None [].

Definition outer_graph : Graph :=
  {| _results := [("z", 2)]; _name := Some "twice"; _doc_string := None;
     _arguments := None; _extra_opset_req := None; _constructor := None;
     _build_result := 0 |}.

Definition outer_br : BuildResult :=
  {| br_scope := {| scope_var := {[ 0 := "x"; 1 := "y"; 2 := "z" ]};
                    scope_node := {[ 0 := "Argument_0"; 1 := "double_0";
                                     2 := "double_1" ]} |};
     br_nodes := [(0, []);
                  (1, [call_double "double_0" "x" "y"]);
                  (2, [call_double "double_1" "y" "z"])];
     br_arguments := [0];
     br_results := [2];
     br_opset_req := {[ ("", 17%Z); ("steelix.function", 0%Z) ]};
     br_functions := [1; 2];
     br_initializers := [] |}.

(** Both calls are instances built from the body in cell [c1],
    respectively [c2]; the cells hold [b1] and [b2]. *)
Definition twice_world (c1 c2 : CachedRef) (b1 b2 : BuildResult) : World :=
  {| w_vars := [{| var_op := Some 0; var_type := Some float_vector;
                   var_value := None; var_name := Some "x" |};
                {| var_op := Some 1; var_type := Some float_vector;
                   var_value := None; var_name := None |};
                {| var_op := Some 2; var_type := Some float_vector;
                   var_value := None; var_name := None |}];
     w_nodes := [{| node_class := Argument (Some float_vector) (Some "x") None;
                    node_inputs := []; node_outputs := [0] |};
                 {| node_class := Function (double_fields c1);
                    node_inputs := [0]; node_outputs := [1] |};
                 {| node_class := Function (double_fields c2);
                    node_inputs := [1]; node_outputs := [2] |}];
     w_graphs := [outer_graph];
     w_cached := <[c2 := b2]> (<[c1 := b1]> {[ 0 := outer_br ]});
     w_cached_next := 3 |}.

(** The two instances agree on the body. *)
Definition agreeing_world : World :=
  twice_world 1 2 (double_br "Add") (double_br "Add").

(** The two instances disagree on the body. *)
Definition colliding_world : World :=
  twice_world 1 2 (double_br "Add") (double_br "Mul").

Definition double_proto (op : string) : FunctionProto :=
  {| fp_domain := "steelix.function";
     fp_name := "double";
     fp_input := ["in0"];
     fp_output := ["out0"];
     fp_node := [make_node op ["in0"; "in0"] ["out0"] (Some "Add_0") None []];
     fp_opset_import := [("", 17%Z)];
     fp_attribute := [] |}.

(** A world in which only the body of [double] has been built. *)
Definition calling_world : World :=
  {| w_vars := w_vars agreeing_world;
     w_nodes := w_nodes agreeing_world;
     w_graphs := [];
     w_cached := {[ 1 := double_br "Add" ]};
     w_cached_next := 3 |}.

(** ** More of the three modules *)

(** [self.outputs.output] *)
Definition outputs_output (self : Node) : M Var :=
  o <- read_node self ;;
  expect Fault (head (node_outputs o)).

(** [constant] *)
Definition constant (value : ndarray) (version : option Z) : M Var :=
  n <- Node_init (_Constant value version) [] 1 ;;
  outputs_output n.

(** [enum_results]; dict comprehensions keep the last value of a repeated
    key. *)
Definition enum_results (arrows : list Arrow) (prefix : string) : M GraphRef :=
  results (foldl (fun d '(i, arrow) => dict_set (prefix +:+ pretty i) arrow d)
                 [] (imap pair arrows)).

(** Modelled from the spec: [Cached] is declared in [_build], which is not
    under src/.  [Cached(what)] is a new cell that holds [what]. *)
Definition Cached_init_with (what : BuildResult) : M CachedRef :=
  fun w => inr (w_cached_next w,
                {| w_vars := w_vars w; w_nodes := w_nodes w;
                   w_graphs := w_graphs w;
                   w_cached := <[w_cached_next w := what]> (w_cached w);
                   w_cached_next := S (w_cached_next w) |}).

(** [Graph._inject_build_result] *)
Definition _inject_build_result (self : Graph) (what : BuildResult)
  : M GraphRef :=
  c <- Cached_init_with what ;;
  Graph_init {| _results := _results self;
                _name := _name self;
                _doc_string := _doc_string self;
                _arguments := _arguments self;
                _extra_opset_req := _extra_opset_req self;
                _constructor := _constructor self;
                _build_result := c |}.

(** [Graph.requested_arguments], [Graph.requested_results] *)
Definition requested_arguments (self : Graph) : option (list Arrow) :=
  _arguments self.
Definition requested_results (self : Graph) : list (string * Arrow) :=
  _results self.

(** The Graph object behind a reference. *)
Definition read_graph (r : GraphRef) : M Graph :=
  fun w => match w_graphs w !! r with
           | Some g => inr (g, w)
           | None => inl Fault
           end.

Section Constructors.
(** What calling a stored Python callable on Arrows does. *)
Context (call : Callable -> list Arrow -> M (list Arrow)).

(** [subgraph] *)
Definition subgraph (types : list Type_) (fn : Callable) : M GraphRef :=
  ins <- enum_arguments (InfoType <$> types) "in" ;;
  foldM (fun _ arrow => Var__rename arrow None) tt ins ;;;
  outs <- call fn ins ;;
  r1 <- enum_results outs "out" ;;
  g1 <- read_graph r1 ;;
  r2 <- with_arguments g1 ins ;;
  g2 <- read_graph r2 ;;
  _with_constructor g2 fn.

(** [Graph._reconstruct]; iterating [self._results] yields its keys, and
    [zip] stops at the shorter of its arguments. *)
Definition _reconstruct (self : Graph) (args : list Arrow) : M GraphRef :=
  match _constructor self with
  | None => raise AssertionError
  | Some constructor =>
      outs <- call constructor args ;;
      r1 <- results (foldl (fun d '(name, arrow) => dict_set name arrow d)
                           [] (zip (dict_keys (_results self)) outs)) ;;
      g1 <- read_graph r1 ;;
      r2 <- with_arguments g1 args ;;
      g2 <- read_graph r2 ;;
      _with_constructor g2 constructor
  end.

End Constructors.

(** *** [converter.py] *)

Section Converter.
(** Python objects, compared by identity with [=].  [type what] is
    [type(what)]; [hash what] is the hash of [what], or the exception that
    hashing raises (a TypeError for an unhashable object); [eq key what] is
    what the dictionary gets from comparing a stored [key] with [what] by
    [==], or the exception the comparison raises; [call f what] is
    [f(what)]. *)
Context {Obj : Type} `{EqDecision Obj}.
Context (type : Obj -> Obj) (hash : Obj -> Exception + Z)
        (eq : Obj -> Obj -> Exception + bool)
        (call : Obj -> Obj -> Exception + Obj).

(** The search of a dictionary for [what], whose hash is [h]: an entry is
    found when its key is [what] itself, or has the hash [h] and compares
    equal to [what]; keys with another hash are not compared.  The entries
    are tried in the order of the list; the order in which the hash table
    is probed is not modelled, and the properties proved below hold for
    every order. *)
Fixpoint probe (h : Z) (what : Obj) (d : list (Obj * Obj))
  : Exception + option Obj :=
  match d with
  | [] => inr None
  | (key, value) :: d' =>
      if decide (key = what) then inr (Some value)
      else match hash key with
           | inr hk =>
               if decide (hk = h)
               then match eq key what with
                    | inl e => inl e
                    | inr true => inr (Some value)
                    | inr false => probe h what d'
                    end
               else probe h what d'
           | inl _ => probe h what d'
           end
  end.

(** [what in d], and [d[what]] when it is: hashing [what] comes first. *)
Definition dict_lookup (d : list (Obj * Obj)) (what : Obj)
  : Exception + option Obj :=
  match hash what with
  | inl e => inl e
  | inr h => probe h what d
  end.

(** [convert], on the registry [converters] *)
Definition convert (converters : list (Obj * Obj)) (what : Obj)
  : Exception + Obj :=
  match dict_lookup converters what with
  | inl e => inl e
  | inr (Some found) => inr found
  | inr None =>
      match dict_lookup converters (type what) with
      | inl e => inl e
      | inr (Some converter) => call converter what
      | inr None => inl KeyError
      end
  end.

(** The stored [key] is found by a search for [what] with hash [h];
    respectively, it is passed over without an exception. *)
Definition key_matches (h : Z) (what key : Obj) : Prop :=
  key = what \/ (hash key = inr h /\ eq key what = inr true).

Definition key_differs (h : Z) (what key : Obj) : Prop :=
  key <> what /\
  ((forall hk, hash key = inr hk -> hk <> h) \/ eq key what = inr false).

(** The dictionary [d] has an entry for [what], and every key that a
    search for [what] can stop at has the value [found]; respectively,
    [d] has no entry for [what]. *)
Definition finds (h : Z) (what : Obj) (d : list (Obj * Obj)) (found : Obj)
  : Prop :=
  (exists key, (key, found) ∈ d /\ key_matches h what key) /\
  forall key value, (key, value) ∈ d ->
    (key_matches h what key /\ value = found) \/ key_differs h what key.

Definition misses (h : Z) (what : Obj) (d : list (Obj * Obj)) : Prop :=
  forall key value, (key, value) ∈ d -> key_differs h what key.

End Converter.

(** ** Auxiliary notions for the further properties *)

(** The world after [arguments_dict] has processed keywords [kwargs] that
    are Types or arrays: one Argument node and one Var more for each
    keyword, in order. *)
Fixpoint arguments_world (kwargs : list (string * ArgInfo)) (w : World) : World :=
  match kwargs with
  | [] => w
  | (name, info) :: kwargs' =>
      arguments_world kwargs'
        (set_w_nodes
           (w_nodes w ++ [Argument_node (arg_type info) name (arg_default info) w])
           (set_w_vars (w_vars w ++ [Argument_var (arg_type info) name w]) w))
  end.

(** The keywords [enum_arguments] passes on, and the results [enum_results]
    passes on. *)
Definition enumerate_names {A} (prefix : string) (l : list A) : list (string * A) :=
  imap (fun i x => (prefix +:+ pretty i, x)) l.

(** The output Var that [intros] creates for an input whose object is
    [xo]: it has the Type of the input, and neither value nor name. *)
Definition introduced_var (n : Node) (xo : VarObj) : VarObj :=
  {| var_op := Some n; var_type := var_type xo;
     var_value := None; var_name := None |}.

(** The name [to_onnx] gives to the graph. *)
Definition graph_name (self : Graph) : string :=
  match _name self with
  | Some n => if decide (n = "") then "steelix_graph" else n
  | None => "steelix_graph"
  end.

(** Every cell with a value was created by [Cached()] or [Cached(what)]. *)
Definition cells_allocated (w : World) : Prop :=
  forall c, is_Some (w_cached w !! c) -> c < w_cached_next w.

(** The world after [intros args], when the objects of [args] are [objs]:
    one more node, an [_Introduce] from [args] to as many new Vars, the
    i-th of which has the Type of the i-th argument. *)
Definition intros_world (args : list Var) (objs : list VarObj) (w : World) : World :=
  set_w_nodes
    (w_nodes w ++ [{| node_class := _Introduce;
                      node_inputs := args;
                      node_outputs := seq (length (w_vars w)) (length args) |}])
    (set_w_vars
       (w_vars w ++ (introduced_var (length (w_nodes w)) <$> objs)) w).

(** The types [_Introduce.infer_output_types] returns for inputs whose
    objects are [objs], numbered from [k]. *)
Definition introduce_types (k : nat) (objs : list VarObj)
    (acc : list (string * option Type_)) : list (string * option Type_) :=
  foldl (fun acc '(i, xo) =>
           match var_type xo with
           | Some t => dict_set ("outputs_" +:+ pretty i) (Some t) acc
           | None => acc
           end)
        acc (zip (seq k (length objs)) objs).

(** The world while [intros args] constructs its node: the outputs for
    [done] have their Types, the remaining [todo] are still fresh. *)
Definition partial_world (w : World) (args : list Var)
    (done : list VarObj) (todo : nat) : World :=
  set_w_nodes
    (w_nodes w ++ [{| node_class := _Introduce;
                      node_inputs := args;
                      node_outputs := seq (length (w_vars w)) (length args) |}])
    (set_w_vars
       (w_vars w ++ (introduced_var (length (w_nodes w)) <$> done) ++
        replicate todo {| var_op := Some (length (w_nodes w)); var_type := None;
                          var_value := None; var_name := None |}) w).


(** A Var object after [_rename(None)]. *)
Definition unnamed (o : VarObj) : VarObj :=
  {| var_op := var_op o; var_type := var_type o;
     var_value := var_value o; var_name := None |}.

(** The world in which [subgraph types fn] calls [fn]: one Argument node
    and one Var more for each type, and the new Vars have lost the names
    [enum_arguments] gave them. *)
Definition subgraph_world (types : list Type_) (w : World) : World :=
  set_w_vars
    (w_vars w ++
     imap (fun i t => {| var_op := Some (length (w_nodes w) + i);
                         var_type := Some t;
                         var_value := None;
                         var_name := None |}) types)
    (arguments_world (enumerate_names "in" (InfoType <$> types)) w).

(** The collaborators of [E], with another adapter. *)
Definition with_adapter
    (a : Node -> list NodeProto -> gmap string Z ->
         gmap Var string -> gmap Node string -> option (list NodeProto))
    (E : Collaborators) : Collaborators :=
  {| build_main := @build_main E;
     adapt_best_effort := a;
     to_onnx_value_info := @to_onnx_value_info E;
     Node_opset_req := @Node_opset_req E;
     infer_shapes := @infer_shapes E;
     check_model := @check_model E |}.

(** The accumulators [md'] hold everything the accumulators [md] hold:
    every opset requirement, an initializer for every Var that had one, and
    the same functions at the same positions. *)
Definition metadata_le (md md' : Metadata) : Prop :=
  md_opset_req md ⊆ md_opset_req md' /\
  (forall x, x ∈ dict_keys (md_initializers md) ->
             x ∈ dict_keys (md_initializers md')) /\
  md_functions md `prefix_of` md_functions md'.

(** ** More example objects *)

(** A build that found nothing: no node, no result, no requirement. *)
Definition bare_br : BuildResult :=
  {| br_scope := {| scope_var := ∅; scope_node := ∅ |};
     br_nodes := []; br_arguments := []; br_results := [];
     br_opset_req := ∅; br_functions := []; br_initializers := [] |}.

(** The build result of the example graph, with a scope that names
    nothing. *)
Definition nameless_br : BuildResult :=
  {| br_scope := {| scope_var := ∅; scope_node := ∅ |};
     br_nodes := [(0, []); (1, [example_identity])];
     br_arguments := [0];
     br_results := [1];
     br_opset_req := {[ ("", 1%Z) ]};
     br_functions := [];
     br_initializers := [] |}.

(** [intro_world], with [br] as the build result of the example graph. *)
Definition world_built_as (br : BuildResult) : World :=
  set_w_cached (<[0 := br]> ∅) intro_world.

Definition example_array : ndarray :=
  {| nd_dtype := float32; nd_shape := [2%Z]; nd_data := [1%Z; 2%Z] |}.

(** The world after [w = initializer(example_array)] and
    [(b,) = arguments(b=example_array)]. *)
Definition initializer_world : World :=
  {| w_vars := [{| var_op := Some 0;
                   var_type := Some (Tensor_like_array example_array);
                   var_value := None; var_name := None |};
                {| var_op := Some 1;
                   var_type := Some (Tensor_like_array example_array);
                   var_value := None; var_name := Some "b" |}];
     w_nodes := [{| node_class :=
                      _Initializer (Tensor_like_array example_array) example_array;
                    node_inputs := []; node_outputs := [0] |};
                 {| node_class :=
                      Argument (Some (Tensor_like_array example_array)) (Some "b")
                               (Some example_array);
                    node_inputs := []; node_outputs := [1] |}];
     w_graphs := []; w_cached := ∅; w_cached_next := 0 |}.

(** A world with an Introduce node that has an input and no output. *)
Definition lopsided_world : World :=
  {| w_vars := w_vars typed_world;
     w_nodes := w_nodes typed_world ++
                [{| node_class := _Introduce;
                    node_inputs := [0]; node_outputs := [] |}];
     w_graphs := []; w_cached := ∅; w_cached_next := 0 |}.

(** A constructor that returns its arguments, whatever is called. *)
Definition call_identity : Callable -> list Arrow -> M (list Arrow) :=
  fun _ args => ret args.

(** The example graph, with a constructor and a doc string. *)
Definition constructed_graph : Graph :=
  {| _results := [("y", 1)]; _name := Some "g"; _doc_string := Some "doc";
     _arguments := Some [0]; _extra_opset_req := None; _constructor := Some 7;
     _build_result := 0 |}.

(** A small world of Python objects, the numbers: every object has type 0;
    9 cannot be hashed and every other object has hash 0; an object is
    equal to itself, and the stored key 1 is equal to 2; calling [c] on
    [x] gives their sum. *)
Definition example_type : nat -> nat := fun _ => 0.
Definition example_hash : nat -> Exception + Z :=
  fun x => if decide (x = 9) then inl TypeError else inr 0%Z.
Definition example_eq : nat -> nat -> Exception + bool :=
  fun key x => inr (bool_decide (key = x) || bool_decide (key = 1 /\ x = 2)).
Definition example_call : nat -> nat -> Exception + nat :=
  fun c x => inr (c + x).
(** * Properties *)

(** ** The monad *)

Lemma bind_inr {A B} (c : M A) (k : A -> M B) w a w' :
  c w = inr (a, w') -> bind c k w = k a w'.
Proof. intros Hc. unfold bind. by rewrite Hc. Qed.

Lemma bind_inl {A B} (c : M A) (k : A -> M B) w e :
  c w = inl e -> bind c k w = inl e.
Proof. intros Hc. unfold bind. by rewrite Hc. Qed.

Lemma bind_inv {A B} (c : M A) (k : A -> M B) w b w' :
  bind c k w = inr (b, w') ->
  exists a w1, c w = inr (a, w1) /\ k a w1 = inr (b, w').
Proof.
  unfold bind. destruct (c w) as [e | [a w1]]; [done |]. eauto.
Qed.

Lemma foldM_cons {A B} (f : B -> A -> M B) b x l w :
  foldM f b (x :: l) w =
  match f b x w with
  | inl e => inl e
  | inr (b', w') => foldM f b' l w'
  end.
Proof. done. Qed.

Lemma stable_ret {A} P (a : A) : stable P (ret a) (ret a).
Proof. intros w _. split; [done |]. unfold ret. by intros ? ? [= _ ->]. Qed.

Lemma stable_raise {A} P e : stable P (@raise A e) (raise e).
Proof. intros w _. split; [done |]. unfold raise. done. Qed.

Lemma stable_lift {A} P (r : Exception + A) : stable P (lift r) (lift r).
Proof. destruct r; [apply stable_raise | apply stable_ret]. Qed.

Lemma stable_expect {A} P e (o : option A) :
  stable P (expect e o) (expect e o).
Proof. destruct o; [apply stable_ret | apply stable_raise]. Qed.

Lemma stable_read_var P x : stable P (read_var x) (read_var x).
Proof.
  intros w _. split; [done |]. unfold read_var.
  destruct (w_vars w !! x); [by intros ? ? [= _ ->] | done].
Qed.

Lemma stable_read_node P n : stable P (read_node n) (read_node n).
Proof.
  intros w _. split; [done |]. unfold read_node.
  destruct (w_nodes w !! n); [by intros ? ? [= _ ->] | done].
Qed.

Lemma stable_bind {A B} P (c1 c2 : M A) (k1 k2 : A -> M B) :
  stable P c1 c2 -> (forall a, stable P (k1 a) (k2 a)) ->
  stable P (bind c1 k1) (bind c2 k2).
Proof.
  intros Hc Hk w Hw. destruct (Hc w Hw) as [Heq Hsame].
  unfold bind. rewrite <- Heq.
  destruct (c1 w) as [e | [a w1]] eqn:Hc1; [done |].
  rewrite (Hsame a w1 eq_refl). apply (Hk a w Hw).
Qed.

Lemma stable_foldM {A B} P (f1 f2 : B -> A -> M B) (l : list A) :
  (forall b x, stable P (f1 b x) (f2 b x)) ->
  forall b, stable P (foldM f1 b l) (foldM f2 b l).
Proof.
  intros Hf. induction l as [| x l IH]; intros b; simpl.
  - apply stable_ret.
  - apply stable_bind; [apply Hf | apply IH].
Qed.

Lemma stable_mapM {A B} P (f1 f2 : A -> M B) (l : list A) :
  (forall x, stable P (f1 x) (f2 x)) ->
  stable P (mapM f1 l) (mapM f2 l).
Proof.
  intros Hf. induction l as [| x l IH]; simpl.
  - apply stable_ret.
  - apply stable_bind; [apply Hf |]. intros y.
    apply stable_bind; [apply IH |]. intros ys. apply stable_ret.
Qed.

(** ** The cache of a Graph *)

Section Cache.
Context {E : Collaborators}.

Lemma get_build_result_cached (g : Graph) br w :
  cached g br w -> _get_build_result g w = inr (br, w).
Proof.
  unfold cached, _get_build_result, bind, Cached__value, Cached_value.
  intros Hc. by rewrite !Hc.
Qed.

Lemma get_build_result_caches (g : Graph) br w w' :
  _get_build_result g w = inr (br, w') -> cached g br w'.
Proof.
  unfold cached, _get_build_result, bind, Cached__value, Cached_value.
  destruct (w_cached w !! _build_result g) as [v |] eqn:Hv.
  - rewrite Hv. by intros [= <- <-].
  - destruct (build_main g w) as [e | [b w1]]; [done |]. simpl.
    rewrite lookup_insert_eq. by intros [= <- <-]; simpl; rewrite lookup_insert_eq.
Qed.

End Cache.

(** ** Queries on a built Graph do not consult the Builder *)

Section Memo.
Context {E : Collaborators} (b : Graph -> M BuildResult).
Context (g : Graph) (br : BuildResult).

Lemma stable_get_build_result :
  stable (cached g br)
    (@_get_build_result E g) (@_get_build_result (with_builder b E) g).
Proof.
  intros w Hw. rewrite !(get_build_result_cached g br w Hw).
  split; [done |]. by intros ? ? [= _ ->].
Qed.

Ltac stable_step :=
  first
    [ apply stable_ret | apply stable_raise | apply stable_lift
    | apply stable_expect | apply stable_read_var
    | apply stable_read_node | apply stable_get_build_result
    | apply stable_bind; [| intros ?]
    | apply stable_foldM; intros ? ?
    | apply stable_mapM; intros ?
    | match goal with
      | |- stable _ (match ?x with _ => _ end) _ => destruct x
      end ].

Ltac stable := repeat first [stable_step | progress simpl].

Lemma stable_get_results :
  stable (cached g br) (@get_results E g) (@get_results (with_builder b E) g).
Proof. unfold get_results. stable. Qed.

Lemma stable_get_arguments :
  stable (cached g br) (@get_arguments E g) (@get_arguments (with_builder b E) g).
Proof. unfold get_arguments. stable. Qed.

Lemma stable_get_opsets :
  stable (cached g br) (@get_opsets E g) (@get_opsets (with_builder b E) g).
Proof. unfold get_opsets, _get_opset_req. stable. Qed.

Lemma stable_get_initializers_by_name :
  stable (cached g br)
    (@_get_initializers_by_name E g)
    (@_get_initializers_by_name (with_builder b E) g).
Proof. unfold _get_initializers_by_name. stable. Qed.

Lemma stable_get_adapted_nodes :
  stable (cached g br)
    (@get_adapted_nodes E g) (@get_adapted_nodes (with_builder b E) g).
Proof.
  unfold get_adapted_nodes.
  apply stable_bind; [apply stable_get_build_result |]. intros br0.
  apply stable_foldM. intros acc [node protos].
  apply stable_bind; [apply stable_get_opsets |]. intros opsets.
  stable.
Qed.

Lemma stable_value_infos concrete named :
  stable (cached g br)
    (@value_infos E concrete named)
    (@value_infos (with_builder b E) concrete named).
Proof. unfold value_infos. stable. Qed.

Lemma stable_to_onnx concrete :
  stable (cached g br)
    (@to_onnx E g concrete) (@to_onnx (with_builder b E) g concrete).
Proof.
  unfold to_onnx.
  apply stable_bind; [apply stable_get_results |]. intros res.
  destruct (decide (res = [])); [apply stable_raise |].
  apply stable_bind; [apply stable_get_arguments |]. intros args.
  apply stable_bind; [apply stable_value_infos |]. intros argument_info.
  apply stable_bind; [apply stable_get_results |]. intros res'.
  apply stable_bind; [apply stable_value_infos |]. intros result_info.
  apply stable_bind; [apply stable_get_initializers_by_name |]. intros inits.
  apply stable_bind; [apply stable_get_adapted_nodes |]. intros adapted.
  apply stable_ret.
Qed.

End Memo.

Section Memoization.
Context {E : Collaborators}.

(** A query that starts by fetching the build result behaves, on a first
    call that builds, as it does on the world the build leaves. *)
Lemma after_build {A} (g : Graph) (k : BuildResult -> M A) w br w1 :
  _get_build_result g w = inr (br, w1) ->
  bind (_get_build_result g) k w = bind (_get_build_result g) k w1.
Proof.
  intros Hb. rewrite (bind_inr _ _ _ _ _ Hb).
  apply get_build_result_caches in Hb.
  by rewrite (bind_inr _ _ _ _ _ (get_build_result_cached g br w1 Hb)).
Qed.

Lemma to_onnx_after_build (g : Graph) concrete w br w1 :
  _get_build_result g w = inr (br, w1) ->
  to_onnx g concrete w = to_onnx g concrete w1.
Proof.
  intros Hb. unfold to_onnx.
  assert (get_results g w = get_results g w1) as Hres
    by (unfold get_results; by eapply after_build).
  unfold bind at 1. rewrite Hres. done.
Qed.

Lemma to_onnx_builds (g : Graph) concrete w p w' :
  to_onnx g concrete w = inr (p, w') ->
  exists br w1, _get_build_result g w = inr (br, w1).
Proof.
  unfold to_onnx, get_results. intros Hto.
  apply bind_inv in Hto as (res & w2 & Hres & _).
  apply bind_inv in Hres as (br & w1 & Hb & _). eauto.
Qed.

(** C1. Building is memoized and idempotent.  When a first query of the
    build result of a Graph returns, a second query on the world it leaves
    returns the identical build result, hence the identical instruction
    sequence and initializer set, changes nothing, and does so with any
    Builder in place of the real one, even one that always fails: the
    build is not recomputed.  The same holds for two calls of [to_onnx]. *)
Theorem build_is_memoized (b : Graph -> M BuildResult) (g : Graph) (w : World) :
  (forall br w',
     _get_build_result g w = inr (br, w') ->
     _get_build_result g w' = inr (br, w') /\
     @_get_build_result (with_builder b E) g w' = inr (br, w')) /\
  (forall concrete p w',
     to_onnx g concrete w = inr (p, w') ->
     to_onnx g concrete w' = inr (p, w') /\
     @to_onnx (with_builder b E) g concrete w' = inr (p, w')).
Proof.
  split.
  - intros br w' Hb. apply get_build_result_caches in Hb.
    split; by apply get_build_result_cached.
  - intros concrete p w' Hto.
    destruct (to_onnx_builds _ _ _ _ _ Hto) as (br & w1 & Hb).
    rewrite (to_onnx_after_build _ _ _ _ _ Hb) in Hto.
    pose proof (get_build_result_caches _ _ _ _ Hb) as Hc.
    destruct (stable_to_onnx b g br concrete w1 Hc) as [Heq Hsame].
    pose proof (Hsame _ _ Hto) as ->.
    split; [done |]. by rewrite <- Heq.
Qed.

End Memoization.

(** ** The "maximum requested" policy *)

Lemma max_opset_policy_inv (req : gset (string * Z)) :
  (forall d v, max_opset_policy req !! d = Some v ->
     (d, v) ∈ req /\ forall v', (d, v') ∈ req -> (v' <= v)%Z) /\
  (forall d v, (d, v) ∈ req -> is_Some (max_opset_policy req !! d)).
Proof.
  unfold max_opset_policy.
  apply (set_fold_ind_L
    (fun (m : gmap string Z) (X : gset (string * Z)) =>
       (forall d v, m !! d = Some v ->
          (d, v) ∈ X /\ forall v', (d, v') ∈ X -> (v' <= v)%Z) /\
       (forall d v, (d, v) ∈ X -> is_Some (m !! d)))).
  - split.
    + intros d v. by rewrite lookup_empty.
    + intros d v Hin. set_solver.
  - intros [dx vx] X r Hfresh [Hmax Hdom]. simpl. split.
    + intros d v. destruct (decide (dx = d)) as [<- | Hne].
      * rewrite lookup_insert_eq.
        destruct (r !! dx) as [v0 |] eqn:Hr.
        -- intros [= <-]. destruct (Hmax _ _ Hr) as [Hin Hle]. split.
           ++ destruct (Z.max_spec v0 vx) as [[_ ->] | [_ ->]]; set_solver.
           ++ intros v' [Hv' | Hv']%elem_of_union.
              ** apply elem_of_singleton in Hv'. simplify_eq. lia.
              ** specialize (Hle _ Hv'). lia.
        -- intros [= <-]. split; [set_solver |].
           intros v' [Hv' | Hv']%elem_of_union.
           ++ apply elem_of_singleton in Hv'. simplify_eq. lia.
           ++ destruct (Hdom _ _ Hv') as [? Hsome]. congruence.
      * rewrite lookup_insert_ne by done. intros Hr.
        destruct (Hmax _ _ Hr) as [Hin Hle]. split; [set_solver |].
        intros v' [Hv' | Hv']%elem_of_union; [| by apply Hle].
        apply elem_of_singleton in Hv'. congruence.
    + intros d v [Hv | Hv]%elem_of_union.
      * apply elem_of_singleton in Hv. simplify_eq.
        rewrite lookup_insert_eq. eauto.
      * destruct (decide (dx = d)) as [<- | Hne].
        -- rewrite lookup_insert_eq. eauto.
        -- rewrite lookup_insert_ne by done. by eapply Hdom.
Qed.

Lemma max_opset_policy_spec (req : gset (string * Z)) d v :
  max_opset_policy req !! d = Some v <->
  (d, v) ∈ req /\ forall v', (d, v') ∈ req -> (v' <= v)%Z.
Proof.
  destruct (max_opset_policy_inv req) as [Hmax Hdom]. split; [apply Hmax |].
  intros [Hin Hle]. destruct (Hdom _ _ Hin) as [v0 Hv0].
  destruct (Hmax _ _ Hv0) as [Hin0 Hle0].
  specialize (Hle _ Hin0). specialize (Hle0 _ Hin).
  rewrite Hv0. f_equal. lia.
Qed.

Lemma max_opset_policy_dom (req : gset (string * Z)) d :
  is_Some (max_opset_policy req !! d) <-> exists v, (d, v) ∈ req.
Proof.
  destruct (max_opset_policy_inv req) as [Hmax Hdom]. split.
  - intros [v Hv]. exists v. by apply Hmax.
  - intros [v Hv]. by eapply Hdom.
Qed.

Section Opsets.
Context {E : Collaborators}.

Lemma get_opset_req_built (g : Graph) w br w1 :
  _get_build_result g w = inr (br, w1) ->
  _get_opset_req g w =
    inr (br_opset_req br ∪ default ∅ (_extra_opset_req g), w1).
Proof.
  intros Hb. unfold _get_opset_req. rewrite (bind_inr _ _ _ _ _ Hb).
  by destruct (_extra_opset_req g).
Qed.

Lemma get_opsets_built (g : Graph) w br w1 :
  _get_build_result g w = inr (br, w1) ->
  get_opsets g w =
    inr (max_opset_policy
           (br_opset_req br ∪ default ∅ (_extra_opset_req g)), w1).
Proof.
  intros Hb. unfold get_opsets.
  by rewrite (bind_inr _ _ _ _ _ (get_opset_req_built _ _ _ _ Hb)).
Qed.

(** C3. [get_opsets] returns one version per domain, the maximum over the
    union of the opset requirements the build collected and the extra
    requirements given to the Graph with [with_opset].  Whenever the Graph
    builds, [get_opsets] returns a map that has an entry for exactly the
    domains that occur in that union, and the entry of a domain is the
    greatest version required for it. *)
Theorem get_opsets_is_maximum (g : Graph) (w w1 : World) (br : BuildResult) :
  _get_build_result g w = inr (br, w1) ->
  let req := br_opset_req br ∪ default ∅ (_extra_opset_req g) in
  exists opsets : gmap string Z,
    get_opsets g w = inr (opsets, w1) /\
    (forall d, is_Some (opsets !! d) <-> exists v, (d, v) ∈ req) /\
    (forall d v, opsets !! d = Some v <->
       (d, v) ∈ req /\ forall v', (d, v') ∈ req -> (v' <= v)%Z).
Proof.
  intros Hb req. exists (max_opset_policy req). split; [| split].
  - by apply get_opsets_built.
  - apply max_opset_policy_dom.
  - apply max_opset_policy_spec.
Qed.

End Opsets.

(** ** Dictionaries *)

Lemma dict_set_keys_present {K V} `{EqDecision K} (k : K) (v : V) d :
  k ∈ d.*1 -> (dict_set k v d).*1 = d.*1.
Proof.
  induction d as [| [k' v'] d IH]; simpl.
  - by intros ?%elem_of_nil.
  - intros Hin. destruct (decide (k' = k)) as [-> | Hne]; [done |].
    simpl. f_equal. apply IH.
    apply elem_of_cons in Hin as [? | ?]; [congruence | done].
Qed.

Lemma dict_set_keys_absent {K V} `{EqDecision K} (k : K) (v : V) d :
  k ∉ d.*1 -> (dict_set k v d).*1 = d.*1 ++ [k].
Proof.
  induction d as [| [k' v'] d IH]; simpl; [done |].
  intros Hin. apply not_elem_of_cons in Hin as [Hne Hin].
  destruct (decide (k' = k)); [congruence |]. simpl. f_equal. by apply IH.
Qed.

Lemma dict_get_set_eq {K V} `{EqDecision K} (k : K) (v : V) d :
  dict_get k (dict_set k v d) = Some v.
Proof.
  induction d as [| [k' v'] d IH]; simpl.
  - by rewrite decide_True.
  - destruct (decide (k' = k)) as [-> | Hne]; simpl.
    + by rewrite decide_True.
    + by rewrite decide_False.
Qed.

Lemma dict_get_set_ne {K V} `{EqDecision K} (k k0 : K) (v : V) d :
  k ≠ k0 -> dict_get k0 (dict_set k v d) = dict_get k0 d.
Proof.
  intros Hne. induction d as [| [k' v'] d IH]; simpl.
  - by rewrite decide_False.
  - destruct (decide (k' = k)) as [-> | Hne']; simpl.
    + by rewrite !decide_False.
    + destruct (decide (k' = k0)); [done | apply IH].
Qed.

Lemma dict_get_Some_elem {K V} `{EqDecision K} (k : K) (v : V) d :
  dict_get k d = Some v -> (k, v) ∈ d.
Proof.
  induction d as [| [k' v'] d IH]; simpl; [done |].
  destruct (decide (k' = k)) as [-> | Hne].
  - intros [= ->]. apply elem_of_cons. by left.
  - intros Hg. apply elem_of_cons. right. by apply IH.
Qed.

Lemma dict_get_None {K V} `{EqDecision K} (k : K) (d : list (K * V)) :
  dict_get k d = None <-> k ∉ d.*1.
Proof.
  induction d as [| [k' v'] d IH]; simpl.
  - split; [intros _; apply not_elem_of_nil | done].
  - destruct (decide (k' = k)) as [-> | Hne].
    + split; [done |]. intros Hn. exfalso. apply Hn, elem_of_cons. by left.
    + rewrite IH. rewrite not_elem_of_cons. naive_solver.
Qed.

Lemma dict_get_elem_NoDup {K V} `{EqDecision K} (k : K) (v : V) d :
  NoDup d.*1 -> (k, v) ∈ d -> dict_get k d = Some v.
Proof.
  induction d as [| [k' v'] d IH]; simpl.
  - by intros _ ?%elem_of_nil.
  - intros [Hk' Hnd]%NoDup_cons [Heq | Hin]%elem_of_cons.
    + injection Heq as -> ->. by rewrite decide_True.
    + destruct (decide (k' = k)) as [-> | Hne]; [| by apply IH].
      exfalso. apply Hk'. apply list_elem_of_fmap. by exists (k, v).
Qed.

(** Assigning, for each entry of a dictionary in turn, a new value to its
    key: the keys and their order stay, and each key ends with its new
    value. *)
Lemma dict_reassign {K V} `{EqDecision K} (f : K -> V -> V) (l : list (K * V)) :
  forall acc : list (K * V),
    NoDup l.*1 -> (forall k, k ∈ l.*1 -> k ∈ acc.*1) ->
    let d := foldl (fun acc '(k, v) => dict_set k (f k v) acc) acc l in
    d.*1 = acc.*1 /\
    (forall k v, (k, v) ∈ l -> dict_get k d = Some (f k v)) /\
    (forall k, k ∉ l.*1 -> dict_get k d = dict_get k acc).
Proof.
  induction l as [| [k0 v0] l IH]; intros acc Hnd Hsub; simpl.
  - split; [done |]. split; [| done]. by intros k v ?%elem_of_nil.
  - simpl in Hnd. apply NoDup_cons in Hnd as [Hk0 Hnd].
    assert (k0 ∈ acc.*1) as Hin by (apply Hsub; simpl; apply elem_of_cons; by left).
    destruct (IH (dict_set k0 (f k0 v0) acc) Hnd) as (Hkeys & Hget & Hrest).
    { intros k Hk. rewrite dict_set_keys_present by done.
      apply Hsub. simpl. apply elem_of_cons. by right. }
    split; [| split].
    + by rewrite Hkeys, dict_set_keys_present.
    + intros k v [Heq | Hkv]%elem_of_cons; [| by apply Hget].
      injection Heq as -> ->. rewrite Hrest by done. apply dict_get_set_eq.
    + intros k [Hne Hk]%not_elem_of_cons.
      rewrite Hrest by done. by apply dict_get_set_ne.
Qed.

(** ** Version adaptation *)

Section Adaptation.
Context {E : Collaborators}.

Lemma adapt_loop_cached (g : Graph) br w1 (l : list (Node * list NodeProto)) :
  cached g br w1 ->
  forall acc,
    foldM (fun consistent_nodes '(node, protos) =>
             opsets <- get_opsets g ;;
             br1 <- _get_build_result g ;;
             br2 <- _get_build_result g ;;
             let best_effort :=
               adapt_best_effort node protos opsets
                 (scope_var (br_scope br1)) (scope_node (br_scope br2)) in
             ret (dict_set node
                    match best_effort with
                    | Some adapted => adapted
                    | None => protos
                    end
                    consistent_nodes))
          acc l w1
    = inr (foldl (fun acc '(node, protos) =>
                    dict_set node (adapted_or_original g br node protos) acc)
                 acc l, w1).
Proof.
  intros Hc. pose proof (get_build_result_cached g br w1 Hc) as Hb.
  induction l as [| [node protos] l IH]; intros acc; simpl; [done |].
  erewrite bind_inr; [apply IH |].
  rewrite (bind_inr _ _ _ _ _ (get_opsets_built g w1 br w1 Hb)).
  by rewrite (bind_inr _ _ _ _ _ Hb), (bind_inr _ _ _ _ _ Hb).
Qed.

(** C4. Version adaptation is best-effort and non-fatal.  Whenever the
    Graph has a build result, [get_adapted_nodes] returns, without raising:
    its result has exactly the nodes of the build result, in the same
    order; each node carries the adapted instructions when adaptation
    yields some, and its original instructions, unchanged, when adaptation
    fails. *)
Theorem adaptation_is_best_effort (g : Graph) (w w1 : World) (br : BuildResult) :
  _get_build_result g w = inr (br, w1) ->
  NoDup (br_nodes br).*1 ->
  exists adapted,
    get_adapted_nodes g w = inr (adapted, w1) /\
    adapted.*1 = (br_nodes br).*1 /\
    (forall node protos, (node, protos) ∈ br_nodes br ->
       dict_get node adapted = Some (adapted_or_original g br node protos)) /\
    (forall node protos, (node, protos) ∈ br_nodes br ->
       adapt_best_effort node protos
         (max_opset_policy (br_opset_req br ∪ default ∅ (_extra_opset_req g)))
         (scope_var (br_scope br)) (scope_node (br_scope br)) = None ->
       dict_get node adapted = Some protos).
Proof.
  intros Hb Hnd.
  pose proof (get_build_result_caches _ _ _ _ Hb) as Hc.
  destruct (dict_reassign (adapted_or_original g br) (br_nodes br)
              (br_nodes br) Hnd (fun k Hk => Hk)) as (Hkeys & Hget & _).
  eexists. split; [| split; [exact Hkeys | split; [exact Hget |]]].
  - unfold get_adapted_nodes. rewrite (bind_inr _ _ _ _ _ Hb).
    by apply adapt_loop_cached.
  - intros node protos Hin Hnone. rewrite (Hget _ _ Hin).
    unfold adapted_or_original. by rewrite Hnone.
Qed.

End Adaptation.

(** ** Copy-on-write transformations of a Graph *)

Lemma Graph_init_allocates (g' : Graph) (w : World) :
  exists r' w', Graph_init g' w = inr (r', w') /\ allocates_graph w r' g' w'.
Proof.
  eexists _, _. split; [reflexivity |]. unfold allocates_graph. simpl.
  split; [by apply lookup_ge_None |].
  split; [by apply list_lookup_middle |].
  split; [| done]. intros r0 g0 Hr0. by apply lookup_app_l_Some.
Qed.

(** C9. Graphs are immutable under the [with_*] transformations.  Each of
    [with_name], [with_doc], [with_arguments] and [with_opset] creates a new
    Graph object that differs from [g] in the corresponding field only
    ([with_opset] stores the union of its arguments with the extra
    requirements [g] had); the object [g] itself, like every other object,
    is left as it was. *)
Theorem with_transformations_copy (g : Graph) (r : GraphRef) (w : World) :
  w_graphs w !! r = Some g ->
  (forall name, exists r' g' w',
     with_name g name w = inr (r', w') /\ allocates_graph w r' g' w' /\
     r' <> r /\ w_graphs w' !! r = Some g /\
     _name g' = Some name /\
     _results g' = _results g /\ _doc_string g' = _doc_string g /\
     _arguments g' = _arguments g /\
     _extra_opset_req g' = _extra_opset_req g /\
     _constructor g' = _constructor g /\ _build_result g' = _build_result g) /\
  (forall doc_string, exists r' g' w',
     with_doc g doc_string w = inr (r', w') /\ allocates_graph w r' g' w' /\
     r' <> r /\ w_graphs w' !! r = Some g /\
     _doc_string g' = Some doc_string /\
     _results g' = _results g /\ _name g' = _name g /\
     _arguments g' = _arguments g /\
     _extra_opset_req g' = _extra_opset_req g /\
     _constructor g' = _constructor g /\ _build_result g' = _build_result g) /\
  (forall args, exists r' g' w',
     with_arguments g args w = inr (r', w') /\ allocates_graph w r' g' w' /\
     r' <> r /\ w_graphs w' !! r = Some g /\
     _arguments g' = Some args /\
     _results g' = _results g /\ _name g' = _name g /\
     _doc_string g' = _doc_string g /\
     _extra_opset_req g' = _extra_opset_req g /\
     _constructor g' = _constructor g /\ _build_result g' = _build_result g) /\
  (forall args, exists r' g' w',
     with_opset g args w = inr (r', w') /\ allocates_graph w r' g' w' /\
     r' <> r /\ w_graphs w' !! r = Some g /\
     _extra_opset_req g' =
       Some (list_to_set args ∪ default ∅ (_extra_opset_req g)) /\
     _results g' = _results g /\ _name g' = _name g /\
     _doc_string g' = _doc_string g /\ _arguments g' = _arguments g /\
     _constructor g' = _constructor g /\ _build_result g' = _build_result g).
Proof.
  intros Hr.
  assert (forall g' r' w', allocates_graph w r' g' w' ->
            r' <> r /\ w_graphs w' !! r = Some g) as Hframe.
  { intros g' r' w' (Hnew & _ & Hold & _). split; [congruence | by apply Hold]. }
  split; [| split; [| split]].
  - intros name. unfold with_name.
    destruct (Graph_init_allocates
                {| _results := _results g; _name := Some name;
                   _doc_string := _doc_string g; _arguments := _arguments g;
                   _extra_opset_req := _extra_opset_req g;
                   _constructor := _constructor g;
                   _build_result := _build_result g |} w)
      as (r' & w' & Hrun & Halloc).
    destruct (Hframe _ _ _ Halloc). eexists r', _, w'.
    split; [exact Hrun |]. split; [exact Halloc |]. by repeat split.
  - intros doc_string. unfold with_doc.
    destruct (Graph_init_allocates
                {| _results := _results g; _name := _name g;
                   _doc_string := Some doc_string; _arguments := _arguments g;
                   _extra_opset_req := _extra_opset_req g;
                   _constructor := _constructor g;
                   _build_result := _build_result g |} w)
      as (r' & w' & Hrun & Halloc).
    destruct (Hframe _ _ _ Halloc). eexists r', _, w'.
    split; [exact Hrun |]. split; [exact Halloc |]. by repeat split.
  - intros args. unfold with_arguments.
    destruct (Graph_init_allocates
                {| _results := _results g; _name := _name g;
                   _doc_string := _doc_string g; _arguments := Some args;
                   _extra_opset_req := _extra_opset_req g;
                   _constructor := _constructor g;
                   _build_result := _build_result g |} w)
      as (r' & w' & Hrun & Halloc).
    destruct (Hframe _ _ _ Halloc). eexists r', _, w'.
    split; [exact Hrun |]. split; [exact Halloc |]. by repeat split.
  - intros args. unfold with_opset.
    destruct (Graph_init_allocates
                {| _results := _results g; _name := _name g;
                   _doc_string := _doc_string g; _arguments := _arguments g;
                   _extra_opset_req :=
                     Some match _extra_opset_req g with
                          | Some e => list_to_set args ∪ e
                          | None => list_to_set args
                          end;
                   _constructor := _constructor g;
                   _build_result := _build_result g |} w)
      as (r' & w' & Hrun & Halloc).
    destruct (Hframe _ _ _ Halloc). eexists r', _, w'.
    split; [exact Hrun |]. split; [exact Halloc |].
    repeat split; try done. simpl.
    destruct (_extra_opset_req g); simpl; [done |]. f_equal. set_solver.
Qed.

(** ** Functions *)

Section Functions.
Context {E : Collaborators}.

Lemma Function_opset_req_built (o : NodeObj) (f : FunctionFields) w br w1 :
  _get_build_result (func_graph f) w = inr (br, w1) ->
  Function_opset_req o f w = inr (Node_opset_req o ∪ br_opset_req br, w1).
Proof.
  intros Hb. unfold Function_opset_req. by rewrite (bind_inr _ _ _ _ _ Hb).
Qed.

Lemma read_node_Some n o w : w_nodes w !! n = Some o -> read_node n w = inr (o, w).
Proof. unfold read_node. by intros ->. Qed.

(** C8. Functions compose recursively.  For a Function node whose internal
    constructor graph builds, [opset_req] is the node's own requirement
    together with every opset requirement of that build, and
    [update_metadata] appends to the function list of the enclosing build
    the Function itself, followed by every function of the internal build,
    while adding those opset requirements to the running union. *)
Theorem function_composes (n : Node) (o : NodeObj) (f : FunctionFields)
    (md : Metadata) (w w1 : World) (br : BuildResult) :
  w_nodes w !! n = Some o ->
  node_class o = Function f ->
  _get_build_result (func_graph f) w = inr (br, w1) ->
  exists req md',
    opset_req n w = inr (req, w1) /\
    br_opset_req br ⊆ req /\
    update_metadata n md w = inr (md', w1) /\
    md_functions md' = md_functions md ++ n :: br_functions br /\
    md_opset_req md' = md_opset_req md ∪ req /\
    md_initializers md' = md_initializers md.
Proof.
  intros Hn Hcls Hb.
  pose proof (get_build_result_cached _ _ _ (get_build_result_caches _ _ _ _ Hb))
    as Hb1.
  assert (opset_req n w = inr (Node_opset_req o ∪ br_opset_req br, w1)) as Hreq.
  { unfold opset_req. rewrite (bind_inr _ _ _ _ _ (read_node_Some _ _ _ Hn)).
    rewrite Hcls. by apply Function_opset_req_built. }
  eexists _, _. split; [exact Hreq |]. split; [set_solver |].
  split; [| split; [| split]].
  - unfold update_metadata.
    rewrite (bind_inr _ _ _ _ _ (read_node_Some _ _ _ Hn)). rewrite Hcls.
    unfold Function_update_metadata, Node_update_metadata.
    erewrite bind_inr; [| by rewrite (bind_inr _ _ _ _ _ Hreq)].
    by rewrite (bind_inr _ _ _ _ _ Hb1).
  - simpl. by rewrite <- app_assoc.
  - done.
  - done.
Qed.

End Functions.

(** ** Lowering of [_Introduce] *)

Lemma expect_Some {A} e (a : A) w : expect e (Some a) w = inr (a, w).
Proof. done. Qed.

Lemma introduce_loop (inputs outputs : list Var) (scope : Scope)
    (name doc_string : option string) (w : World) :
  length inputs = length outputs ->
  (forall x, x ∈ inputs ++ outputs -> is_Some (scope_var scope !! x)) ->
  forall m k protos, k + m <= length inputs ->
    exists ps,
      foldM (fun protos i =>
               x <- expect IndexError (inputs !! i) ;;
               xn <- expect KeyError (scope_var scope !! x) ;;
               y <- expect IndexError (outputs !! i) ;;
               yn <- expect KeyError (scope_var scope !! y) ;;
               ret (protos ++
                    [make_node "Identity" [xn] [yn]
                       ((fun nm => nm +:+ "_id" +:+ pretty i) <$> name)
                       doc_string []]))
            protos (seq k m) w = inr (protos ++ ps, w) /\
      length ps = m /\
      forall j x y xn yn,
        j < m ->
        inputs !! (k + j) = Some x -> outputs !! (k + j) = Some y ->
        scope_var scope !! x = Some xn -> scope_var scope !! y = Some yn ->
        ps !! j =
          Some (make_node "Identity" [xn] [yn]
                  ((fun nm => nm +:+ "_id" +:+ pretty (k + j)) <$> name)
                  doc_string []).
Proof.
  intros Hlen Hnamed. induction m as [| m IH]; intros k protos Hk; simpl.
  - exists []. rewrite app_nil_r. split; [done |]. split; [done |]. lia.
  - destruct (lookup_lt_is_Some_2 inputs k) as [x Hx]; [lia |].
    destruct (lookup_lt_is_Some_2 outputs k) as [y Hy]; [lia |].
    destruct (Hnamed x) as [xn Hxn].
    { apply elem_of_app. left. by eapply list_elem_of_lookup_2. }
    destruct (Hnamed y) as [yn Hyn].
    { apply elem_of_app. right. by eapply list_elem_of_lookup_2. }
    set (p := make_node "Identity" [xn] [yn]
                ((fun nm => nm +:+ "_id" +:+ pretty k) <$> name) doc_string []).
    destruct (IH (S k) (protos ++ [p])) as (ps & Hrun & Hps & Hnth); [lia |].
    exists (p :: ps). split; [| split].
    + erewrite bind_inr; [rewrite Hrun; by rewrite <- app_assoc |].
      rewrite Hx. erewrite bind_inr by apply expect_Some.
      rewrite Hxn. erewrite bind_inr by apply expect_Some.
      rewrite Hy. erewrite bind_inr by apply expect_Some.
      rewrite Hyn. by erewrite bind_inr by apply expect_Some.
    + simpl. by rewrite Hps.
    + intros [| j] x' y' xn' yn' Hj Hx' Hy' Hxn' Hyn'.
      * rewrite Nat.add_0_r in *. simplify_eq. done.
      * simpl. replace (k + S j) with (S k + j) in * by lia.
        eapply Hnth; eauto. lia.
Qed.

(** C7. Lowering of an Introduce node.  For an Introduce node with [n]
    inputs and as many outputs, all named by the scope, [to_onnx] returns
    exactly [n] instructions; the i-th is an Identity instruction whose one
    input is the name of the i-th input Var and whose one output is the
    name of the i-th output Var. *)
Theorem introduce_lowers_to_identities (self : Node) (o : NodeObj)
    (scope : Scope) (doc_string : option string) (w : World) :
  w_nodes w !! self = Some o ->
  node_class o = _Introduce ->
  length (node_inputs o) = length (node_outputs o) ->
  (forall x, x ∈ node_inputs o ++ node_outputs o ->
     is_Some (scope_var scope !! x)) ->
  exists protos,
    _Introduce_to_onnx self scope doc_string w = inr (protos, w) /\
    length protos = length (node_inputs o) /\
    forall i x y xn yn,
      node_inputs o !! i = Some x -> node_outputs o !! i = Some y ->
      scope_var scope !! x = Some xn -> scope_var scope !! y = Some yn ->
      protos !! i =
        Some (make_node "Identity" [xn] [yn]
                ((fun nm => nm +:+ "_id" +:+ pretty i) <$> scope_node scope !! self)
                doc_string []) /\
      exists p, protos !! i = Some p /\ np_op_type p = "Identity" /\
                np_input p = [xn] /\ np_output p = [yn].
Proof.
  intros Hself _ Hlen Hnamed.
  destruct (introduce_loop (node_inputs o) (node_outputs o) scope
              (scope_node scope !! self) doc_string w Hlen Hnamed
              (length (node_inputs o)) 0 [])
    as (ps & Hrun & Hps & Hnth); [lia |].
  exists ps. split; [| split; [done |]].
  - unfold _Introduce_to_onnx.
    rewrite (bind_inr _ _ _ _ _ (read_node_Some _ _ _ Hself)).
    rewrite decide_True by done. exact Hrun.
  - intros i x y xn yn Hx Hy Hxn Hyn.
    assert (i < length (node_inputs o)) as Hi by by eapply lookup_lt_Some.
    specialize (Hnth i x y xn yn Hi Hx Hy Hxn Hyn). simpl in Hnth.
    split; [exact Hnth |]. eexists. split; [exact Hnth |]. done.
Qed.

(** ** Construction of nodes *)

Lemma lookup_snoc {A} (l : list A) (x : A) : (l ++ [x]) !! length l = Some x.
Proof. by apply list_lookup_middle. Qed.

Lemma insert_snoc {A} (l : list A) (x y : A) :
  <[length l := y]> (l ++ [x]) = l ++ [y].
Proof. rewrite insert_app_r_alt by lia. by rewrite Nat.sub_diag. Qed.

(** Symbolic execution of a construction in a world whose stores are
    lists that end with the objects just created. *)
Ltac run :=
  repeat (progress (
    unfold Node_init, infer_output_types, propagate_values, post_init,
      Var_set_type, Var_set_value, Var__rename, read_node, read_var,
      write_var, get_world, put_world, bind, ret, raise, expect, lift,
      set_w_nodes, set_w_vars, outputs_arg;
    simpl;
    rewrite ?lookup_snoc, ?insert_snoc; simpl)).

Lemma Node_init_Argument (type : Type_) name default w :
  Node_init (Argument (Some type) (Some name) default) [] 1 w =
  inr (length (w_nodes w),
       set_w_nodes (w_nodes w ++ [Argument_node (Some type) name default w])
         (set_w_vars (w_vars w ++ [Argument_var (Some type) name w]) w)).
Proof. destruct w as [vs ns gs cs cn]. by run. Qed.


Lemma unsafe_cast_run (x : Var) (xo : VarObj) (typ : Type_) (w : World) :
  w_vars w !! x = Some xo ->
  unsafe_cast x typ w = inr (length (w_vars w), cast_world x xo typ w).
Proof.
  destruct w as [vs ns gs cs cn]. simpl. intros Hx.
  unfold unsafe_cast, intro, intros, cast_world.
  change (pretty 0) with "0".
  run. rewrite !(lookup_app_l_Some _ _ _ _ Hx). run.
  destruct (var_type xo) as [t |]; run;
    rewrite ?(lookup_app_l_Some _ _ _ _ Hx); by run.
Qed.

(** ** Unsafe casts *)

(** C5, as amended.  For every Var [x] and every Type [typ],
    [unsafe_cast x typ] returns a new Var whose Type is exactly [typ], whose
    propagated value is the one of [x], and whose producer is a new
    [_Introduce] node from [x] to it; [x] and every other object stay as
    they were.  [unsafe_reshape x shape] does the same, with the Type
    [Tensor d shape], when the Type of [x] is a tensor of element type [d];
    when the Type of [x] is unknown or not a tensor it raises a TypeError. *)
Theorem unsafe_cast_forwards (x : Var) (xo : VarObj) (w : World) :
  w_vars w !! x = Some xo ->
  let y := length (w_vars w) in
  let n := length (w_nodes w) in
  (forall typ, exists w',
     unsafe_cast x typ w = inr (y, w') /\
     w_vars w !! y = None /\ w_nodes w !! n = None /\
     w_vars w' !! y = Some {| var_op := Some n; var_type := Some typ;
                              var_value := var_value xo; var_name := None |} /\
     w_nodes w' !! n = Some {| node_class := _Introduce;
                               node_inputs := [x]; node_outputs := [y] |} /\
     w_vars w' !! x = Some xo /\
     w' = cast_world x xo typ w) /\
  (forall shape d s,
     var_type xo = Some (Tensor d s) ->
     unsafe_reshape x shape w = unsafe_cast x (Tensor d shape) w) /\
  (forall shape,
     (forall d s, var_type xo <> Some (Tensor d s)) ->
     unsafe_reshape x shape w = inl TypeError).
Proof.
  intros Hx y n. split; [| split].
  - intros typ. exists (cast_world x xo typ w).
    split; [by apply unsafe_cast_run |].
    split; [by apply lookup_ge_None |]. split; [by apply lookup_ge_None |].
    split; [apply lookup_snoc |]. split; [apply lookup_snoc |].
    split; [| done]. simpl. by apply lookup_app_l_Some.
  - intros shape d s Ht. unfold unsafe_reshape, read_var, bind, Var_unwrap_tensor.
    by rewrite Hx, Ht.
  - intros shape Ht. unfold unsafe_reshape, read_var, bind, Var_unwrap_tensor.
    rewrite Hx. destruct (var_type xo) as [[d s | t | t] |]; try done.
    by destruct (Ht d s).
Qed.

(** C5, as stated, fails for [unsafe_reshape]: on a Var whose Type is
    unknown it raises, and returns no Var. *)
Lemma unsafe_reshape_untyped_raises :
  untyped_world.(w_vars) !! 0 = Some {| var_op := Some 0; var_type := None;
                                        var_value := None;
                                        var_name := Some "x" |} /\
  unsafe_reshape 0 (Some [DimInt 3]) untyped_world = inl TypeError /\
  ~ (exists y w', unsafe_reshape 0 (Some [DimInt 3]) untyped_world = inr (y, w')).
Proof.
  split; [reflexivity |]. split; [reflexivity |].
  intros (y & w' & Hrun). discriminate Hrun.
Qed.

(** ** Arguments *)

Lemma arguments_dict_step (name : string) (info : ArgInfo)
    (result : list (string * Arrow)) (w : World) :
  typed_info info ->
  (n <- Node_init (Argument (arg_type info) (Some name) (arg_default info)) [] 1 ;;
   arg <- outputs_arg n ;;
   ret (dict_set name arg result)) w
  = inr (dict_set name (length (w_vars w)) result,
         set_w_nodes
           (w_nodes w ++ [Argument_node (arg_type info) name (arg_default info) w])
           (set_w_vars (w_vars w ++ [Argument_var (arg_type info) name w]) w)).
Proof.
  intros [t Ht]. rewrite Ht.
  rewrite (bind_inr _ _ _ _ _ (Node_init_Argument _ _ _ _)).
  destruct w as [vs ns gs cs cn]. by run.
Qed.





(** ** Opset requirements of the internal nodes *)

Lemma nodes_kept_refl w : nodes_kept w w.
Proof. by intros n o. Qed.

Lemma nodes_kept_trans w1 w2 w3 :
  nodes_kept w1 w2 -> nodes_kept w2 w3 -> nodes_kept w1 w3.
Proof. intros H12 H23 n o Hn. by apply H23, H12. Qed.

Section InternalOpsets.
Context {E : Collaborators}.
Hypothesis builder_frame : builder_keeps_nodes.

Lemma read_node_inv n o w w' :
  read_node n w = inr (o, w') -> w' = w /\ w_nodes w !! n = Some o.
Proof.
  unfold read_node. destruct (w_nodes w !! n); [| done]. by intros [= -> ->].
Qed.

Lemma get_build_result_keeps_nodes g w br w' :
  _get_build_result g w = inr (br, w') -> nodes_kept w w'.
Proof.
  unfold _get_build_result, bind, Cached__value, Cached_value, Cached_set_value.
  destruct (w_cached w !! _build_result g) as [v |] eqn:Hv.
  - rewrite Hv. intros [= _ ->]. apply nodes_kept_refl.
  - destruct (build_main g w) as [e | [b w1]] eqn:Hb; [done |]. simpl.
    rewrite lookup_insert_eq. intros [= _ <-]. intros n o Hn. simpl.
    by eapply builder_frame.
Qed.

Lemma opset_req_inv n req w w' :
  opset_req n w = inr (req, w') ->
  nodes_kept w w' /\
  exists o, w_nodes w !! n = Some o /\
            (node_class o = _Introduce -> req = {[ ("", 1%Z) ]}).
Proof.
  unfold opset_req. intros (o & w0 & [-> Ho]%read_node_inv & Hrun)%bind_inv.
  assert (nodes_kept w w') as Hframe.
  { destruct (node_class o);
      try (injection Hrun as _ <-; apply nodes_kept_refl).
    unfold Function_opset_req in Hrun.
    apply bind_inv in Hrun as (br & w1 & Hb & Hret).
    injection Hret as _ <-. by eapply get_build_result_keeps_nodes. }
  split; [done |]. exists o. split; [done |].
  intros Hcls. rewrite Hcls in Hrun. by injection Hrun as <- _.
Qed.

Lemma Node_update_metadata_inv n md md' w w' :
  Node_update_metadata n md w = inr (md', w') ->
  nodes_kept w w' /\
  md_initializers md' = md_initializers md /\
  md_functions md' = md_functions md /\
  exists o req, w_nodes w !! n = Some o /\
    md_opset_req md' = md_opset_req md ∪ req /\
    (node_class o = _Introduce -> req = {[ ("", 1%Z) ]}).
Proof.
  unfold Node_update_metadata.
  intros (req & w1 & (Hframe & o & Ho & Hintro)%opset_req_inv & Hret)%bind_inv.
  injection Hret as <- <-. eauto 10.
Qed.

Lemma outputs_arg_inv n arg w w' : outputs_arg n w = inr (arg, w') -> w' = w.
Proof.
  unfold outputs_arg. intros (o & w0 & [-> Ho]%read_node_inv & Hrun)%bind_inv.
  destruct (head (node_outputs o)); [| done]. by injection Hrun as _ <-.
Qed.

Lemma update_metadata_inv n md md' w w' :
  update_metadata n md w = inr (md', w') ->
  nodes_kept w w' /\
  md_opset_req md ⊆ md_opset_req md' /\
  forall o, w_nodes w !! n = Some o -> node_class o = _Introduce ->
            ("", 1%Z) ∈ md_opset_req md'.
Proof.
  unfold update_metadata.
  intros (o & w0 & [-> Ho]%read_node_inv & Hrun)%bind_inv.
  assert (forall md1 w1,
            Node_update_metadata n md w = inr (md1, w1) ->
            md_opset_req md ⊆ md_opset_req md1 /\
            (node_class o = _Introduce -> ("", 1%Z) ∈ md_opset_req md1))
    as Hbase.
  { intros md1 w1 (_ & _ & _ & o' & req & Ho' & -> & Hintro)%Node_update_metadata_inv.
    split; [set_solver |]. intros Hcls. rewrite Ho in Ho'. injection Ho' as <-.
    rewrite (Hintro Hcls). set_solver. }
  assert (nodes_kept w w' /\
          md_opset_req md ⊆ md_opset_req md' /\
          (node_class o = _Introduce -> ("", 1%Z) ∈ md_opset_req md')) as Hall.
  { destruct (node_class o) as [type name default | type default | | | f |] eqn:Hcls.
    - unfold Argument_update_metadata in Hrun.
      apply bind_inv in Hrun as (md1 & w1 & Hnode & Hrun).
      apply bind_inv in Hrun as (arg & w2 & ->%outputs_arg_inv & Hrun).
      destruct (Hbase _ _ Hnode) as [Hsub _].
      apply Node_update_metadata_inv in Hnode as (Hframe & _).
      destruct default; injection Hrun as <- <-; by repeat split.
    - unfold _Initializer_update_metadata in Hrun.
      apply bind_inv in Hrun as (md1 & w1 & Hnode & Hrun).
      apply bind_inv in Hrun as (arg & w2 & ->%outputs_arg_inv & Hrun).
      destruct (Hbase _ _ Hnode) as [Hsub _].
      apply Node_update_metadata_inv in Hnode as (Hframe & _).
      injection Hrun as <- <-; by repeat split.
    - destruct (Hbase _ _ Hrun) as [Hsub Hintro].
      apply Node_update_metadata_inv in Hrun as (Hframe & _). by repeat split.
    - destruct (Hbase _ _ Hrun) as [Hsub Hintro].
      apply Node_update_metadata_inv in Hrun as (Hframe & _). by repeat split.
    - unfold Function_update_metadata in Hrun.
      apply bind_inv in Hrun as (md1 & w1 & Hnode & Hrun).
      apply bind_inv in Hrun as (br & w2 & Hb & Hrun).
      destruct (Hbase _ _ Hnode) as [Hsub _].
      apply Node_update_metadata_inv in Hnode as (Hframe & _).
      apply get_build_result_keeps_nodes in Hb.
      injection Hrun as <- <-.
      repeat split; [by eapply nodes_kept_trans | done | done].
    - destruct (Hbase _ _ Hrun) as [Hsub Hintro].
      apply Node_update_metadata_inv in Hrun as (Hframe & _). by repeat split. }
  destruct Hall as (Hframe & Hsub & Hintro). repeat split; [done | done |].
  intros o' Ho' Hcls. rewrite Ho in Ho'. injection Ho' as <-. by apply Hintro.
Qed.

Lemma collect_metadata_loop (order : list Node) :
  forall md w md' w',
    foldM (fun md n => update_metadata n md) md order w = inr (md', w') ->
    nodes_kept w w' /\
    md_opset_req md ⊆ md_opset_req md' /\
    forall n o, n ∈ order -> w_nodes w !! n = Some o ->
                node_class o = _Introduce -> ("", 1%Z) ∈ md_opset_req md'.
Proof.
  induction order as [| n0 order IH]; intros md w md' w'; simpl.
  - intros [= <- <-]. split; [apply nodes_kept_refl |]. split; [done |].
    by intros ? ? ?%elem_of_nil.
  - intros (md1 & w1 & (Hframe1 & Hsub1 & Hintro1)%update_metadata_inv
             & (Hframe & Hsub & Hintro)%IH)%bind_inv.
    split; [by eapply nodes_kept_trans |]. split; [set_solver |].
    intros n o [-> | Hin]%elem_of_cons Ho Hcls.
    + apply Hsub. by eapply Hintro1.
    + eapply Hintro; [done | | done]. by apply Hframe1.
Qed.

End InternalOpsets.

(** ** Function definitions of a model *)

Lemma dict_set_elem {K V} `{EqDecision K} (k k' : K) (v v' : V) d :
  (k', v') ∈ dict_set k v d -> (k', v') = (k, v) \/ (k', v') ∈ d.
Proof.
  induction d as [| [k0 v0] d IH]; simpl.
  - intros ?%list_elem_of_singleton. by left.
  - destruct (decide (k0 = k)) as [-> | Hne].
    + intros [? | ?]%elem_of_cons; [by left | right; apply elem_of_cons; by right].
    + intros [? | Hin]%elem_of_cons; [right; apply elem_of_cons; by left |].
      destruct (IH Hin); [by left | right; apply elem_of_cons; by right].
Qed.

Lemma keyed_set (d : list ((string * string) * FunctionProto)) (p : FunctionProto) :
  keyed d -> keyed (dict_set (fp_key p) p d).
Proof.
  intros [Hnd Hkey]. split.
  - destruct (decide (fp_key p ∈ d.*1)) as [Hin | Hnin].
    + by rewrite dict_set_keys_present.
    + rewrite dict_set_keys_absent by done.
      apply NoDup_app. split; [done |]. split; [| apply NoDup_singleton].
      intros k Hk ->%list_elem_of_singleton. done.
  - intros k q [Heq | Hin]%dict_set_elem; [| by apply Hkey].
    by injection Heq as -> ->.
Qed.

Lemma filter_none {A} (P : A -> Prop) `{forall x, Decision (P x)} (l : list A) :
  (forall x, x ∈ l -> ~ P x) -> filter P l = [].
Proof.
  induction l as [| x l IH]; intros Hl; [done |].
  rewrite filter_cons_False by (apply Hl, elem_of_cons; by left).
  apply IH. intros y Hy. apply Hl, elem_of_cons. by right.
Qed.

Lemma keyed_filter (d : list ((string * string) * FunctionProto)) k p :
  keyed d -> dict_get k d = Some p ->
  filter (fun q => fp_key q = k) d.*2 = [p].
Proof.
  induction d as [| [k0 q0] d IH]; simpl; [done |].
  intros [Hnd Hkey] Hget. simpl in Hnd. apply NoDup_cons in Hnd as [Hk0 Hnd].
  assert (k0 = fp_key q0) as Hq0 by (apply Hkey, elem_of_cons; by left).
  assert (keyed d) as Hd.
  { split; [done |]. intros k' q' Hin. apply Hkey, elem_of_cons. by right. }
  destruct (decide (k0 = k)) as [-> | Hne].
  - injection Hget as ->. rewrite filter_cons_True by done. f_equal.
    apply filter_none. intros q Hq Hkq.
    apply list_elem_of_fmap in Hq as [[k' q'] [-> Hin]]. simpl in Hkq.
    apply Hk0. apply list_elem_of_fmap. exists (k', q'). split; [| done].
    simpl. destruct Hd as [_ Hd]. rewrite (Hd _ _ Hin). done.
  - rewrite filter_cons_False by congruence. by apply IH.
Qed.

Section FunctionDefinitions.
Context {E : Collaborators}.

Lemma to_onnx_function_built (fn : Node) (o : NodeObj) (f : FunctionFields)
    (brf : BuildResult) (w : World) :
  w_nodes w !! fn = Some o -> node_class o = Function f ->
  cached (func_graph f) brf w ->
  exists p, to_onnx_function fn w = inr (Some p, w) /\
            fp_domain p = domain (fn_op_type f) /\
            fp_name p = identifier (fn_op_type f).
Proof.
  intros Ho Hcls Hc. pose proof (get_build_result_cached _ _ _ Hc) as Hb.
  eexists. split.
  - unfold to_onnx_function.
    rewrite (bind_inr _ _ _ _ _ (read_node_Some _ _ _ Ho)). rewrite Hcls.
    unfold Function_to_onnx_function.
    erewrite bind_inr; [reflexivity |].
    rewrite (bind_inr _ _ _ _ _ Hb).
    by rewrite (bind_inr _ _ _ _ _ (get_opsets_built _ _ _ _ Hb)).
  - done.
Qed.

Lemma collect_loop (fns : list Node) (w : World) :
  (forall fn, fn ∈ fns -> exists p, to_onnx_function fn w = inr (Some p, w)) ->
  forall acc, keyed acc ->
    (exists d,
       foldM (fun function_protos fn =>
                proto <- to_onnx_function fn ;;
                lift (register_function_proto function_protos proto))
             acc fns w = inr (d, w) /\
       keyed d /\
       (forall k q, dict_get k acc = Some q -> dict_get k d = Some q) /\
       (forall fn p, fn ∈ fns -> to_onnx_function fn w = inr (Some p, w) ->
                     dict_get (fp_key p) d = Some p)) \/
    foldM (fun function_protos fn =>
             proto <- to_onnx_function fn ;;
             lift (register_function_proto function_protos proto))
          acc fns w = inl RuntimeError.
Proof.
  induction fns as [| fn fns IH]; intros Hprotos acc Hacc.
  - left. exists acc. repeat split; try done; try apply Hacc.
    by intros ? ? ?%elem_of_nil.
  - destruct (Hprotos fn) as [p Hp]; [apply elem_of_cons; by left |].
    assert (forall fn', fn' ∈ fns ->
              exists p', to_onnx_function fn' w = inr (Some p', w)) as Hrest
      by (intros fn' Hin; apply Hprotos, elem_of_cons; by right).
    assert (forall acc1,
              register_function_proto acc (Some p) = inr acc1 ->
              keyed acc1 /\
              (forall k q, dict_get k acc = Some q -> dict_get k acc1 = Some q) /\
              dict_get (fp_key p) acc1 = Some p) as Hreg.
    { unfold register_function_proto. fold (fp_key p). intros acc1 Hacc1.
      destruct (dict_get (fp_key p) acc) as [known |] eqn:Hknown.
      - destruct (decide (p = known)) as [<- | Hne]; [| done].
        injection Hacc1 as <-. split; [by apply keyed_set |].
        split; [| apply dict_get_set_eq].
        intros k q Hq. destruct (decide (fp_key p = k)) as [<- | Hk].
        + rewrite dict_get_set_eq. congruence.
        + by rewrite dict_get_set_ne.
      - injection Hacc1 as <-. split; [by apply keyed_set |].
        split; [| apply dict_get_set_eq].
        intros k q Hq. rewrite dict_get_set_ne; [done |]. congruence. }
    rewrite !foldM_cons, !(bind_inr _ _ _ _ _ Hp).
    destruct (register_function_proto acc (Some p)) as [e | acc1] eqn:Hacc1.
    + right. simpl. unfold register_function_proto in Hacc1.
      destruct (dict_get _ acc); [| done].
      destruct (decide _); [done |]. by injection Hacc1 as <-.
    + destruct (Hreg acc1 eq_refl) as (Hkeyed1 & Hkeep1 & Hp1). simpl.
      destruct (IH Hrest acc1 Hkeyed1) as [(d & Hrun & Hd & Hkeep & Hall) | Herr];
        [left | by right].
      exists d. split; [done |]. split; [done |]. split; [by auto |].
      intros fn' p' [-> | Hin]%elem_of_cons Hp'; [| by eapply Hall].
      rewrite Hp in Hp'. injection Hp' as <-. by apply Hkeep.
Qed.

(** C2. Function definitions that share an operator identifier.  In a world
    where the Graph and the internal graphs of its functions are built,
    every function serializes to a definition under its operator identifier
    (domain, name).  If two functions of the build result serialize to
    different definitions under the same identifier, [to_onnx_model] raises
    a RuntimeError; and in every model that [to_onnx_model] returns, the
    definitions with the identifier of a function are exactly one, the
    definition of that function. *)
Theorem function_definitions_merge (self : Graph) (br : BuildResult) (w : World)
    (producer_name model_doc_string : string) (infer_shapes_flag : bool)
    (check_model_level : Z) (concrete : bool) :
  functions_built self br w ->
  (forall fn o f, fn ∈ br_functions br ->
     w_nodes w !! fn = Some o -> node_class o = Function f ->
     exists p, to_onnx_function fn w = inr (Some p, w) /\
               fp_key p = (domain (fn_op_type f), identifier (fn_op_type f))) /\
  (forall f1 f2 p1 p2,
     f1 ∈ br_functions br -> f2 ∈ br_functions br ->
     to_onnx_function f1 w = inr (Some p1, w) ->
     to_onnx_function f2 w = inr (Some p2, w) ->
     fp_key p1 = fp_key p2 -> p1 <> p2 ->
     to_onnx_model self producer_name model_doc_string infer_shapes_flag
       check_model_level concrete w = inl RuntimeError) /\
  (forall m w',
     to_onnx_model self producer_name model_doc_string infer_shapes_flag
       check_model_level concrete w = inr (m, w') ->
     (infer_shapes_flag = true ->
      forall m0, mp_functions (infer_shapes m0) = mp_functions m0) ->
     forall fn p,
       fn ∈ br_functions br -> to_onnx_function fn w = inr (Some p, w) ->
       filter (fun q => fp_key q = fp_key p) (mp_functions m) = [p]).
Proof.
  intros [Hself Hfns].
  pose proof (get_build_result_cached _ _ _ Hself) as Hb.
  assert (forall fn, fn ∈ br_functions br ->
            exists p, to_onnx_function fn w = inr (Some p, w)) as Hprotos.
  { intros fn Hin. destruct (Hfns fn Hin) as (o & f & brf & Ho & Hcls & Hc).
    destruct (to_onnx_function_built _ _ _ _ _ Ho Hcls Hc) as (p & Hp & _).
    eauto. }
  assert (keyed []) as Hnil.
  { split; [apply NoDup_nil_2 |]. by intros ? ? ?%elem_of_nil. }
  pose proof (collect_loop (br_functions br) w Hprotos [] Hnil) as Hloop.
  split; [| split].
  - intros fn o f Hin Ho Hcls.
    destruct (Hfns fn Hin) as (o' & f' & brf & Ho' & Hcls' & Hc).
    rewrite Ho in Ho'. injection Ho' as <-.
    rewrite Hcls in Hcls'. injection Hcls' as <-.
    destruct (to_onnx_function_built _ _ _ _ _ Ho Hcls Hc) as (p & Hp & Hd & Hn).
    exists p. split; [done |]. unfold fp_key. by rewrite Hd, Hn.
  - intros f1 f2 p1 p2 Hin1 Hin2 Hp1 Hp2 Hkey Hne.
    unfold to_onnx_model. rewrite (bind_inr _ _ _ _ _ Hb).
    unfold collect_function_protos.
    destruct Hloop as [(d & _ & _ & _ & Hall) | Herr].
    + pose proof (Hall _ _ Hin1 Hp1) as H1. pose proof (Hall _ _ Hin2 Hp2) as H2.
      rewrite Hkey in H1. congruence.
    + by rewrite (bind_inl _ _ _ _ Herr).
  - intros m w' Hrun Hinfer fn p Hin Hp.
    unfold to_onnx_model in Hrun. rewrite (bind_inr _ _ _ _ _ Hb) in Hrun.
    unfold collect_function_protos in Hrun.
    destruct Hloop as [(d & Hd & Hkeyed & _ & Hall) | Herr];
      [| by rewrite (bind_inl _ _ _ _ Herr) in Hrun].
    rewrite (bind_inr _ _ _ _ _ Hd) in Hrun.
    apply bind_inv in Hrun as (opsets & w1 & _ & Hrun).
    destruct (decide (opsets = ∅)); [done |].
    apply bind_inv in Hrun as (gp & w2 & _ & Hrun).
    apply bind_inv in Hrun as (opsets' & w3 & _ & Hrun).
    apply bind_inv in Hrun as (u & w4 & _ & Hrun).
    injection Hrun as <- _.
    assert (mp_functions
              (if infer_shapes_flag
               then infer_shapes (make_model gp producer_name model_doc_string
                                    (dict_values d) (map_to_list opsets'))
               else make_model gp producer_name model_doc_string
                      (dict_values d) (map_to_list opsets'))
            = dict_values d) as ->.
    { destruct infer_shapes_flag; [| done]. by rewrite Hinfer. }
    apply keyed_filter; [done |]. by eapply Hall.
Qed.

End FunctionDefinitions.

(** * Concrete runs *)

Lemma example_builds :
  @_get_build_result example_collaborators example_graph intro_world
  = inr (example_br, built_world).
Proof. vm_compute. reflexivity. Qed.

Lemma example_nodes_distinct : NoDup (br_nodes example_br).*1.
Proof. apply (bool_decide_unpack _). vm_compute. exact I. Qed.

Lemma example_builder_keeps_nodes : @builder_keeps_nodes example_collaborators.
Proof. intros g w br w' Hrun. injection Hrun as _ <-. apply nodes_kept_refl. Qed.

(** C1 on the example graph: the second query answers from the cache, also
    when the Builder is replaced by one that always fails. *)
Lemma build_is_memoized_witness :
  @_get_build_result example_collaborators example_graph intro_world
    = inr (example_br, built_world) /\
  @_get_build_result (with_builder no_builder example_collaborators)
     example_graph built_world = inr (example_br, built_world) /\
  @to_onnx example_collaborators example_graph true intro_world
    = inr (example_graph_proto, built_world) /\
  @to_onnx (with_builder no_builder example_collaborators)
     example_graph true built_world = inr (example_graph_proto, built_world).
Proof.
  assert (@to_onnx example_collaborators example_graph true intro_world
          = inr (example_graph_proto, built_world)) as Hto
    by (vm_compute; reflexivity).
  destruct (build_is_memoized (E := example_collaborators) no_builder
              example_graph intro_world) as [Hquery Honnx].
  split; [exact example_builds |].
  split; [exact (proj2 (Hquery _ _ example_builds)) |].
  split; [exact Hto |]. exact (proj2 (Honnx _ _ _ Hto)).
Defined.

(** C3 on the example graph with extra requirements: the default domain
    gets the greater of the versions 1 and 17. *)
Lemma get_opsets_is_maximum_witness :
  @_get_build_result example_collaborators example_graph_with_opset intro_world
    = inr (example_br, built_world) /\
  exists opsets : gmap string Z,
    @get_opsets example_collaborators example_graph_with_opset intro_world
      = inr (opsets, built_world) /\
    opsets !! "" = Some 17%Z /\
    opsets !! "ai.onnx.ml" = Some 3%Z /\
    opsets !! "steelix.function" = None.
Proof.
  assert (@_get_build_result example_collaborators example_graph_with_opset
            intro_world = inr (example_br, built_world)) as Hb
    by (vm_compute; reflexivity).
  split; [exact Hb |].
  destruct (get_opsets_is_maximum (E := example_collaborators)
              example_graph_with_opset intro_world built_world example_br Hb)
    as (opsets & Hrun & Hdom & Hmax).
  exists opsets. split; [exact Hrun |].
  change (br_opset_req example_br ∪
          default ∅ (_extra_opset_req example_graph_with_opset))
    with (({[ ("", 1%Z) ]} : gset (string * Z)) ∪
          {[ ("", 17%Z); ("ai.onnx.ml", 3%Z) ]}) in Hdom, Hmax.
  split; [| split].
  - apply Hmax. rewrite !elem_of_union, !elem_of_singleton.
    split; [by right; left |].
    intros v'. rewrite !elem_of_union, !elem_of_singleton.
    intros [Heq | [Heq | Heq]]; try (injection Heq as ->; lia). discriminate Heq.
  - apply Hmax. rewrite !elem_of_union, !elem_of_singleton.
    split; [by right; right |].
    intros v'. rewrite !elem_of_union, !elem_of_singleton.
    intros [Heq | [Heq | Heq]]; try discriminate Heq. injection Heq as ->. lia.
  - apply eq_None_not_Some. intros [v Hv]%Hdom.
    rewrite !elem_of_union, !elem_of_singleton in Hv.
    destruct Hv as [Heq | [Heq | Heq]]; discriminate Heq.
Defined.

(** C4 on the example graph: the adapter gives up on the Introduce node,
    whose Identity instruction is kept. *)
Lemma adaptation_is_best_effort_witness :
  @_get_build_result example_collaborators example_graph intro_world
    = inr (example_br, built_world) /\
  NoDup (br_nodes example_br).*1 /\
  exists adapted,
    @get_adapted_nodes example_collaborators example_graph intro_world
      = inr (adapted, built_world) /\
    adapted.*1 = [0; 1] /\
    dict_get 1 adapted = Some [example_identity].
Proof.
  split; [exact example_builds |]. split; [exact example_nodes_distinct |].
  destruct (adaptation_is_best_effort (E := example_collaborators)
              example_graph intro_world built_world example_br
              example_builds example_nodes_distinct)
    as (adapted & Hrun & Hkeys & _ & Hkept).
  exists adapted. split; [exact Hrun |]. split; [exact Hkeys |].
  apply Hkept; [| reflexivity].
  apply elem_of_cons. right. apply elem_of_cons. by left.
Defined.

(** C7 on the Introduce node of the example graph. *)
Lemma introduce_lowers_to_identities_witness :
  w_nodes intro_world !! 1 = Some {| node_class := _Introduce;
                                     node_inputs := [0];
                                     node_outputs := [1] |} /\
  exists protos,
    _Introduce_to_onnx 1 example_scope None intro_world
      = inr (protos, intro_world) /\
    length protos = 1 /\
    protos !! 0 = Some example_identity.
Proof.
  split; [reflexivity |].
  destruct (introduce_lowers_to_identities 1
              {| node_class := _Introduce; node_inputs := [0];
                 node_outputs := [1] |}
              example_scope None intro_world eq_refl eq_refl eq_refl)
    as (protos & Hrun & Hlen & Hnth).
  { intros x Hx. simpl in Hx.
    apply elem_of_cons in Hx as [-> | Hx]; [by eexists |].
    apply list_elem_of_singleton in Hx as ->. by eexists. }
  exists protos. split; [exact Hrun |]. split; [exact Hlen |].
  exact (proj1 (Hnth 0 0 1 "x" "y" eq_refl eq_refl eq_refl eq_refl)).
Defined.

(** C8 on the first call of [double]. *)
Lemma function_composes_witness :
  @_get_build_result example_collaborators (double_graph 1) calling_world
    = inr (double_br "Add", calling_world) /\
  exists req md',
    @opset_req example_collaborators 1 calling_world = inr (req, calling_world) /\
    ("", 17%Z) ∈ req /\
    @update_metadata example_collaborators 1
       {| md_opset_req := ∅; md_initializers := []; md_functions := [7] |}
       calling_world = inr (md', calling_world) /\
    md_functions md' = [7; 1].
Proof.
  assert (@_get_build_result example_collaborators (double_graph 1) calling_world
          = inr (double_br "Add", calling_world)) as Hb
    by (vm_compute; reflexivity).
  split; [exact Hb |].
  destruct (function_composes (E := example_collaborators) 1
              {| node_class := Function (double_fields 1);
                 node_inputs := [0]; node_outputs := [1] |}
              (double_fields 1)
              {| md_opset_req := ∅; md_initializers := []; md_functions := [7] |}
              calling_world calling_world (double_br "Add")
              eq_refl eq_refl Hb)
    as (req & md' & Hreq & Hsub & Hupd & Hfns & _).
  exists req, md'. split; [exact Hreq |]. split; [| split; [exact Hupd | exact Hfns]].
  apply Hsub. simpl. by apply elem_of_singleton.
Defined.

(** C9 on the example graph: renaming it creates a second Graph object. *)
Lemma with_transformations_copy_witness :
  w_graphs intro_world !! 0 = Some example_graph /\
  exists r' g' w',
    with_name example_graph "renamed" intro_world = inr (r', w') /\
    r' <> 0 /\
    w_graphs w' !! 0 = Some example_graph /\
    w_graphs w' !! r' = Some g' /\
    _name g' = Some "renamed" /\ _results g' = [("y", 1)].
Proof.
  split; [reflexivity |].
  destruct (with_transformations_copy example_graph 0 intro_world eq_refl)
    as (Hname & _).
  destruct (Hname "renamed")
    as (r' & g' & w' & Hrun & (_ & Hnew & _) & Hne & Hold & Hn & Hres & _).
  exists r', g', w'. by repeat split.
Defined.

(** C5 on a typed argument: casting it to a vector of integers. *)
Lemma unsafe_cast_forwards_witness :
  w_vars typed_world !! 0
    = Some {| var_op := Some 0; var_type := Some float_vector;
              var_value := None; var_name := Some "x" |} /\
  exists w',
    unsafe_cast 0 (Tensor int64 None) typed_world = inr (1, w') /\
    w_vars w' !! 1 = Some {| var_op := Some 1;
                             var_type := Some (Tensor int64 None);
                             var_value := None; var_name := None |} /\
    w_nodes w' !! 1 = Some {| node_class := _Introduce;
                              node_inputs := [0]; node_outputs := [1] |} /\
    unsafe_reshape 0 (Some [DimInt 3]) typed_world
      = unsafe_cast 0 (Tensor float32 (Some [DimInt 3])) typed_world.
Proof.
  split; [reflexivity |].
  destruct (unsafe_cast_forwards 0 _ typed_world eq_refl)
    as (Hcast & Hreshape & _).
  destruct (Hcast (Tensor int64 None))
    as (w' & Hrun & _ & _ & Hy & Hn & _).
  exists w'. split; [exact Hrun |]. split; [exact Hy |]. split; [exact Hn |].
  exact (Hreshape (Some [DimInt 3]) float32 (Some [DimName "N"]) eq_refl).
Defined.


Lemma twice_functions_built (b2 : BuildResult) :
  functions_built outer_graph outer_br (twice_world 1 2 (double_br "Add") b2).
Proof.
  split; [reflexivity |]. intros fn Hin. simpl in Hin.
  apply elem_of_cons in Hin as [-> | Hin].
  - exists {| node_class := Function (double_fields 1);
              node_inputs := [0]; node_outputs := [1] |},
           (double_fields 1), (double_br "Add").
    by repeat split.
  - apply list_elem_of_singleton in Hin as ->.
    exists {| node_class := Function (double_fields 2);
              node_inputs := [1]; node_outputs := [2] |},
           (double_fields 2), b2.
    by repeat split.
Qed.

(** C2 on the graph that calls [double] twice: one definition when the two
    instances agree on the body, an error when they do not. *)
Lemma function_definitions_merge_witness :
  functions_built outer_graph outer_br agreeing_world /\
  functions_built outer_graph outer_br colliding_world /\
  @to_onnx_model example_collaborators outer_graph "steelix" "" false 1 true
     colliding_world = inl RuntimeError /\
  exists m w',
    @to_onnx_model example_collaborators outer_graph "steelix" "" false 1 true
       agreeing_world = inr (m, w') /\
    mp_functions m = [double_proto "Add"] /\
    filter (fun q => fp_key q = ("steelix.function", "double")) (mp_functions m)
      = [double_proto "Add"].
Proof.
  split; [exact (twice_functions_built (double_br "Add")) |].
  split; [exact (twice_functions_built (double_br "Mul")) |].
  split.
  - destruct (function_definitions_merge (E := example_collaborators)
                outer_graph outer_br colliding_world "steelix" "" false 1 true
                (twice_functions_built (double_br "Mul")))
      as (_ & Hconflict & _).
    apply (Hconflict 1 2 (double_proto "Add") (double_proto "Mul")).
    + apply elem_of_cons. by left.
    + apply elem_of_cons. right. apply elem_of_cons. by left.
    + vm_compute. reflexivity.
    + vm_compute. reflexivity.
    + reflexivity.
    + discriminate.
  - destruct (function_definitions_merge (E := example_collaborators)
                outer_graph outer_br agreeing_world "steelix" "" false 1 true
                (twice_functions_built (double_br "Add")))
      as (_ & _ & Hmerge).
    destruct (@to_onnx_model example_collaborators outer_graph "steelix" ""
                false 1 true agreeing_world) as [e | [m w']] eqn:Hrun;
      [vm_compute in Hrun; discriminate Hrun |].
    exists m, w'. split; [reflexivity |]. split.
    + vm_compute in Hrun. injection Hrun as <- _. reflexivity.
    + apply (Hmerge m w' eq_refl (fun Hflag => ltac:(discriminate Hflag))
               1 (double_proto "Add")).
      * apply elem_of_cons. by left.
      * vm_compute. reflexivity.
Defined.

(** * Further properties *)

(** ** Dictionaries, continued *)

Lemma dict_set_absent {K V} `{EqDecision K} (k : K) (v : V) d :
  k ∉ d.*1 -> dict_set k v d = d ++ [(k, v)].
Proof.
  induction d as [| [k' v'] d IH]; simpl; [done |].
  intros [Hne Hin]%not_elem_of_cons.
  destruct (decide (k' = k)); [congruence |]. by rewrite IH.
Qed.

Lemma dict_set_middle {K V} `{EqDecision K} (k : K) (v v0 : V) d1 d2 :
  k ∉ d1.*1 -> dict_set k v (d1 ++ (k, v0) :: d2) = d1 ++ (k, v) :: d2.
Proof.
  induction d1 as [| [k' v'] d1 IH]; simpl.
  - intros _. by rewrite decide_True.
  - intros [Hne Hin]%not_elem_of_cons.
    destruct (decide (k' = k)); [congruence |]. by rewrite IH.
Qed.

(** Storing entries with new, distinct keys appends them in order. *)
Lemma foldl_dict_set_fresh {K V} `{EqDecision K} (l : list (K * V)) :
  forall acc : list (K * V),
    NoDup (acc.*1 ++ l.*1) ->
    foldl (fun d '(k, v) => dict_set k v d) acc l = acc ++ l.
Proof.
  induction l as [| [k v] l IH]; intros acc Hnd; simpl.
  - by rewrite app_nil_r.
  - simpl in Hnd. rewrite dict_set_absent.
    + rewrite IH; [by rewrite <- app_assoc |].
      rewrite fmap_app, <- app_assoc. exact Hnd.
    + apply NoDup_app in Hnd as (_ & Hdisj & _).
      intros Hin. apply (Hdisj _ Hin), elem_of_cons. by left.
Qed.

(** Assigning a new value to every key of a dictionary, in order, maps the
    dictionary. *)
Lemma foldl_dict_set_map {K V} `{EqDecision K} (f : K -> V -> V) (l2 : list (K * V)) :
  forall l1 : list (K * V),
    NoDup (l1 ++ l2).*1 ->
    foldl (fun acc '(k, v) => dict_set k (f k v) acc)
          (((fun kv => (kv.1, f kv.1 kv.2)) <$> l1) ++ l2) l2
    = (fun kv => (kv.1, f kv.1 kv.2)) <$> (l1 ++ l2).
Proof.
  induction l2 as [| [k v] l2 IH]; intros l1 Hnd; simpl.
  - by rewrite !app_nil_r.
  - rewrite dict_set_middle.
    + replace (((fun kv => (kv.1, f kv.1 kv.2)) <$> l1) ++ (k, f k v) :: l2)
        with (((fun kv => (kv.1, f kv.1 kv.2)) <$> (l1 ++ [(k, v)])) ++ l2)
        by (by rewrite fmap_app, <- app_assoc).
      replace (l1 ++ (k, v) :: l2) with ((l1 ++ [(k, v)]) ++ l2)
        by (by rewrite <- app_assoc).
      apply IH. by rewrite <- app_assoc.
    + rewrite fmap_app in Hnd. apply NoDup_app in Hnd as (_ & Hdisj & _).
      rewrite <- list_fmap_compose. simpl. intros Hin.
      apply (Hdisj _ Hin). simpl. apply elem_of_cons. by left.
Qed.

(** ** What [to_onnx] and [to_onnx_model] refuse *)

Section Refusals.
Context {E : Collaborators}.

(** X1. A Graph whose build has no results cannot be serialized: [to_onnx]
    raises a ValueError. *)
Theorem to_onnx_without_results (g : Graph) (concrete : bool)
    (w w1 : World) (br : BuildResult) :
  _get_build_result g w = inr (br, w1) ->
  br_results br = [] ->
  to_onnx g concrete w = inl ValueError.
Proof.
  intros Hb Hres. unfold to_onnx.
  assert (get_results g w = inr ([], w1)) as Hget.
  { unfold get_results. rewrite (bind_inr _ _ _ _ _ Hb), Hres. done. }
  by rewrite (bind_inr _ _ _ _ _ Hget).
Qed.

(** X2. A Graph whose build collected no opset requirement, and that was
    given none, cannot be made a model: [to_onnx_model] raises a
    RuntimeError, before it serializes the graph (so also when the graph
    has no results). *)
Theorem to_onnx_model_without_opsets (g : Graph)
    (producer_name model_doc_string : string) (infer_shapes_flag : bool)
    (check_model_level : Z) (concrete : bool)
    (w w1 : World) (br : BuildResult) :
  _get_build_result g w = inr (br, w1) ->
  br_functions br = [] ->
  br_opset_req br = ∅ ->
  default ∅ (_extra_opset_req g) = ∅ ->
  to_onnx_model g producer_name model_doc_string infer_shapes_flag
    check_model_level concrete w = inl RuntimeError.
Proof.
  intros Hb Hfns Hreq Hextra.
  pose proof (get_build_result_cached _ _ _ (get_build_result_caches _ _ _ _ Hb))
    as Hb1.
  unfold to_onnx_model. rewrite (bind_inr _ _ _ _ _ Hb), Hfns.
  rewrite (bind_inr (collect_function_protos []) _ w1 [] w1 eq_refl).
  rewrite (bind_inr _ _ _ _ _ (get_opsets_built _ _ _ _ Hb1)).
  rewrite Hreq, Hextra, union_empty_r_L.
  unfold max_opset_policy. rewrite set_fold_empty. by rewrite decide_True.
Qed.

End Refusals.

(** ** Names of results, arguments and initializers *)

Section Names.
Context {E : Collaborators}.

Lemma named_loop (g : Graph) (br : BuildResult) (w : World)
    (arrows : list Arrow) (names : list string) :
  cached g br w ->
  Forall2 (fun arrow name => scope_var (br_scope br) !! arrow = Some name)
          arrows names ->
  forall acc,
    foldM (fun d arrow =>
             br' <- _get_build_result g ;;
             name <- expect KeyError (scope_var (br_scope br') !! arrow) ;;
             ret (dict_set name arrow d))
          acc arrows w
    = inr (foldl (fun d '(name, arrow) => dict_set name arrow d)
                 acc (zip names arrows), w).
Proof.
  intros Hc. pose proof (get_build_result_cached g br w Hc) as Hb.
  induction 1 as [| arrow name arrows names Hname _ IH]; intros acc; [done |].
  rewrite foldM_cons, (bind_inr _ _ _ _ _ Hb), Hname. apply IH.
Qed.

Lemma unnamed_loop (g : Graph) (br : BuildResult) (w : World)
    (arrows : list Arrow) :
  cached g br w ->
  Exists (fun arrow => scope_var (br_scope br) !! arrow = None) arrows ->
  forall acc,
    foldM (fun d arrow =>
             br' <- _get_build_result g ;;
             name <- expect KeyError (scope_var (br_scope br') !! arrow) ;;
             ret (dict_set name arrow d))
          acc arrows w
    = inl KeyError.
Proof.
  intros Hc. pose proof (get_build_result_cached g br w Hc) as Hb.
  induction arrows as [| arrow arrows IH]; intros Hex acc.
  - by apply Exists_nil in Hex.
  - rewrite foldM_cons, (bind_inr _ _ _ _ _ Hb).
    destruct (scope_var (br_scope br) !! arrow) as [name |] eqn:Hname; [| done].
    apply Exists_cons in Hex as [Hex | Hex]; [congruence |]. by apply IH.
Qed.

Lemma named_initializers_loop (g : Graph) (br : BuildResult) (w : World)
    (inits : list (Arrow * ndarray)) (names : list string) :
  cached g br w ->
  Forall2 (fun init name => scope_var (br_scope br) !! init.1 = Some name)
          inits names ->
  forall acc,
    foldM (fun d '(arrow, init) =>
             br' <- _get_build_result g ;;
             name <- expect KeyError (scope_var (br_scope br') !! arrow) ;;
             ret (dict_set name init d))
          acc inits w
    = inr (foldl (fun d '(name, init) => dict_set name init d)
                 acc (zip names inits.*2), w).
Proof.
  intros Hc. pose proof (get_build_result_cached g br w Hc) as Hb.
  induction 1 as [| [arrow init] name inits names Hname _ IH]; intros acc;
    [done |].
  simpl in Hname.
  rewrite foldM_cons, (bind_inr _ _ _ _ _ Hb), Hname. apply IH.
Qed.

Lemma zip_fresh {A} (names : list string) (l : list A) :
  length names = length l -> NoDup names ->
  foldl (fun d '(name, x) => dict_set name x d) [] (zip names l) = zip names l.
Proof.
  intros Hlen Hnd. rewrite foldl_dict_set_fresh; [done |].
  simpl. rewrite fst_zip by lia. done.
Qed.

(** X3. The named results, arguments and initializers of a built Graph.
    When the scope of the build gives the result Vars distinct names,
    [get_results] returns them under those names, in the order of the
    build result; likewise [get_arguments] for the arguments and
    [_get_initializers_by_name] for the initializers. *)
Theorem named_values_keep_order (g : Graph) (w w1 : World) (br : BuildResult) :
  _get_build_result g w = inr (br, w1) ->
  (forall names,
     Forall2 (fun arrow name => scope_var (br_scope br) !! arrow = Some name)
             (br_results br) names ->
     NoDup names ->
     get_results g w = inr (zip names (br_results br), w1)) /\
  (forall names,
     Forall2 (fun arrow name => scope_var (br_scope br) !! arrow = Some name)
             (br_arguments br) names ->
     NoDup names ->
     get_arguments g w = inr (zip names (br_arguments br), w1)) /\
  (forall names,
     Forall2 (fun init name => scope_var (br_scope br) !! init.1 = Some name)
             (br_initializers br) names ->
     NoDup names ->
     _get_initializers_by_name g w
       = inr (zip names (br_initializers br).*2, w1)).
Proof.
  intros Hb. pose proof (get_build_result_caches _ _ _ _ Hb) as Hc.
  split; [| split]; intros names Hnames Hnd.
  - unfold get_results. rewrite (bind_inr _ _ _ _ _ Hb).
    rewrite (named_loop g br w1 _ names Hc Hnames).
    rewrite zip_fresh; [done | | done]. symmetry. by eapply Forall2_length.
  - unfold get_arguments. rewrite (bind_inr _ _ _ _ _ Hb).
    rewrite (named_loop g br w1 _ names Hc Hnames).
    rewrite zip_fresh; [done | | done]. symmetry. by eapply Forall2_length.
  - unfold _get_initializers_by_name. rewrite (bind_inr _ _ _ _ _ Hb).
    rewrite (named_initializers_loop g br w1 _ names Hc Hnames).
    rewrite zip_fresh; [done | | done].
    rewrite length_fmap. symmetry. by eapply Forall2_length.
Qed.

(** X4. A result or an argument that the scope of the build does not name
    makes [get_results], respectively [get_arguments], raise a KeyError,
    and [to_onnx] with it. *)
Theorem unnamed_values_raise (g : Graph) (w w1 : World) (br : BuildResult) :
  _get_build_result g w = inr (br, w1) ->
  (Exists (fun arrow => scope_var (br_scope br) !! arrow = None) (br_results br) ->
   get_results g w = inl KeyError /\
   forall concrete, to_onnx g concrete w = inl KeyError) /\
  (Exists (fun arrow => scope_var (br_scope br) !! arrow = None) (br_arguments br) ->
   get_arguments g w = inl KeyError).
Proof.
  intros Hb. pose proof (get_build_result_caches _ _ _ _ Hb) as Hc.
  split; intros Hex.
  - assert (get_results g w = inl KeyError) as Hget.
    { unfold get_results. rewrite (bind_inr _ _ _ _ _ Hb).
      by apply (unnamed_loop g br w1 _ Hc Hex). }
    split; [done |]. intros concrete. unfold to_onnx.
    by rewrite (bind_inl _ _ _ _ Hget).
  - unfold get_arguments. rewrite (bind_inr _ _ _ _ _ Hb).
    by apply (unnamed_loop g br w1 _ Hc Hex).
Qed.

End Names.

(** ** What [to_onnx] and [to_onnx_model] put together *)

Section Assembly.
Context {E : Collaborators}.

Lemma adapted_nodes_cached (g : Graph) (br : BuildResult) (w : World) :
  cached g br w -> NoDup (br_nodes br).*1 ->
  get_adapted_nodes g w
  = inr ((fun kv => (kv.1, adapted_or_original g br kv.1 kv.2)) <$> br_nodes br, w).
Proof.
  intros Hc Hnd. unfold get_adapted_nodes.
  rewrite (bind_inr _ _ _ _ _ (get_build_result_cached g br w Hc)).
  rewrite (adapt_loop_cached g br w _ Hc). do 2 f_equal.
  apply (foldl_dict_set_map (adapted_or_original g br) (br_nodes br) []).
  exact Hnd.
Qed.

(** X5. What [to_onnx] returns.  The instructions of the graph are the
    instructions of the nodes of the build result, in build order, each
    node contributing its adapted instructions when the adapter yields
    some and its original ones otherwise.  The graph is named after
    [_name], or ["steelix_graph"] when the name is unset or empty; it has
    the doc string of the Graph and one tensor per named initializer.  The
    world is left as the build left it. *)
Theorem to_onnx_contents (g : Graph) (concrete : bool) (w w1 w' : World)
    (br : BuildResult) (p : GraphProto) :
  _get_build_result g w = inr (br, w1) ->
  NoDup (br_nodes br).*1 ->
  to_onnx g concrete w = inr (p, w') ->
  w' = w1 /\
  gp_node p
    = concat ((fun kv => adapted_or_original g br kv.1 kv.2) <$> br_nodes br) /\
  gp_name p = graph_name g /\
  gp_doc_string p = _doc_string g /\
  exists inits,
    _get_initializers_by_name g w1 = inr (inits, w1) /\
    gp_initializer p = (fun '(name, arr) => from_array arr (Some name)) <$> inits.
Proof.
  intros Hb Hnd Hrun.
  pose proof (get_build_result_caches _ _ _ _ Hb) as Hc.
  rewrite (to_onnx_after_build _ _ _ _ _ Hb) in Hrun. unfold to_onnx in Hrun.
  apply bind_inv in Hrun as (res & w2 & Hres & Hrun).
  pose proof (proj2 (stable_get_results build_main g br w1 Hc) _ _ Hres) as ->.
  destruct (decide (res = [])); [done |].
  apply bind_inv in Hrun as (args & w2 & Hargs & Hrun).
  pose proof (proj2 (stable_get_arguments build_main g br w1 Hc) _ _ Hargs) as ->.
  apply bind_inv in Hrun as (argument_info & w2 & Hai & Hrun).
  pose proof (proj2 (stable_value_infos build_main g br _ _ w1 Hc) _ _ Hai) as ->.
  apply bind_inv in Hrun as (res' & w2 & Hres' & Hrun).
  pose proof (proj2 (stable_get_results build_main g br w1 Hc) _ _ Hres') as ->.
  apply bind_inv in Hrun as (result_info & w2 & Hri & Hrun).
  pose proof (proj2 (stable_value_infos build_main g br _ _ w1 Hc) _ _ Hri) as ->.
  apply bind_inv in Hrun as (inits & w2 & Hinits & Hrun).
  pose proof (proj2 (stable_get_initializers_by_name build_main g br w1 Hc)
                _ _ Hinits) as ->.
  rewrite (bind_inr _ _ _ _ _ (adapted_nodes_cached g br w1 Hc Hnd)) in Hrun.
  injection Hrun as <- <-. simpl.
  split; [done |]. split.
  { unfold dict_values. by rewrite <- list_fmap_compose. }
  split; [done |]. split; [done |]. eauto.
Qed.

(** X6. What [to_onnx_model] puts together.  For a built Graph whose
    function definitions do not collide and whose opsets are not empty,
    the model consists of the graph that [to_onnx] returns, the collected
    function definitions and opset imports, in some order, that hold one
    version per domain: the greatest required.  With [check_model=0] the
    checker is not consulted; otherwise an error of the checker is the
    error of [to_onnx_model], and a model the checker accepts is
    returned. *)
Theorem to_onnx_model_assembles (g : Graph) (br : BuildResult) (w : World)
    (producer_name model_doc_string : string) (infer_shapes_flag : bool)
    (check_model_level : Z) (concrete : bool)
    (d : list ((string * string) * FunctionProto)) (gp : GraphProto) :
  let req := br_opset_req br ∪ default ∅ (_extra_opset_req g) in
  cached g br w ->
  collect_function_protos (br_functions br) w = inr (d, w) ->
  max_opset_policy req <> ∅ ->
  to_onnx g concrete w = inr (gp, w) ->
  exists imports : list (string * Z),
    NoDup imports.*1 /\
    imports <> [] /\
    (forall dom v, (dom, v) ∈ imports <->
       (dom, v) ∈ req /\ forall v', (dom, v') ∈ req -> (v' <= v)%Z) /\
    let assembled :=
      make_model gp producer_name model_doc_string (dict_values d) imports in
    let model := if infer_shapes_flag then infer_shapes assembled else assembled in
    to_onnx_model g producer_name model_doc_string infer_shapes_flag
      check_model_level concrete w
    = if decide (check_model_level = 0%Z) then inr (model, w)
      else match check_model model (bool_decide (2 <= check_model_level)%Z) with
           | Some e => inl e
           | None => inr (model, w)
           end.
Proof.
  intros req Hc Hd Hopsets Hgp.
  pose proof (get_build_result_cached g br w Hc) as Hb.
  exists (map_to_list (max_opset_policy req)).
  split; [apply NoDup_fst_map_to_list |]. split.
  { by rewrite map_to_list_empty_iff. }
  split.
  { intros dom v. rewrite elem_of_map_to_list. apply max_opset_policy_spec. }
  intros assembled model.
  unfold to_onnx_model.
  rewrite (bind_inr _ _ _ _ _ Hb), (bind_inr _ _ _ _ _ Hd).
  rewrite (bind_inr _ _ _ _ _ (get_opsets_built _ _ _ _ Hb)).
  rewrite decide_False by done.
  rewrite (bind_inr _ _ _ _ _ Hgp).
  rewrite (bind_inr _ _ _ _ _ (get_opsets_built _ _ _ _ Hb)).
  fold req. fold assembled. fold model. unfold bind.
  destruct (decide (check_model_level = 0%Z)); [done |].
  by destruct (check_model model _).
Qed.

End Assembly.

(** ** Graph objects and their caches *)

Lemma Graph_init_run (g' : Graph) (w : World) :
  Graph_init g' w
  = inr (length (w_graphs w), set_w_graphs (w_graphs w ++ [g']) w).
Proof. done. Qed.

(** X7. [with_opset] accumulates.  [with_opset] of [a] followed by
    [with_opset] of [b] gives a Graph with the fields of [g] and, as extra
    requirements, those of [a], those of [b] and those [g] had: the same
    as one [with_opset] of [a] and [b] together, in whichever order the two
    calls are made. *)
Theorem with_opset_accumulates (g : Graph) (a b : list (string * Z)) (w : World) :
  exists r1 g1 w1 r2 g2 w2,
    with_opset g a w = inr (r1, w1) /\ w_graphs w1 !! r1 = Some g1 /\
    with_opset g1 b w1 = inr (r2, w2) /\ w_graphs w2 !! r2 = Some g2 /\
    r1 <> r2 /\
    _extra_opset_req g2
      = Some (list_to_set a ∪ list_to_set b ∪ default ∅ (_extra_opset_req g)) /\
    (forall r3 g3 w3,
       with_opset g (a ++ b) w = inr (r3, w3) -> w_graphs w3 !! r3 = Some g3 ->
       _extra_opset_req g3 = _extra_opset_req g2) /\
    _results g2 = _results g /\ _name g2 = _name g /\
    _doc_string g2 = _doc_string g /\ _arguments g2 = _arguments g /\
    _constructor g2 = _constructor g /\ _build_result g2 = _build_result g.
Proof.
  unfold with_opset. rewrite Graph_init_run.
  eexists _, _, _, _, _, _. split; [reflexivity |].
  split; [apply lookup_snoc |]. simpl. rewrite Graph_init_run.
  split; [reflexivity |]. simpl.
  split; [apply lookup_snoc |].
  split; [rewrite length_app; simpl; lia |].
  assert ((list_to_set b : gset (string * Z)) ∪
            match _extra_opset_req g with
            | Some e => list_to_set a ∪ e
            | None => list_to_set a
            end
          = list_to_set a ∪ list_to_set b ∪ default ∅ (_extra_opset_req g)) as Heq.
  { destruct (_extra_opset_req g); simpl; set_solver. }
  split; [by rewrite Heq |]. split; [| done].
  intros r3 g3 w3 [= <- <-]. simpl. rewrite lookup_snoc. intros [= <-]. simpl.
  f_equal. rewrite Heq, list_to_set_app_L.
  destruct (_extra_opset_req g); simpl; set_solver.
Qed.

Section SharedCache.
Context {E : Collaborators}.

Lemma shared_cell (g g' : Graph) (br : BuildResult) (w : World) :
  _build_result g' = _build_result g -> cached g br w -> cached g' br w.
Proof. unfold cached. by intros ->. Qed.

(** X8. The copies made by [with_name], [with_doc], [with_arguments] and
    [with_opset] share the build cache of the original.  The copy of a
    built Graph answers with the build result of the original, without a
    build (also [with_arguments], which changes what is requested of the
    build); and a build triggered through the copy is the build result of
    the original from then on. *)
Theorem copies_share_the_build (b : Graph -> M BuildResult) (g : Graph) (w : World) :
  forall (copy : M GraphRef),
    (exists name, copy = with_name g name) \/
    (exists doc_string, copy = with_doc g doc_string) \/
    (exists args, copy = with_arguments g args) \/
    (exists args, copy = with_opset g args) ->
    exists r' g' w',
      copy w = inr (r', w') /\ w_graphs w' !! r' = Some g' /\
      (forall br, cached g br w ->
         @_get_build_result (with_builder b E) g' w' = inr (br, w')) /\
      (forall br w'', _get_build_result g' w' = inr (br, w'') ->
         @_get_build_result (with_builder b E) g w'' = inr (br, w'')).
Proof.
  intros copy Hcopy.
  assert (exists g', copy = Graph_init g' /\ _build_result g' = _build_result g)
    as (g' & -> & Hcell).
  { destruct Hcopy as [[x ->] | [[x ->] | [[x ->] | [x ->]]]];
      eexists; (split; [reflexivity | done]). }
  rewrite Graph_init_run. eexists _, g', _. split; [reflexivity |].
  split; [apply lookup_snoc |]. split.
  - intros br Hc. apply get_build_result_cached.
    apply (shared_cell g g'); [done |]. exact Hc.
  - intros br w'' Hb. apply get_build_result_cached.
    apply (shared_cell g' g); [done |]. by eapply get_build_result_caches.
Qed.

(** X9. [results] makes a Graph that is not built.  The new Graph has the
    given results and no name, doc string, arguments or extra
    requirements; its cache is a new, empty cell, so that its first query
    runs the Builder and stores what the Builder returns; the caches of
    the Graphs made before are as they were. *)
Theorem results_is_unbuilt (kwargs : list (string * Arrow)) (w : World) :
  exists r' g' w',
    results kwargs w = inr (r', w') /\ w_graphs w' !! r' = Some g' /\
    w_graphs w !! r' = None /\
    requested_results g' = kwargs /\ requested_arguments g' = None /\
    _name g' = None /\ _doc_string g' = None /\ _extra_opset_req g' = None /\
    _constructor g' = None /\
    w_cached w' !! _build_result g' = None /\
    (forall g0 br, _build_result g0 < w_cached_next w ->
       cached g0 br w' <-> cached g0 br w) /\
    _get_build_result g' w'
      = match build_main g' w' with
        | inl e => inl e
        | inr (br, w2) =>
            inr (br, set_w_cached (<[_build_result g' := br]> (w_cached w2)) w2)
        end.
Proof.
  unfold results, bind, Cached_init. rewrite Graph_init_run.
  eexists _, _, _. split; [reflexivity |].
  split; [apply lookup_snoc |]. split; [by apply lookup_ge_None |].
  do 6 (split; [done |]). simpl.
  split; [apply lookup_delete_eq |]. split.
  - intros g0 br Hlt. unfold cached. simpl.
    rewrite lookup_delete_ne by lia. done.
  - unfold _get_build_result, bind, Cached__value, Cached_set_value, Cached_value.
    simpl. rewrite lookup_delete_eq.
    match goal with |- context [build_main ?g ?w0] =>
      destruct (build_main g w0) as [e | [br w2]] end; [done |].
    simpl. by rewrite lookup_insert_eq.
Qed.

(** X10. [_inject_build_result] makes a copy with a cache of its own.  The
    copy answers with the injected build result, without a build; the
    caches of the original and of every Graph made before are as they
    were. *)
Theorem inject_build_result_is_private (b : Graph -> M BuildResult)
    (g : Graph) (what : BuildResult) (w : World) :
  exists r' g' w',
    _inject_build_result g what w = inr (r', w') /\
    w_graphs w' !! r' = Some g' /\
    _results g' = _results g /\ _name g' = _name g /\
    _doc_string g' = _doc_string g /\ _arguments g' = _arguments g /\
    _extra_opset_req g' = _extra_opset_req g /\
    _constructor g' = _constructor g /\
    @_get_build_result (with_builder b E) g' w' = inr (what, w') /\
    (forall g0 br, _build_result g0 < w_cached_next w ->
       cached g0 br w' <-> cached g0 br w).
Proof.
  unfold _inject_build_result, bind, Cached_init_with. rewrite Graph_init_run.
  eexists _, _, _. split; [reflexivity |].
  split; [apply lookup_snoc |]. do 6 (split; [done |]). split.
  - apply get_build_result_cached. unfold cached. simpl.
    apply lookup_insert_eq.
  - intros g0 br Hlt. unfold cached. simpl.
    rewrite lookup_insert_ne by lia. done.
Qed.

End SharedCache.

(** ** Arguments, in order *)

Lemma arguments_world_frame (kwargs : list (string * ArgInfo)) :
  forall w,
    w_graphs (arguments_world kwargs w) = w_graphs w /\
    w_cached (arguments_world kwargs w) = w_cached w /\
    w_cached_next (arguments_world kwargs w) = w_cached_next w.
Proof.
  induction kwargs as [| [name info] kwargs IH]; intros w; simpl; [done |].
  destruct (IH (set_w_nodes
                  (w_nodes w ++
                   [Argument_node (arg_type info) name (arg_default info) w])
                  (set_w_vars
                     (w_vars w ++ [Argument_var (arg_type info) name w]) w)))
    as (-> & -> & ->).
  done.
Qed.

Lemma arguments_world_vars (kwargs : list (string * ArgInfo)) :
  forall w,
    w_vars (arguments_world kwargs w)
    = w_vars w ++
      imap (fun i kv => {| var_op := Some (length (w_nodes w) + i);
                           var_type := arg_type kv.2;
                           var_value := None;
                           var_name := Some kv.1 |}) kwargs.
Proof.
  induction kwargs as [| [name info] kwargs IH]; intros w; simpl.
  - by rewrite app_nil_r.
  - rewrite IH. simpl. rewrite <- app_assoc. simpl. do 2 f_equal.
    + unfold Argument_var. by rewrite Nat.add_0_r.
    + apply imap_ext. intros i kv _. simpl. rewrite length_app. simpl.
      by replace (length (w_nodes w) + 1 + i) with (length (w_nodes w) + S i)
        by lia.
Qed.

Lemma arguments_world_nodes (kwargs : list (string * ArgInfo)) :
  forall w,
    w_nodes (arguments_world kwargs w)
    = w_nodes w ++
      imap (fun i kv => {| node_class :=
                             Argument (arg_type kv.2) (Some kv.1) (arg_default kv.2);
                           node_inputs := [];
                           node_outputs := [length (w_vars w) + i] |}) kwargs.
Proof.
  induction kwargs as [| [name info] kwargs IH]; intros w; simpl.
  - by rewrite app_nil_r.
  - rewrite IH. simpl. rewrite <- app_assoc. simpl. do 2 f_equal.
    + unfold Argument_node. by rewrite Nat.add_0_r.
    + apply imap_ext. intros i kv _. simpl. rewrite length_app. simpl.
      by replace (length (w_vars w) + 1 + i) with (length (w_vars w) + S i)
        by lia.
Qed.

Lemma arguments_dict_run (kwargs : list (string * ArgInfo)) :
  forall (result : list (string * Arrow)) (w : World),
    (forall name info, (name, info) ∈ kwargs -> typed_info info) ->
    foldM (fun result '(name, info) =>
             let Argument_of (type : option Type_) (default : option ndarray) :=
               n <- Node_init (Argument type (Some name) default) [] 1 ;;
               arg <- outputs_arg n ;;
               ret (dict_set name arg result) in
             match info with
             | InfoNone => Argument_of None None
             | InfoType t => Argument_of (Some t) None
             | InfoArray a => Argument_of (Some (Tensor_like_array a)) (Some a)
             | InfoOther => raise TypeError
             end)
          result kwargs w
    = inr (foldl (fun d '(name, arg) => dict_set name arg d) result
                 (zip kwargs.*1 (seq (length (w_vars w)) (length kwargs))),
           arguments_world kwargs w).
Proof.
  induction kwargs as [| [name info] kwargs IH]; intros result w Hok; [done |].
  assert (typed_info info) as Hinfo.
  { apply (Hok name), elem_of_cons. by left. }
  pose proof (arguments_dict_step name info result w Hinfo) as Hstep.
  assert (forall name' info', (name', info') ∈ kwargs -> typed_info info') as Hok'.
  { intros name' info' Hin. apply (Hok name'), elem_of_cons. by right. }
  rewrite foldM_cons. cbv beta iota zeta. destruct Hinfo as [t0 Ht0].
  destruct info; [done | | | done]; simpl in Hstep; rewrite Hstep;
    (etrans; [apply (IH _ _ Hok') |]); simpl; rewrite length_app; simpl;
    by replace (length (w_vars w) + 1) with (S (length (w_vars w))) by lia.
Qed.

Lemma arguments_dict_closed (kwargs : list (string * ArgInfo)) (w : World) :
  NoDup kwargs.*1 ->
  (forall name info, (name, info) ∈ kwargs -> typed_info info) ->
  arguments_dict kwargs w
  = inr (zip kwargs.*1 (seq (length (w_vars w)) (length kwargs)),
         arguments_world kwargs w).
Proof.
  intros Hnd Hok. unfold arguments_dict. rewrite arguments_dict_run by done.
  rewrite foldl_dict_set_fresh; [done |].
  simpl. rewrite fst_zip; [done |]. by rewrite length_seq, length_fmap.
Qed.

Lemma arguments_closed (kwargs : list (string * ArgInfo)) (w : World) :
  NoDup kwargs.*1 ->
  (forall name info, (name, info) ∈ kwargs -> typed_info info) ->
  arguments kwargs w
  = inr (seq (length (w_vars w)) (length kwargs), arguments_world kwargs w).
Proof.
  intros Hnd Hok. unfold arguments.
  rewrite (bind_inr _ _ _ _ _ (arguments_dict_closed kwargs w Hnd Hok)).
  unfold dict_values. rewrite snd_zip; [done |].
  by rewrite length_seq, length_fmap.
Qed.

(** X11. [arguments] returns its Vars in the order of the keywords.  For
    keywords with distinct names that are Types or arrays, the i-th Var
    returned is a new Var, named after the i-th keyword, with the Type the
    keyword gives (for an array, the Type of the array), produced by a new
    Argument node that carries the array of the keyword, if any, as
    default; the Vars that existed are untouched, and no Graph or cache
    is. *)
Theorem arguments_in_order (kwargs : list (string * ArgInfo)) (w : World) :
  NoDup kwargs.*1 ->
  (forall name info, (name, info) ∈ kwargs -> typed_info info) ->
  let w' := arguments_world kwargs w in
  arguments_dict kwargs w
    = inr (zip kwargs.*1 (seq (length (w_vars w)) (length kwargs)), w') /\
  arguments kwargs w = inr (seq (length (w_vars w)) (length kwargs), w') /\
  (forall i name info, kwargs !! i = Some (name, info) ->
     w_vars w' !! (length (w_vars w) + i)
       = Some {| var_op := Some (length (w_nodes w) + i);
                 var_type := arg_type info;
                 var_value := None; var_name := Some name |} /\
     w_nodes w' !! (length (w_nodes w) + i)
       = Some {| node_class := Argument (arg_type info) (Some name) (arg_default info);
                 node_inputs := [];
                 node_outputs := [length (w_vars w) + i] |}) /\
  (forall x, x < length (w_vars w) -> w_vars w' !! x = w_vars w !! x) /\
  w_graphs w' = w_graphs w /\ w_cached w' = w_cached w.
Proof.
  intros Hnd Hok w'.
  split; [by apply arguments_dict_closed |].
  split; [by apply arguments_closed |]. split; [| split].
  - intros i name info Hi. subst w'. split.
    + rewrite arguments_world_vars, lookup_app_r by lia.
      replace (length (w_vars w) + i - length (w_vars w)) with i by lia.
      by rewrite list_lookup_imap, Hi.
    + rewrite arguments_world_nodes, lookup_app_r by lia.
      replace (length (w_nodes w) + i - length (w_nodes w)) with i by lia.
      by rewrite list_lookup_imap, Hi.
  - intros x Hx. subst w'. by rewrite arguments_world_vars, lookup_app_l.
  - subst w'. destruct (arguments_world_frame kwargs w) as (-> & -> & _). done.
Qed.

(** The names [prefix0], [prefix1], ... are distinct. *)
Lemma enumerate_names_keys {A} (prefix : string) (l : list A) :
  (enumerate_names prefix l).*1
  = (fun i => prefix +:+ pretty i) <$> seq 0 (length l).
Proof.
  unfold enumerate_names. rewrite fmap_imap. simpl.
  rewrite <- (imap_seq_0 l (fun i => prefix +:+ pretty i)). done.
Qed.

Lemma enumerate_names_values {A} (prefix : string) (l : list A) :
  (enumerate_names prefix l).*2 = l.
Proof.
  unfold enumerate_names. rewrite fmap_imap. simpl.
  rewrite (imap_ext _ (const id)) by done. rewrite imap_const. apply list_fmap_id.
Qed.

Lemma enumerate_names_NoDup {A} (prefix : string) (l : list A) :
  NoDup (enumerate_names prefix l).*1.
Proof.
  rewrite enumerate_names_keys. apply NoDup_fmap_2; [| apply NoDup_seq].
  intros i j Hij. apply (inj (String.app prefix)) in Hij.
  by apply (inj pretty) in Hij.
Qed.

Lemma enumerate_dict {A} (prefix : string) (l : list A) :
  foldl (fun d '(i, x) => dict_set (prefix +:+ pretty i) x d) [] (imap pair l)
  = enumerate_names prefix l.
Proof.
  transitivity (foldl (fun d '(k, v) => dict_set k v d) []
                      (enumerate_names prefix l)).
  - assert (enumerate_names prefix l
            = (fun ix : nat * A => (prefix +:+ pretty ix.1, ix.2)) <$> imap pair l)
      as ->.
    { rewrite fmap_imap. unfold enumerate_names. by apply imap_ext. }
    rewrite foldl_fmap. generalize (@nil (string * A)).
    induction (imap pair l) as [| [i x] ixs IH]; intros d; simpl; [done |].
    apply IH.
  - rewrite foldl_dict_set_fresh; [done |]. apply enumerate_names_NoDup.
Qed.

Lemma enum_arguments_closed (infos : list ArgInfo) (prefix : string) (w : World) :
  (forall info, info ∈ infos -> typed_info info) ->
  enum_arguments infos prefix w
  = inr (seq (length (w_vars w)) (length infos),
         arguments_world (enumerate_names prefix infos) w).
Proof.
  intros Hok. unfold enum_arguments. rewrite enumerate_dict.
  rewrite arguments_closed.
  - unfold enumerate_names. by rewrite length_imap.
  - apply enumerate_names_NoDup.
  - intros name info Hin. apply Hok.
    rewrite <- (enumerate_names_values prefix infos).
    apply list_elem_of_fmap. by exists (name, info).
Qed.

Lemma enum_results_closed (arrows : list Arrow) (prefix : string) (w : World) :
  enum_results arrows prefix w
  = inr (length (w_graphs w),
         {| w_vars := w_vars w; w_nodes := w_nodes w;
            w_graphs := w_graphs w ++
              [{| _results := enumerate_names prefix arrows;
                  _name := None; _doc_string := None; _arguments := None;
                  _extra_opset_req := None; _constructor := None;
                  _build_result := w_cached_next w |}];
            w_cached := delete (w_cached_next w) (w_cached w);
            w_cached_next := S (w_cached_next w) |}).
Proof. unfold enum_results. by rewrite enumerate_dict. Qed.

(** X12. [enum_arguments] and [enum_results] lose nothing to a clash of
    names.  [enum_arguments] is [arguments] on the keywords [prefix0],
    [prefix1], ..., one per given info and in their order, and so, for
    infos that are Types or arrays, returns as many new Vars as infos were
    given; [enum_results] makes a Graph whose results are the given Arrows,
    in their order, under the names [prefix0], [prefix1], ... *)
Theorem enumerations_keep_everything (prefix : string) (w : World) :
  (forall infos,
     enum_arguments infos prefix w = arguments (enumerate_names prefix infos) w /\
     ((forall info, info ∈ infos -> typed_info info) ->
      enum_arguments infos prefix w
        = inr (seq (length (w_vars w)) (length infos),
               arguments_world (enumerate_names prefix infos) w))) /\
  (forall arrows, exists r' g' w',
     enum_results arrows prefix w = inr (r', w') /\
     w_graphs w' !! r' = Some g' /\
     _results g' = enumerate_names prefix arrows /\
     (_results g').*2 = arrows /\
     NoDup (_results g').*1 /\
     w_cached w' !! _build_result g' = None).
Proof.
  split.
  - intros infos.
    assert (enum_arguments infos prefix w
            = arguments (enumerate_names prefix infos) w) as Heq
      by (unfold enum_arguments; by rewrite enumerate_dict).
    split; [exact Heq |]. intros Hok. by apply enum_arguments_closed.
  - intros arrows. rewrite enum_results_closed.
    eexists _, _, _. split; [reflexivity |].
    split; [apply lookup_snoc |]. split; [done |]. simpl.
    split; [apply enumerate_names_values |].
    split; [apply enumerate_names_NoDup |]. apply lookup_delete_eq.
Qed.

(** ** Initializers and constants *)

Section InternalNodes.
Context {E : Collaborators}.

Lemma opset_req_internal (n : Node) (o : NodeObj) (w : World) :
  w_nodes w !! n = Some o ->
  match node_class o with
  | Argument _ _ _ | _Initializer _ _ => opset_req n w = inr (∅, w)
  | _Constant _ const_version =>
      opset_req n w = inr (_Constant_opset_req const_version, w)
  | _ => True
  end.
Proof.
  intros Ho. unfold opset_req.
  rewrite (bind_inr _ _ _ _ _ (read_node_Some _ _ _ Ho)).
  by destruct (node_class o).
Qed.

Lemma outputs_arg_Some (n : Node) (o : NodeObj) (x : Var) (w : World) :
  w_nodes w !! n = Some o -> head (node_outputs o) = Some x ->
  outputs_arg n w = inr (x, w).
Proof.
  intros Ho Hx. unfold outputs_arg.
  rewrite (bind_inr _ _ _ _ _ (read_node_Some _ _ _ Ho)). by rewrite Hx.
Qed.

(** X13. What Argument and Initializer nodes add to the metadata of a
    build.  They require no opset and register no function.  An Argument
    without default registers nothing at all; an Argument with a default,
    and every Initializer, registers that array as the initializer of its
    output Var, replacing an earlier entry for that Var and keeping every
    other entry. *)
Theorem arguments_register_defaults (n : Node) (o : NodeObj) (x : Var)
    (md : Metadata) (w : World) :
  w_nodes w !! n = Some o ->
  head (node_outputs o) = Some x ->
  match node_class o with
  | Argument _ _ None => update_metadata n md w = inr (md, w)
  | Argument _ _ (Some default) | _Initializer _ default =>
      exists md',
        update_metadata n md w = inr (md', w) /\
        md_opset_req md' = md_opset_req md /\
        md_functions md' = md_functions md /\
        dict_get x (md_initializers md') = Some default /\
        (forall y, y <> x ->
           dict_get y (md_initializers md') = dict_get y (md_initializers md))
  | _ => True
  end.
Proof.
  intros Ho Hx. pose proof (opset_req_internal n o w Ho) as Hreq.
  pose proof (outputs_arg_Some n o x w Ho Hx) as Hout.
  unfold update_metadata.
  rewrite (bind_inr _ _ _ _ _ (read_node_Some _ _ _ Ho)).
  assert (Node_update_metadata n md w = inr (md, w) \/
          ~ match node_class o with
            | Argument _ _ _ | _Initializer _ _ => True
            | _ => False
            end) as Hnode.
  { unfold Node_update_metadata.
    destruct (node_class o); try (right; tauto); left;
      rewrite (bind_inr _ _ _ _ _ Hreq); destruct md; simpl;
      by rewrite union_empty_r_L. }
  destruct (node_class o) as [type name [default |] | type default | | | |];
    try done; destruct Hnode as [Hnode | []]; try done.
  - unfold Argument_update_metadata.
    rewrite (bind_inr _ _ _ _ _ Hnode), (bind_inr _ _ _ _ _ Hout).
    eexists. split; [reflexivity |]. simpl.
    split; [done |]. split; [done |]. split; [apply dict_get_set_eq |].
    intros y Hy. by apply dict_get_set_ne.
  - unfold Argument_update_metadata.
    by rewrite (bind_inr _ _ _ _ _ Hnode), (bind_inr _ _ _ _ _ Hout).
  - unfold _Initializer_update_metadata.
    rewrite (bind_inr _ _ _ _ _ Hnode), (bind_inr _ _ _ _ _ Hout).
    eexists. split; [reflexivity |]. simpl.
    split; [done |]. split; [done |]. split; [apply dict_get_set_eq |].
    intros y Hy. by apply dict_get_set_ne.
Qed.

Lemma Node_init_Initializer (arr : ndarray) (w : World) :
  Node_init (_Initializer (Tensor_like_array arr) arr) [] 1 w
  = inr (length (w_nodes w),
         set_w_nodes
           (w_nodes w ++ [{| node_class := _Initializer (Tensor_like_array arr) arr;
                             node_inputs := [];
                             node_outputs := [length (w_vars w)] |}])
           (set_w_vars
              (w_vars w ++ [{| var_op := Some (length (w_nodes w));
                               var_type := Some (Tensor_like_array arr);
                               var_value := None; var_name := None |}]) w)).
Proof. destruct w as [vs ns gs cs cn]. by run. Qed.

Lemma Node_init_Constant (value : ndarray) (version : option Z) (w : World) :
  Node_init (_Constant value version) [] 1 w
  = inr (length (w_nodes w),
         set_w_nodes
           (w_nodes w ++ [{| node_class := _Constant value version;
                             node_inputs := [];
                             node_outputs := [length (w_vars w)] |}])
           (set_w_vars
              (w_vars w ++ [{| var_op := Some (length (w_nodes w));
                               var_type := Some (Tensor_like_array value);
                               var_value := Some (PropArray value);
                               var_name := None |}]) w)).
Proof. destruct w as [vs ns gs cs cn]. by run. Qed.

(** X14. [initializer] and [constant].  [initializer(arr)] returns a new,
    unnamed Var with the Type of [arr], produced by a new Initializer node
    that holds [arr].  [constant(value, version)] returns a new Var with
    the Type of [value] whose propagated value is [value]; its node
    requires the opset [("", version)] when a version is given and none
    otherwise, and lowers to one Constant instruction, named by the scope,
    that carries [value] (a KeyError when the scope does not name the Var
    or the node). *)
Theorem initializer_and_constant (w : World) :
  let x : Var := length (w_vars w) in
  let n : Node := length (w_nodes w) in
  (forall arr, exists w',
     initializer arr w = inr (x, w') /\
     w_vars w !! x = None /\
     w_vars w' !! x = Some {| var_op := Some n;
                             var_type := Some (Tensor_like_array arr);
                             var_value := None; var_name := None |} /\
     w_nodes w' !! n = Some {| node_class := _Initializer (Tensor_like_array arr) arr;
                              node_inputs := []; node_outputs := [x] |}) /\
  (forall value version, exists w',
     constant value version w = inr (x, w') /\
     w_vars w !! x = None /\
     w_vars w' !! x = Some {| var_op := Some n;
                             var_type := Some (Tensor (nd_dtype value)
                                                 (Some (DimInt <$> nd_shape value)));
                             var_value := Some (PropArray value);
                             var_name := None |} /\
     opset_req n w' = inr (match version with
                           | Some v => {[ ("", v) ]}
                           | None => ∅
                           end, w') /\
     forall scope : Scope,
       _Constant_to_onnx n scope w'
       = match scope_var scope !! x, scope_node scope !! n with
         | Some out, Some name =>
             inr ([make_node "Constant" [] [out] (Some name) None
                     [("value", from_array value None)]], w')
         | _, _ => inl KeyError
         end).
Proof.
  intros x n. subst x n. split.
  - intros arr. eexists. split.
    + unfold initializer.
      rewrite (bind_inr _ _ _ _ _ (Node_init_Initializer arr w)).
      eapply outputs_arg_Some; [apply lookup_snoc | done].
    + split; [by apply lookup_ge_None |]. split; apply lookup_snoc.
  - intros value version. eexists. split; [| split; [| split; [| split]]].
    + unfold constant.
      rewrite (bind_inr _ _ _ _ _ (Node_init_Constant value version w)).
      unfold outputs_output.
      erewrite bind_inr; [| apply read_node_Some, lookup_snoc]. done.
    + by apply lookup_ge_None.
    + apply lookup_snoc.
    + unfold opset_req.
      erewrite bind_inr; [| apply read_node_Some, lookup_snoc].
      simpl. unfold _Constant_opset_req, ret. by destruct version.
    + intros scope. unfold _Constant_to_onnx.
      erewrite bind_inr; [| apply read_node_Some, lookup_snoc]. simpl.
      unfold bind, expect, ret, raise.
      destruct (scope_var scope !! (length (w_vars w) : Var)) as [out |];
        [| reflexivity].
      destruct (scope_node scope !! (length (w_nodes w) : Node)); reflexivity.
Qed.

End InternalNodes.

(** ** Introduce nodes, in general *)

Lemma imap_pair_zip {A} (l : list A) : imap pair l = zip (seq 0 (length l)) l.
Proof.
  assert (forall k, imap (fun i x => (k + i, x)) l = zip (seq k (length l)) l)
    as Hgen.
  { induction l as [| x l IH]; intros k; [done |].
    rewrite imap_cons. simpl. rewrite Nat.add_0_r. f_equal.
    rewrite <- IH. apply imap_ext. intros i y _. simpl. f_equal. lia. }
  apply (Hgen 0).
Qed.

Lemma outputs_key_inj (i j : nat) :
  "outputs_" +:+ pretty i = "outputs_" +:+ pretty j -> i = j.
Proof. intros Hij. apply (inj (String.app "outputs_")) in Hij. by apply (inj pretty). Qed.

Lemma read_var_Some x xo w : w_vars w !! x = Some xo -> read_var x w = inr (xo, w).
Proof. unfold read_var. by intros ->. Qed.

Lemma Var_set_type_Some x xo t w :
  w_vars w !! x = Some xo ->
  Var_set_type x t w
  = inr (tt, set_w_vars (<[x := {| var_op := var_op xo; var_type := t;
                                   var_value := var_value xo;
                                   var_name := var_name xo |}]> (w_vars w)) w).
Proof.
  intros Hx. unfold Var_set_type.
  rewrite (bind_inr _ _ _ _ _ (read_var_Some _ _ _ Hx)).
  unfold write_var. by rewrite Hx.
Qed.

Lemma Var__rename_Some x xo name w :
  w_vars w !! x = Some xo ->
  Var__rename x name w
  = inr (tt, set_w_vars (<[x := {| var_op := var_op xo; var_type := var_type xo;
                                   var_value := var_value xo;
                                   var_name := name |}]> (w_vars w)) w).
Proof.
  intros Hx. unfold Var__rename.
  rewrite (bind_inr _ _ _ _ _ (read_var_Some _ _ _ Hx)).
  unfold write_var. by rewrite Hx.
Qed.

Lemma insert_middle {A} (l1 l2 : list A) (x y : A) :
  <[length l1 := y]> (l1 ++ x :: l2) = l1 ++ y :: l2.
Proof. rewrite insert_app_r_alt by lia. by rewrite Nat.sub_diag. Qed.

Lemma infer_loop (w0 : World) (args : list Var) (objs : list VarObj) :
  Forall2 (fun x xo => w_vars w0 !! x = Some xo) args objs ->
  forall k acc,
    foldM (fun acc '(i, arr) =>
             a <- read_var arr ;;
             ret match var_type a with
                 | Some t => dict_set ("outputs_" +:+ pretty i) (Some t) acc
                 | None => acc
                 end)
          acc (zip (seq k (length args)) args) w0
    = inr (introduce_types k objs acc, w0).
Proof.
  unfold introduce_types.
  induction 1 as [| x xo args objs Hx _ IH]; intros k acc; [done |].
  cbn [length seq zip_with foldl]. rewrite foldM_cons.
  rewrite (bind_inr _ _ _ _ _ (read_var_Some _ _ _ Hx)). apply IH.
Qed.

Lemma introduce_types_get (objs : list VarObj) :
  forall k acc j,
    dict_get ("outputs_" +:+ pretty j) (introduce_types k objs acc)
    = match (if decide (k <= j) then objs !! (j - k) else None) ≫= var_type with
      | Some t => Some (Some t)
      | None => dict_get ("outputs_" +:+ pretty j) acc
      end.
Proof.
  unfold introduce_types.
  induction objs as [| xo objs IH]; intros k acc j; simpl.
  - by destruct (decide (k <= j)).
  - rewrite IH.
    assert (j <> k ->
            dict_get ("outputs_" +:+ pretty j)
              match var_type xo with
              | Some t => dict_set ("outputs_" +:+ pretty k) (Some t) acc
              | None => acc
              end
            = dict_get ("outputs_" +:+ pretty j) acc) as Hother.
    { intros Hne. destruct (var_type xo); [| done].
      apply dict_get_set_ne. intros Heq. by apply outputs_key_inj in Heq. }
    destruct (decide (S k <= j)) as [Hlt | Hge].
    + rewrite decide_True by lia.
      replace (j - k) with (S (j - S k)) by lia. simpl.
      rewrite Hother by lia. done.
    + destruct (decide (k <= j)) as [Hle | Hgt]; simpl.
      * assert (j = k) as -> by lia. rewrite Nat.sub_diag. simpl.
        destruct (var_type xo); [apply dict_get_set_eq | done].
      * rewrite Hother by lia. done.
Qed.

Lemma noop_loop {V} (l : list (string * Var)) (w : World)
    (f : Var -> V -> M unit) :
  foldM (fun _ '(slot, out) =>
           match dict_get slot (@nil (string * V)) with
           | Some v => f out v
           | None => ret tt
           end)
        tt l w = inr (tt, w).
Proof. induction l as [| [slot out] l IH]; [done |]. rewrite foldM_cons. apply IH. Qed.

Section IntrosRun.
Context (w : World) (args : list Var) (objs : list VarObj).
Hypothesis args_allocated :
  Forall2 (fun x xo => w_vars w !! x = Some xo) args objs.

Lemma partial_world_lookup (done : list VarObj) (m : nat) :
  w_vars (partial_world w args done (S m)) !! (length (w_vars w) + length done)
  = Some {| var_op := Some (length (w_nodes w)); var_type := None;
            var_value := None; var_name := None |}.
Proof.
  simpl. rewrite app_assoc. apply list_lookup_middle.
  by rewrite length_app, length_fmap.
Qed.

Lemma partial_world_step (done : list VarObj) (xo : VarObj) (m : nat) :
  partial_world w args (done ++ [xo]) m
  = set_w_vars
      (<[length (w_vars w) + length done :=
           introduced_var (length (w_nodes w)) xo]>
         (w_vars (partial_world w args done (S m))))
      (partial_world w args done (S m)).
Proof.
  unfold partial_world, set_w_nodes, set_w_vars. simpl. f_equal.
  rewrite insert_app_r_alt by lia.
  replace (length (w_vars w) + length done - length (w_vars w))
    with (length (introduced_var (length (w_nodes w)) <$> done))
    by (rewrite length_fmap; lia).
  by rewrite insert_middle, fmap_app, <- !app_assoc.
Qed.

Lemma partial_world_skip (done : list VarObj) (xo : VarObj) (m : nat) :
  var_type xo = None ->
  partial_world w args (done ++ [xo]) m = partial_world w args done (S m).
Proof.
  intros Ht. unfold partial_world. do 2 f_equal.
  rewrite fmap_app, <- !app_assoc. simpl. unfold introduced_var at 2.
  by rewrite Ht.
Qed.

Lemma assign_loop (types : list (string * option Type_)) :
  (forall j, dict_get ("outputs_" +:+ pretty j) types
             = match objs !! j ≫= var_type with
               | Some t => Some (Some t)
               | None => None
               end) ->
  forall todo done,
    objs = done ++ todo ->
    foldM (fun _ '(slot, out) =>
             match dict_get slot types with
             | Some t => Var_set_type out t
             | None => ret tt
             end)
          tt (zip ((fun i => "outputs_" +:+ pretty i)
                     <$> seq (length done) (length todo))
                  (seq (length (w_vars w) + length done) (length todo)))
          (partial_world w args done (length todo))
    = inr (tt, partial_world w args (done ++ todo) 0).
Proof.
  intros Htypes. induction todo as [| xo todo IH]; intros done Hobjs.
  - by rewrite app_nil_r.
  - cbn [length seq zip_with fmap list_fmap]. rewrite foldM_cons, Htypes.
    assert (objs !! length done = Some xo) as ->
      by (rewrite Hobjs; by apply list_lookup_middle).
    specialize (IH (done ++ [xo])). rewrite length_app in IH.
    cbn [length] in IH.
    replace (length done + 1) with (S (length done)) in IH by lia.
    replace (length (w_vars w) + S (length done))
      with (S (length (w_vars w) + length done)) in IH by lia.
    rewrite <- app_assoc in IH. cbn [app] in IH.
    cbn [mbind option_bind].
    destruct (var_type xo) as [t |] eqn:Ht.
    + rewrite (Var_set_type_Some _ _ _ _ (partial_world_lookup done (length todo))).
      cbn [var_op var_value var_name].
      replace {| var_op := Some (length (w_nodes w)); var_type := Some t;
                 var_value := None; var_name := None |}
        with (introduced_var (length (w_nodes w)) xo)
        by (unfold introduced_var; by rewrite Ht).
      rewrite <- partial_world_step. by apply IH.
    + unfold ret at 1. rewrite <- (partial_world_skip done xo _ Ht). by apply IH.
Qed.

Lemma Node_init_Introduce :
  Node_init _Introduce args (length args) w
  = inr (length (w_nodes w), intros_world args objs w).
Proof.
  pose proof (Forall2_length _ _ _ args_allocated) as Hlen.
  assert (Forall2 (fun x xo =>
                     w_vars (partial_world w args [] (length args)) !! x = Some xo)
                  args objs) as Hargs.
  { eapply Forall2_impl; [exact args_allocated |]. intros x xo Hx.
    simpl. by apply lookup_app_l_Some. }
  assert (forall done todo,
            read_node (length (w_nodes w)) (partial_world w args done todo)
            = inr ({| node_class := _Introduce; node_inputs := args;
                      node_outputs := seq (length (w_vars w)) (length args) |},
                   partial_world w args done todo)) as Hnode
    by (intros; apply read_node_Some, lookup_snoc).
  unfold Node_init.
  rewrite (bind_inr get_world _ w w w eq_refl). cbv zeta.
  erewrite (bind_inr (put_world _) _ w tt (partial_world w args [] (length args)))
    by reflexivity.
  erewrite bind_inr.
  2:{ unfold infer_output_types. rewrite (bind_inr _ _ _ _ _ (Hnode _ _)).
      simpl. rewrite imap_pair_zip. apply (infer_loop _ _ _ Hargs). }
  assert (forall j,
            dict_get ("outputs_" +:+ pretty j) (introduce_types 0 objs [])
            = match objs !! j ≫= var_type with
              | Some t => Some (Some t)
              | None => None
              end) as Htypes.
  { intros j. rewrite introduce_types_get, decide_True by lia.
    rewrite Nat.sub_0_r. by destruct (objs !! j ≫= var_type). }
  pose proof (assign_loop _ Htypes objs [] eq_refl) as Hassign.
  cbn [length app] in Hassign. rewrite Nat.add_0_r, <- Hlen in Hassign.
  erewrite bind_inr; [| exact Hassign].
  erewrite bind_inr.
  2:{ unfold propagate_values. rewrite (bind_inr _ _ _ _ _ (Hnode _ _)). done. }
  erewrite bind_inr; [| apply noop_loop].
  erewrite bind_inr.
  2:{ unfold post_init. rewrite (bind_inr _ _ _ _ _ (Hnode _ _)). done. }
  unfold ret, intros_world, partial_world. simpl. by rewrite app_nil_r.
Qed.

Lemma intros_run :
  intros args w
  = inr (seq (length (w_vars w)) (length args), intros_world args objs w).
Proof.
  unfold intros. rewrite (bind_inr _ _ _ _ _ Node_init_Introduce).
  erewrite bind_inr; [| apply read_node_Some, lookup_snoc]. done.
Qed.

End IntrosRun.

(** X15. [intros] pairs outputs with inputs by position.  For existing
    Vars [args], [intros] creates one [_Introduce] node from [args] to as
    many new Vars, which it returns in order; the i-th new Var has the
    Type of the i-th argument (unknown when that one is), no propagated
    value and no name.  The arguments and every other object are left as
    they were. *)
Theorem intros_forwards_types (args : list Var) (objs : list VarObj) (w : World) :
  Forall2 (fun x xo => w_vars w !! x = Some xo) args objs ->
  let n : Node := length (w_nodes w) in
  let w' := intros_world args objs w in
  intros args w = inr (seq (length (w_vars w)) (length args), w') /\
  w_nodes w' !! n
    = Some {| node_class := _Introduce; node_inputs := args;
              node_outputs := seq (length (w_vars w)) (length args) |} /\
  (forall i x xo, args !! i = Some x -> w_vars w !! x = Some xo ->
     w_vars w' !! (length (w_vars w) + i)
       = Some {| var_op := Some n; var_type := var_type xo;
                 var_value := None; var_name := None |}) /\
  (forall x, x < length (w_vars w) -> w_vars w' !! x = w_vars w !! x) /\
  (forall m, m < length (w_nodes w) -> w_nodes w' !! m = w_nodes w !! m) /\
  w_graphs w' = w_graphs w /\ w_cached w' = w_cached w.
Proof.
  intros Hargs n w'. split; [by apply intros_run |].
  split; [apply lookup_snoc |]. split; [| split; [| split; [| done]]].
  - intros i x xo Hi Hx. subst w'. simpl.
    rewrite lookup_app_r by lia.
    replace (length (w_vars w) + i - length (w_vars w)) with i by lia.
    rewrite list_lookup_fmap.
    destruct (Forall2_lookup_l _ _ _ _ _ Hargs Hi) as (xo' & -> & Hx').
    rewrite Hx in Hx'. by injection Hx' as <-.
  - intros x Hx. subst w'. simpl. by rewrite lookup_app_l.
  - intros m Hm. subst w'. simpl. by rewrite lookup_app_l.
Qed.

(** X16. [intro] returns the Var introduced for its last argument, and
    raises an IndexError when called without arguments. *)
Theorem intro_returns_last (args : list Var) (objs : list VarObj) (w : World) :
  Forall2 (fun x xo => w_vars w !! x = Some xo) args objs ->
  match args with
  | [] => intro args w = inl IndexError
  | _ :: _ =>
      intro args w
      = inr (length (w_vars w) + (length args - 1), intros_world args objs w)
  end.
Proof.
  intros Hargs. unfold intro.
  rewrite (bind_inr _ _ _ _ _ (intros_run w args objs Hargs)).
  destruct args as [| x args]; [done |].
  replace (length (x :: args)) with (length args + 1) by (simpl; lia).
  rewrite seq_app, last_app. simpl.
  by replace (length args + 1 - 1) with (length args) by lia.
Qed.

(** ** What [_Introduce.to_onnx] refuses *)

Lemma introduce_loop_unnamed (inputs outputs : list Var) (scope : Scope)
    (name doc_string : option string) (w : World) :
  length inputs = length outputs ->
  forall m k protos j,
    k + m <= length inputs -> k <= j < k + m ->
    (inputs !! j ≫= (scope_var scope !!.) = None \/
     outputs !! j ≫= (scope_var scope !!.) = None) ->
    foldM (fun protos i =>
             x <- expect IndexError (inputs !! i) ;;
             xn <- expect KeyError (scope_var scope !! x) ;;
             y <- expect IndexError (outputs !! i) ;;
             yn <- expect KeyError (scope_var scope !! y) ;;
             ret (protos ++
                  [make_node "Identity" [xn] [yn]
                     ((fun nm => nm +:+ "_id" +:+ pretty i) <$> name)
                     doc_string []]))
          protos (seq k m) w = inl KeyError.
Proof.
  intros Hlen. induction m as [| m IH]; intros k protos j Hk Hj Hbad; [lia |].
  cbn [seq]. rewrite foldM_cons.
  destruct (lookup_lt_is_Some_2 inputs k) as [x Hx]; [lia |].
  destruct (lookup_lt_is_Some_2 outputs k) as [y Hy]; [lia |].
  rewrite Hx. erewrite bind_inr by apply expect_Some.
  destruct (scope_var scope !! x) as [xn |] eqn:Hxn; [| done].
  erewrite bind_inr by apply expect_Some.
  rewrite Hy. erewrite bind_inr by apply expect_Some.
  destruct (scope_var scope !! y) as [yn |] eqn:Hyn; [| done].
  erewrite bind_inr by apply expect_Some. unfold ret at 1.
  destruct (decide (j = k)) as [-> | Hne].
  - rewrite Hx, Hy in Hbad. simpl in Hbad. rewrite Hxn, Hyn in Hbad.
    by destruct Hbad.
  - apply (IH (S k) _ j); [lia | lia | done].
Qed.

(** X17. What [_Introduce.to_onnx] refuses.  A node whose numbers of
    inputs and outputs differ fails the assertion; with equal numbers, an
    input or output Var that the scope does not name makes the lowering
    raise a KeyError. *)
Theorem introduce_lowering_refuses (self : Node) (o : NodeObj) (scope : Scope)
    (doc_string : option string) (w : World) :
  w_nodes w !! self = Some o ->
  (length (node_inputs o) <> length (node_outputs o) ->
   _Introduce_to_onnx self scope doc_string w = inl AssertionError) /\
  (length (node_inputs o) = length (node_outputs o) ->
   (exists x, x ∈ node_inputs o ++ node_outputs o /\
              scope_var scope !! x = None) ->
   _Introduce_to_onnx self scope doc_string w = inl KeyError).
Proof.
  intros Ho. unfold _Introduce_to_onnx.
  rewrite (bind_inr _ _ _ _ _ (read_node_Some _ _ _ Ho)). split.
  - intros Hne. by rewrite decide_False.
  - intros Hlen (x & Hin & Hx). rewrite decide_True by done.
    assert (exists j, j < length (node_inputs o) /\
              (node_inputs o !! j ≫= (scope_var scope !!.) = None \/
               node_outputs o !! j ≫= (scope_var scope !!.) = None))
      as (j & Hj & Hbad).
    { apply elem_of_app in Hin as [Hin | Hin];
        apply list_elem_of_lookup in Hin as [j Hj]; exists j;
        (split; [apply lookup_lt_Some in Hj; lia |]); rewrite Hj; simpl; auto. }
    apply (introduce_loop_unnamed _ _ _ _ _ _ Hlen _ 0 [] j); [lia | lia | done].
Qed.

(** ** Subgraphs and their constructors *)

Lemma rename_loop (vs : list VarObj) (todo : list VarObj) :
  forall (done : list VarObj) (w : World),
    w_vars w = vs ++ done ++ todo ->
    foldM (fun _ arrow => Var__rename arrow None) tt
          (seq (length vs + length done) (length todo)) w
    = inr (tt, set_w_vars (vs ++ done ++ (unnamed <$> todo)) w).
Proof.
  induction todo as [| o todo IH]; intros done w Hw.
  - simpl. unfold ret. rewrite <- Hw. by destruct w.
  - cbn [length seq]. rewrite foldM_cons.
    assert (w_vars w !! (length vs + length done : Var) = Some o) as Ho.
    { rewrite Hw, app_assoc. rewrite <- length_app. apply list_lookup_middle. done. }
    rewrite (Var__rename_Some _ _ None _ Ho).
    replace (S (length vs + length done))
      with (length vs + length (done ++ [unnamed o]))
      by (rewrite length_app; simpl; lia).
    rewrite (IH (done ++ [unnamed o])).
    + simpl. unfold set_w_vars. simpl. by rewrite <- !app_assoc.
    + simpl. rewrite Hw, app_assoc, <- length_app, insert_middle.
      by rewrite <- !app_assoc.
Qed.

Lemma enumerated_unnamed (types : list Type_) (k : nat) :
  unnamed <$> imap (fun i (kv : string * ArgInfo) =>
                      {| var_op := Some (k + i); var_type := arg_type kv.2;
                         var_value := None; var_name := Some kv.1 |})
                   (enumerate_names "in" (InfoType <$> types))
  = imap (fun i t => {| var_op := Some (k + i); var_type := Some t;
                        var_value := None; var_name := None |}) types.
Proof.
  apply list_eq. intros i. unfold enumerate_names.
  rewrite list_lookup_fmap, !list_lookup_imap, list_lookup_fmap.
  by destruct (types !! i).
Qed.

Lemma subgraph_calls (call : Callable -> list Arrow -> M (list Arrow))
    (types : list Type_) (fn : Callable) (w : World) :
  subgraph call types fn w
  = (outs <- call fn (seq (length (w_vars w)) (length types)) ;;
     r1 <- enum_results outs "out" ;;
     g1 <- read_graph r1 ;;
     r2 <- with_arguments g1 (seq (length (w_vars w)) (length types)) ;;
     g2 <- read_graph r2 ;;
     _with_constructor g2 fn) (subgraph_world types w).
Proof.
  unfold subgraph.
  assert (forall info, info ∈ InfoType <$> types -> typed_info info) as Hok.
  { intros info (t & -> & _)%list_elem_of_fmap. by eexists. }
  rewrite (bind_inr _ _ _ _ _ (enum_arguments_closed _ "in" w Hok)).
  rewrite length_fmap.
  pose proof (rename_loop (w_vars w)
                (imap (fun i (kv : string * ArgInfo) =>
                         {| var_op := Some (length (w_nodes w) + i);
                            var_type := arg_type kv.2;
                            var_value := None; var_name := Some kv.1 |})
                      (enumerate_names "in" (InfoType <$> types)))
                [] (arguments_world (enumerate_names "in" (InfoType <$> types)) w)
                (arguments_world_vars _ w)) as Hloop.
  cbn [length app] in Hloop. rewrite Nat.add_0_r in Hloop.
  unfold enumerate_names in Hloop at 1.
  rewrite !length_imap, length_fmap in Hloop.
  rewrite (bind_inr _ _ _ _ _ Hloop).
  by rewrite enumerated_unnamed.
Qed.

(** X18. [subgraph] calls the constructor on fresh, typed, unnamed
    arguments.  [fn] receives one new Var for each given type, in order; in
    the world in which it is called each of them is the output of an
    Argument node of its own, has the given Type, no value and no name.  If
    [fn] raises, so does [subgraph]; if it returns [outs], the new Graph has
    these as results under the names out0, out1, ..., the new Vars as
    arguments, [fn] as constructor, no name, no doc string, no extra opset
    requirements, and a cache of its own that holds nothing. *)
Theorem subgraph_calls_on_fresh_arguments
    (call : Callable -> list Arrow -> M (list Arrow))
    (types : list Type_) (fn : Callable) (w : World) :
  let ins := seq (length (w_vars w)) (length types) in
  let w2 := subgraph_world types w in
  (forall i t, types !! i = Some t ->
     ins !! i = Some (length (w_vars w) + i) /\
     w_vars w2 !! (length (w_vars w) + i)
     = Some {| var_op := Some (length (w_nodes w) + i); var_type := Some t;
               var_value := None; var_name := None |} /\
     w_nodes w2 !! (length (w_nodes w) + i)
     = Some {| node_class := Argument (Some t) (Some ("in" +:+ pretty i)) None;
               node_inputs := [];
               node_outputs := [length (w_vars w) + i] |}) /\
  (forall e, call fn ins w2 = inl e -> subgraph call types fn w = inl e) /\
  (forall outs w3, call fn ins w2 = inr (outs, w3) ->
     exists r g w',
       subgraph call types fn w = inr (r, w') /\
       w_graphs w' !! r = Some g /\
       _results g = enumerate_names "out" outs /\
       _arguments g = Some ins /\
       _constructor g = Some fn /\
       _name g = None /\ _doc_string g = None /\ _extra_opset_req g = None /\
       w_cached w' !! _build_result g = None /\
       w_vars w' = w_vars w3 /\ w_nodes w' = w_nodes w3).
Proof.
  intros ins w2. split; [| split].
  - intros i t Hi. pose proof (lookup_lt_Some _ _ _ Hi) as Hlt. split; [| split].
    + by apply lookup_seq.
    + unfold w2, subgraph_world. simpl.
      rewrite lookup_app_r by lia.
      replace (length (w_vars w) + i - length (w_vars w)) with i by lia.
      by rewrite list_lookup_imap, Hi.
    + unfold w2, subgraph_world. simpl. rewrite arguments_world_nodes.
      rewrite lookup_app_r by lia.
      replace (length (w_nodes w) + i - length (w_nodes w)) with i by lia.
      unfold enumerate_names.
      by rewrite !list_lookup_imap, list_lookup_fmap, Hi.
  - intros e He. rewrite subgraph_calls. by apply bind_inl.
  - intros outs w3 Hcall. rewrite subgraph_calls.
    rewrite (bind_inr _ _ _ _ _ Hcall).
    rewrite (bind_inr _ _ _ _ _ (enum_results_closed outs "out" w3)).
    unfold read_graph at 1. unfold bind at 1. cbn [w_graphs].
    rewrite lookup_snoc.
    unfold with_arguments. rewrite (bind_inr _ _ _ _ _ (Graph_init_run _ _)).
    unfold read_graph, bind. cbn [w_graphs set_w_graphs]. rewrite lookup_snoc.
    unfold _with_constructor. rewrite Graph_init_run.
    eexists _, _, _. split; [reflexivity |].
    split; [apply lookup_snoc |]. do 6 (split; [done |]).
    split; [| done]. simpl. apply lookup_delete_eq.
Qed.

Lemma NoDup_fst_zip {A B} (l : list A) (k : list B) :
  NoDup l -> NoDup (zip l k).*1.
Proof.
  intros Hnd. revert k.
  induction Hnd as [| x l Hx Hnd IH]; intros [| y k]; simpl; try constructor.
  - intros ((x' & y') & -> & Hin)%list_elem_of_fmap. simpl in Hx.
    by apply elem_of_zip_l in Hin.
  - apply IH.
Qed.

Lemma results_closed (kwargs : list (string * Arrow)) (w : World) :
  results kwargs w
  = inr (length (w_graphs w),
         {| w_vars := w_vars w; w_nodes := w_nodes w;
            w_graphs := w_graphs w ++
              [{| _results := kwargs;
                  _name := None; _doc_string := None; _arguments := None;
                  _extra_opset_req := None; _constructor := None;
                  _build_result := w_cached_next w |}];
            w_cached := delete (w_cached_next w) (w_cached w);
            w_cached_next := S (w_cached_next w) |}).
Proof. done. Qed.

(** X19. [_reconstruct] calls the stored constructor again and keeps the
    names of the results.  Without a constructor it fails its assertion.
    With one, an exception of the constructor is passed on; when the
    constructor returns [outs], the new Graph has as results the names of
    the results of [self], in order, paired with [outs] up to the shorter
    of the two, so all the names when there are as many outputs as results.
    It has the given arguments and the same constructor, but neither the
    name, the doc string nor the extra opset requirements of [self], and a
    cache of its own that holds nothing. *)
Theorem reconstruct_keeps_result_names
    (call : Callable -> list Arrow -> M (list Arrow))
    (self : Graph) (args : list Arrow) (w : World) :
  (_constructor self = None ->
   _reconstruct call self args w = inl AssertionError) /\
  (forall c, _constructor self = Some c ->
     (forall e, call c args w = inl e ->
                _reconstruct call self args w = inl e) /\
     (forall outs w1,
        NoDup (dict_keys (_results self)) ->
        call c args w = inr (outs, w1) ->
        exists r g w',
          _reconstruct call self args w = inr (r, w') /\
          w_graphs w' !! r = Some g /\
          _results g = zip (dict_keys (_results self)) outs /\
          (length outs = length (_results self) ->
           dict_keys (_results g) = dict_keys (_results self) /\
           dict_values (_results g) = outs) /\
          _arguments g = Some args /\
          _constructor g = Some c /\
          _name g = None /\ _doc_string g = None /\
          _extra_opset_req g = None /\
          w_cached w' !! _build_result g = None)).
Proof.
  split.
  - intros Hc. unfold _reconstruct. by rewrite Hc.
  - intros c Hc. unfold _reconstruct. rewrite Hc. split.
    + intros e He. by apply bind_inl.
    + intros outs w1 Hnd Hcall. rewrite (bind_inr _ _ _ _ _ Hcall).
      rewrite foldl_dict_set_fresh by (simpl; by apply NoDup_fst_zip).
      rewrite app_nil_l.
      rewrite (bind_inr _ _ _ _ _ (results_closed _ _)).
      unfold read_graph at 1. unfold bind at 1. cbn [w_graphs set_w_graphs].
      rewrite lookup_snoc.
      unfold with_arguments. rewrite (bind_inr _ _ _ _ _ (Graph_init_run _ _)).
      unfold read_graph, bind. cbn [w_graphs set_w_graphs]. rewrite lookup_snoc.
      unfold _with_constructor. rewrite Graph_init_run.
      eexists _, _, _. split; [reflexivity |].
      split; [apply lookup_snoc |]. split; [done |]. split.
      * intros Hlen. simpl. unfold dict_keys, dict_values.
        rewrite fst_zip, snd_zip; [done | |];
          unfold dict_keys; rewrite length_fmap; lia.
      * do 5 (split; [done |]). simpl. apply lookup_delete_eq.
Qed.

(** ** The converter registry *)

Section ConverterFacts.
Context {Obj : Type} `{EqDecision Obj}.
Context (type : Obj -> Obj) (hash : Obj -> Exception + Z)
        (eq : Obj -> Obj -> Exception + bool)
        (call : Obj -> Obj -> Exception + Obj).

Lemma probe_misses (h : Z) (what : Obj) (d : list (Obj * Obj)) :
  misses hash eq h what d -> probe hash eq h what d = inr None.
Proof.
  induction d as [| [key value] d IH]; intros Hmiss; simpl; [done |].
  destruct (Hmiss key value) as (Hne & Hskip); [apply elem_of_cons; by left |].
  rewrite decide_False by done.
  assert (probe hash eq h what d = inr None) as Hrest.
  { apply IH. intros key' value' Hin. apply (Hmiss key' value').
    apply elem_of_cons. by right. }
  destruct (hash key) as [e | hk] eqn:Hhash; [done |].
  destruct (decide (hk = h)) as [-> | Hhk]; [| done].
  destruct Hskip as [Hhashes | ->]; [| done]. by destruct (Hhashes h).
Qed.

Lemma probe_finds (h : Z) (what found : Obj) (d : list (Obj * Obj)) :
  finds hash eq h what d found -> probe hash eq h what d = inr (Some found).
Proof.
  induction d as [| [key value] d IH]; intros [(key0 & Hin & Hmatch) Hall].
  - by apply elem_of_nil in Hin.
  - simpl. destruct (Hall key value) as [[Hkey ->] | (Hne & Hskip)];
      [apply elem_of_cons; by left | |].
    + destruct (decide (key = what)) as [_ | Hne]; [done |].
      destruct Hkey as [? | [-> ->]]; [done |]. by rewrite decide_True.
    + rewrite decide_False by done.
      assert (probe hash eq h what d = inr (Some found)) as Hrest.
      { apply IH. split.
        - exists key0. split; [| done].
          apply elem_of_cons in Hin as [Heq | Hin]; [| done].
          injection Heq as -> ->.
          destruct Hmatch as [? | [Hhash Heq]]; [done |].
          destruct Hskip as [Hhashes | Hfalse]; [by destruct (Hhashes h) |].
          congruence.
        - intros key' value' Hin'. apply Hall. apply elem_of_cons. by right. }
      destruct (hash key) as [e | hk] eqn:Hhash; [done |].
      destruct (decide (hk = h)) as [-> | Hhk]; [| done].
      destruct Hskip as [Hhashes | ->]; [| done]. by destruct (Hhashes h).
Qed.

(** X20. [convert] looks the object up before its type, as a dictionary
    does.  An object that cannot be hashed makes [convert] raise what
    hashing raises (a TypeError for an unhashable object), and nothing is
    called.  An object for which the registry has an entry, under a key
    that is either the object itself or an equal object with the same hash
    (of whatever type), converts to that entry, and no converter is
    called, whatever is registered for its type.  When the registry has no
    entry for the object: an entry for its type is called on the object;
    a type that cannot be hashed raises; and with no entry for the type
    either, [convert] raises a KeyError. *)
Theorem convert_object_before_type (converters : list (Obj * Obj)) (what : Obj) :
  (forall e, hash what = inl e ->
     convert type hash eq call converters what = inl e) /\
  (forall h found,
     hash what = inr h ->
     finds hash eq h what converters found ->
     convert type hash eq call converters what = inr found) /\
  (forall h,
     hash what = inr h ->
     misses hash eq h what converters ->
     (forall e, hash (type what) = inl e ->
        convert type hash eq call converters what = inl e) /\
     (forall ht converter,
        hash (type what) = inr ht ->
        finds hash eq ht (type what) converters converter ->
        convert type hash eq call converters what = call converter what) /\
     (forall ht,
        hash (type what) = inr ht ->
        misses hash eq ht (type what) converters ->
        convert type hash eq call converters what = inl KeyError)).
Proof.
  unfold convert, dict_lookup. split; [| split].
  - by intros e ->.
  - intros h found -> Hfinds. by rewrite (probe_finds _ _ _ _ Hfinds).
  - intros h -> Hmiss. rewrite (probe_misses _ _ _ Hmiss).
    split; [| split].
    + by intros e ->.
    + intros ht converter -> Hfinds. by rewrite (probe_finds _ _ _ _ Hfinds).
    + intros ht -> Hmiss'. by rewrite (probe_misses _ _ _ Hmiss').
Qed.

End ConverterFacts.

(** ** Function definitions and metadata *)

Section FunctionContents.
Context {E : Collaborators}.

(** X21. A function definition holds the unadapted instructions of the
    internal build.  When the internal graph of a Function node builds,
    [to_onnx_function] returns a definition whose instructions are those of
    that build, node after node in build order, and whose opset imports are
    one version per domain, the greatest that the build and the extra
    requirements of the internal graph ask for.  The adapter has no
    part in it: with any other adapter the result is the same. *)
Theorem function_definition_is_unadapted (fn : Node) (o : NodeObj)
    (f : FunctionFields) (br : BuildResult) (w w1 : World) :
  w_nodes w !! fn = Some o ->
  node_class o = Function f ->
  _get_build_result (func_graph f) w = inr (br, w1) ->
  let req := br_opset_req br ∪ default ∅ (_extra_opset_req (func_graph f)) in
  exists p,
    to_onnx_function fn w = inr (Some p, w1) /\
    fp_node p = concat (dict_values (br_nodes br)) /\
    fp_input p = func_inputs_kwargs f /\
    fp_output p = func_outputs_kwargs f /\
    fp_attribute p = Attributes_kwargs f /\
    NoDup (fp_opset_import p).*1 /\
    (forall d v, (d, v) ∈ fp_opset_import p <->
       (d, v) ∈ req /\ forall v', (d, v') ∈ req -> (v' <= v)%Z) /\
    (forall a, @to_onnx_function (with_adapter a E) fn w = inr (Some p, w1)).
Proof.
  intros Ho Hcls Hb req.
  pose proof (get_build_result_cached _ _ _ (get_build_result_caches _ _ _ _ Hb))
    as Hb1.
  assert (to_onnx_function fn w
          = inr (Some {| fp_domain := domain (fn_op_type f);
                         fp_name := identifier (fn_op_type f);
                         fp_input := func_inputs_kwargs f;
                         fp_output := func_outputs_kwargs f;
                         fp_node := concat (dict_values (br_nodes br));
                         fp_opset_import := map_to_list (max_opset_policy req);
                         fp_attribute := Attributes_kwargs f |}, w1)) as Hrun.
  { unfold to_onnx_function.
    rewrite (bind_inr _ _ _ _ _ (read_node_Some _ _ _ Ho)). rewrite Hcls.
    unfold Function_to_onnx_function.
    erewrite bind_inr; [reflexivity |].
    rewrite (bind_inr _ _ _ _ _ Hb).
    by rewrite (bind_inr _ _ _ _ _ (get_opsets_built _ _ _ _ Hb1)). }
  eexists. split; [exact Hrun |]. do 4 (split; [done |]).
  split; [apply NoDup_fst_map_to_list |]. split.
  - intros d v. simpl. rewrite elem_of_map_to_list.
    apply max_opset_policy_spec.
  - intros a. exact Hrun.
Qed.

Lemma dict_set_keeps_keys {K V} `{EqDecision K} (k x : K) (v : V) d :
  x ∈ dict_keys d -> x ∈ dict_keys (dict_set k v d).
Proof.
  unfold dict_keys. intros Hx. destruct (decide (k ∈ d.*1)) as [Hk | Hk].
  - by rewrite dict_set_keys_present.
  - rewrite dict_set_keys_absent by done. apply elem_of_app. by left.
Qed.

Lemma metadata_le_refl md : metadata_le md md.
Proof. by repeat split. Qed.

Lemma metadata_le_trans md1 md2 md3 :
  metadata_le md1 md2 -> metadata_le md2 md3 -> metadata_le md1 md3.
Proof.
  intros (Ho1 & Hi1 & Hf1) (Ho2 & Hi2 & Hf2). repeat split.
  - set_solver.
  - intros x Hx. by apply Hi2, Hi1.
  - by etrans.
Qed.

Lemma Node_update_metadata_grows n md md1 w w1 :
  Node_update_metadata n md w = inr (md1, w1) ->
  md_opset_req md ⊆ md_opset_req md1 /\
  md_initializers md1 = md_initializers md /\
  md_functions md1 = md_functions md.
Proof.
  unfold Node_update_metadata. intros (req & w0 & _ & Hret)%bind_inv.
  unfold ret in Hret. injection Hret as <- <-. simpl.
  split; [set_solver | done].
Qed.

Lemma update_metadata_grows n md md' w w' :
  update_metadata n md w = inr (md', w') -> metadata_le md md'.
Proof.
  unfold update_metadata. intros (o & w0 & _ & Hrun)%bind_inv.
  destruct (node_class o) as [type name default | type default | value version
                              | | f | op].
  - unfold Argument_update_metadata in Hrun.
    apply bind_inv in Hrun as (md1 & w1 & Hnode & Hrun).
    apply bind_inv in Hrun as (var & w2 & _ & Hrun).
    apply Node_update_metadata_grows in Hnode as (Hreq & Hini & Hfun).
    destruct default as [d |]; unfold ret in Hrun; injection Hrun as <- <-.
    + repeat split; simpl.
      * done.
      * intros x Hx. apply dict_set_keeps_keys. by rewrite Hini.
      * by rewrite Hfun.
    + repeat split; [done | by rewrite Hini | by rewrite Hfun].
  - unfold _Initializer_update_metadata in Hrun.
    apply bind_inv in Hrun as (md1 & w1 & Hnode & Hrun).
    apply bind_inv in Hrun as (var & w2 & _ & Hrun).
    apply Node_update_metadata_grows in Hnode as (Hreq & Hini & Hfun).
    unfold ret in Hrun; injection Hrun as <- <-.
    repeat split; simpl.
    + done.
    + intros x Hx. apply dict_set_keeps_keys. by rewrite Hini.
    + by rewrite Hfun.
  - apply Node_update_metadata_grows in Hrun as (Hreq & Hini & Hfun).
    repeat split; [done | by rewrite Hini | by rewrite Hfun].
  - apply Node_update_metadata_grows in Hrun as (Hreq & Hini & Hfun).
    repeat split; [done | by rewrite Hini | by rewrite Hfun].
  - unfold Function_update_metadata in Hrun.
    apply bind_inv in Hrun as (md1 & w1 & Hnode & Hrun).
    apply bind_inv in Hrun as (brf & w2 & _ & Hrun).
    apply Node_update_metadata_grows in Hnode as (Hreq & Hini & Hfun).
    unfold ret in Hrun; injection Hrun as <- <-.
    repeat split; simpl.
    + done.
    + by rewrite Hini.
    + rewrite Hfun, <- app_assoc. by apply prefix_app_r.
  - apply Node_update_metadata_grows in Hrun as (Hreq & Hini & Hfun).
    repeat split; [done | by rewrite Hini | by rewrite Hfun].
Qed.

(** X22. Collecting metadata only ever adds.  Whatever the classes of the
    nodes and whatever the accumulators hold, when [update_metadata] has
    been called on each node of a list in turn, every opset requirement
    recorded before is still recorded, every Var that had an initializer
    still has one, and the functions recorded before are still there, at the
    same positions, with the new ones behind them. *)
Theorem metadata_only_grows (order : list Node) :
  forall (md md' : Metadata) (w w' : World),
    foldM (fun md n => update_metadata n md) md order w = inr (md', w') ->
    metadata_le md md'.
Proof.
  induction order as [| n order IH]; intros md md' w w' Hrun.
  - simpl in Hrun. unfold ret in Hrun. injection Hrun as <- <-.
    apply metadata_le_refl.
  - rewrite foldM_cons in Hrun.
    destruct (update_metadata n md w) as [e | [md1 w1]] eqn:Hstep; [done |].
    eapply metadata_le_trans; [by eapply update_metadata_grows | by eapply IH].
Qed.

End FunctionContents.

(** ** The default opset of Introduce nodes *)

Section IntroduceOpsets.
Context {E : Collaborators}.

(** C10. Internal nodes advertise no opset requirement by default, but the
    requirement of an Introduce node is exactly [{("", 1)}]; [intros] and
    [unsafe_cast] (hence [intro] and [unsafe_reshape]) create such a node.
    Consequently a Graph whose build contains an Introduce node carries a
    requirement on the default domain, and its opset for that domain is of
    version at least 1.  The requirements of a build are the ones that
    [update_metadata] collects over the nodes of the build, in build
    order; the Builder may create nodes, and removes or replaces none. *)
Theorem introduce_requires_default_opset :
  _InternalNode_opset_req = ∅ /\
  (forall n o w, w_nodes w !! n = Some o ->
     match node_class o with
     | _Introduce => opset_req n w = inr ({[ ("", 1%Z) ]}, w)
     | Argument _ _ _ | _Initializer _ _ => opset_req n w = inr (∅, w)
     | _ => True
     end) /\
  (forall args objs w,
     Forall2 (fun x xo => w_vars w !! x = Some xo) args objs ->
     exists outs w' o,
       intros args w = inr (outs, w') /\
       w_nodes w' !! length (w_nodes w) = Some o /\
       node_class o = _Introduce /\
       opset_req (length (w_nodes w)) w' = inr ({[ ("", 1%Z) ]}, w')) /\
  (forall x xo typ w,
     w_vars w !! x = Some xo ->
     exists y w' o,
       unsafe_cast x typ w = inr (y, w') /\
       w_nodes w' !! length (w_nodes w) = Some o /\
       node_class o = _Introduce /\
       opset_req (length (w_nodes w)) w' = inr ({[ ("", 1%Z) ]}, w')) /\
  (builder_keeps_nodes ->
   forall (g : Graph) (br : BuildResult) (w0 w1 wc wc' : World)
          (md : Metadata) (n : Node) (o : NodeObj),
     _get_build_result g w0 = inr (br, w1) ->
     collect_metadata (dict_keys (br_nodes br)) wc = inr (md, wc') ->
     br_opset_req br = md_opset_req md ->
     n ∈ dict_keys (br_nodes br) ->
     w_nodes wc !! n = Some o ->
     node_class o = _Introduce ->
     ("", 1%Z) ∈ br_opset_req br /\
     exists opsets v,
       get_opsets g w0 = inr (opsets, w1) /\
       opsets !! "" = Some v /\ (1 <= v)%Z).
Proof.
  assert (forall n o w, w_nodes w !! n = Some o ->
            match node_class o with
            | _Introduce => opset_req n w = inr ({[ ("", 1%Z) ]}, w)
            | Argument _ _ _ | _Initializer _ _ => opset_req n w = inr (∅, w)
            | _ => True
            end) as Hnode.
  { intros n o w Ho. unfold opset_req.
    rewrite (bind_inr _ _ _ _ _ (read_node_Some _ _ _ Ho)).
    by destruct (node_class o). }
  split; [done |]. split; [exact Hnode |]. split; [| split].
  - intros args objs w Hargs.
    eexists _, _, _. split; [by apply intros_run |].
    split; [apply lookup_snoc |]. split; [done |].
    apply (Hnode (length (w_nodes w))
             {| node_class := _Introduce; node_inputs := args;
                node_outputs := seq (length (w_vars w)) (length args) |}).
    apply lookup_snoc.
  - intros x xo typ w Hx.
    eexists _, _, _. split; [by apply unsafe_cast_run |].
    split; [apply lookup_snoc |]. split; [done |].
    apply (Hnode (length (w_nodes w))
             {| node_class := _Introduce; node_inputs := [x];
                node_outputs := [length (w_vars w)] |}).
    apply lookup_snoc.
  - intros Hbuilder g br w0 w1 wc wc' md n o Hb Hrun Hbr Hin Ho Hcls.
    destruct (collect_metadata_loop Hbuilder _ _ _ _ _ Hrun) as (_ & _ & Hintro).
    pose proof (Hintro _ _ Hin Ho Hcls) as Hreq. rewrite <- Hbr in Hreq.
    split; [done |].
    destruct (max_opset_policy_dom
                (br_opset_req br ∪ default ∅ (_extra_opset_req g)) "")
      as [_ [v Hv]].
    { exists 1%Z. set_solver. }
    exists (max_opset_policy (br_opset_req br ∪ default ∅ (_extra_opset_req g))), v.
    split; [by apply get_opsets_built |]. split; [done |].
    apply max_opset_policy_spec in Hv as [_ Hmax]. apply Hmax. set_solver.
Qed.

End IntroduceOpsets.

(** * More concrete runs *)

Lemma bare_world_built :
  @_get_build_result example_collaborators example_graph (world_built_as bare_br)
  = inr (bare_br, world_built_as bare_br).
Proof. vm_compute. reflexivity. Qed.

Lemma nameless_world_built :
  @_get_build_result example_collaborators example_graph
     (world_built_as nameless_br)
  = inr (nameless_br, world_built_as nameless_br).
Proof. vm_compute. reflexivity. Qed.

(** X1 on the example graph, with a build that has no results. *)
Lemma to_onnx_without_results_witness :
  @_get_build_result example_collaborators example_graph (world_built_as bare_br)
    = inr (bare_br, world_built_as bare_br) /\
  br_results bare_br = [] /\
  @to_onnx example_collaborators example_graph true (world_built_as bare_br)
    = inl ValueError.
Proof.
  split; [exact bare_world_built |]. split; [reflexivity |].
  exact (to_onnx_without_results (E := example_collaborators) example_graph true
           _ _ _ bare_world_built eq_refl).
Defined.

(** X2 on the example graph, with a build that requires no opset. *)
Lemma to_onnx_model_without_opsets_witness :
  @_get_build_result example_collaborators example_graph (world_built_as bare_br)
    = inr (bare_br, world_built_as bare_br) /\
  @to_onnx_model example_collaborators example_graph "steelix" "" false 1 true
     (world_built_as bare_br) = inl RuntimeError.
Proof.
  split; [exact bare_world_built |].
  exact (to_onnx_model_without_opsets (E := example_collaborators) example_graph
           "steelix" "" false 1 true _ _ _ bare_world_built
           eq_refl eq_refl eq_refl).
Defined.

(** X3 on the example graph. *)
Lemma named_values_keep_order_witness :
  @_get_build_result example_collaborators example_graph intro_world
    = inr (example_br, built_world) /\
  @get_results example_collaborators example_graph intro_world
    = inr ([("y", 1)], built_world) /\
  @get_arguments example_collaborators example_graph intro_world
    = inr ([("x", 0)], built_world) /\
  @_get_initializers_by_name example_collaborators example_graph intro_world
    = inr ([], built_world).
Proof.
  split; [exact example_builds |].
  destruct (named_values_keep_order (E := example_collaborators) example_graph
              intro_world built_world example_br example_builds)
    as (Hres & Hargs & Hinits).
  split; [| split].
  - apply (Hres ["y"]); [| apply NoDup_singleton].
    constructor; [reflexivity | constructor].
  - apply (Hargs ["x"]); [| apply NoDup_singleton].
    constructor; [reflexivity | constructor].
  - apply (Hinits []); constructor.
Defined.

(** X4 on the example graph, built with a scope that names nothing. *)
Lemma unnamed_values_raise_witness :
  @_get_build_result example_collaborators example_graph
     (world_built_as nameless_br)
    = inr (nameless_br, world_built_as nameless_br) /\
  @get_results example_collaborators example_graph (world_built_as nameless_br)
    = inl KeyError /\
  @to_onnx example_collaborators example_graph true (world_built_as nameless_br)
    = inl KeyError /\
  @get_arguments example_collaborators example_graph (world_built_as nameless_br)
    = inl KeyError.
Proof.
  split; [exact nameless_world_built |].
  destruct (unnamed_values_raise (E := example_collaborators) example_graph
              _ _ _ nameless_world_built) as (Hres & Hargs).
  destruct Hres as (Hget & Honnx).
  { apply Exists_cons. by left. }
  split; [exact Hget |]. split; [exact (Honnx true) |].
  apply Hargs. apply Exists_cons. by left.
Defined.

Lemma example_to_onnx :
  @to_onnx example_collaborators example_graph true intro_world
  = inr (example_graph_proto, built_world).
Proof. vm_compute. reflexivity. Qed.

(** X5 on the example graph. *)
Lemma to_onnx_contents_witness :
  @_get_build_result example_collaborators example_graph intro_world
    = inr (example_br, built_world) /\
  NoDup (br_nodes example_br).*1 /\
  @to_onnx example_collaborators example_graph true intro_world
    = inr (example_graph_proto, built_world) /\
  gp_node example_graph_proto
    = concat ((fun kv => @adapted_or_original example_collaborators
                           example_graph example_br kv.1 kv.2)
              <$> br_nodes example_br) /\
  gp_name example_graph_proto = "steelix_graph".
Proof.
  split; [exact example_builds |]. split; [exact example_nodes_distinct |].
  split; [exact example_to_onnx |].
  destruct (to_onnx_contents (E := example_collaborators) example_graph true
              intro_world built_world built_world example_br example_graph_proto
              example_builds example_nodes_distinct example_to_onnx)
    as (_ & Hnodes & Hname & _).
  split; [exact Hnodes | exact Hname].
Defined.

Lemma example_opsets_not_empty :
  max_opset_policy (br_opset_req example_br ∪
                    default ∅ (_extra_opset_req example_graph)) <> ∅.
Proof.
  intros Heq.
  assert (is_Some (max_opset_policy
                     (br_opset_req example_br ∪
                      default ∅ (_extra_opset_req example_graph)) !! "")) as Hsome.
  { apply max_opset_policy_dom. exists 1%Z.
    change (br_opset_req example_br ∪ default ∅ (_extra_opset_req example_graph))
      with (({[ ("", 1%Z) ]} : gset (string * Z)) ∪ ∅).
    rewrite elem_of_union, elem_of_singleton. by left. }
  rewrite Heq, lookup_empty in Hsome. by destruct Hsome.
Qed.

Lemma built_to_onnx :
  @to_onnx example_collaborators example_graph true built_world
  = inr (example_graph_proto, built_world).
Proof. vm_compute. reflexivity. Qed.

(** X6 on the example graph: the model is checked and returned. *)
Lemma to_onnx_model_assembles_witness :
  cached example_graph example_br built_world /\
  exists model,
    @to_onnx_model example_collaborators example_graph "steelix" "" false 1 true
       built_world = inr (model, built_world) /\
    mp_graph model = example_graph_proto /\
    mp_functions model = [] /\
    ("", 1%Z) ∈ mp_opset_import model.
Proof.
  split; [reflexivity |].
  destruct (to_onnx_model_assembles (E := example_collaborators) example_graph
              example_br built_world "steelix" "" false 1 true []
              example_graph_proto eq_refl eq_refl example_opsets_not_empty
              built_to_onnx) as (imports & _ & _ & Himports & Hrun).
  exists (make_model example_graph_proto "steelix" "" [] imports).
  split; [exact Hrun |]. split; [reflexivity |]. split; [reflexivity |].
  apply Himports.
  change (br_opset_req example_br ∪ default ∅ (_extra_opset_req example_graph))
    with (({[ ("", 1%Z) ]} : gset (string * Z)) ∪ ∅).
  split.
  - rewrite elem_of_union, elem_of_singleton. by left.
  - intros v'. rewrite elem_of_union, elem_of_singleton, elem_of_empty.
    intros [Heq | []]. injection Heq as ->. lia.
Defined.

(** X7 on the example graph: two requirements, one after the other. *)
Lemma with_opset_accumulates_witness :
  exists r1 g1 w1 r2 g2 w2,
    with_opset example_graph [("", 17%Z)] intro_world = inr (r1, w1) /\
    w_graphs w1 !! r1 = Some g1 /\
    with_opset g1 [("ai.onnx.ml", 3%Z)] w1 = inr (r2, w2) /\
    w_graphs w2 !! r2 = Some g2 /\
    _extra_opset_req g2
      = Some (list_to_set [("", 17%Z)] ∪ list_to_set [("ai.onnx.ml", 3%Z)] ∪ ∅) /\
    exists r3 g3 w3,
      with_opset example_graph [("", 17%Z); ("ai.onnx.ml", 3%Z)] intro_world
        = inr (r3, w3) /\
      w_graphs w3 !! r3 = Some g3 /\
      _extra_opset_req g3 = _extra_opset_req g2.
Proof.
  destruct (with_opset_accumulates example_graph [("", 17%Z)]
              [("ai.onnx.ml", 3%Z)] intro_world)
    as (r1 & g1 & w1 & r2 & g2 & w2 & H1 & Hg1 & H2 & Hg2 & _ & Hreq & Hsame & _).
  exists r1, g1, w1, r2, g2, w2. do 4 (split; [assumption |]).
  split; [exact Hreq |].
  eexists _, _, _. split; [reflexivity |]. split; [reflexivity |].
  eapply Hsame; reflexivity.
Defined.

(** X8 on the example graph, built and then renamed. *)
Lemma copies_share_the_build_witness :
  cached example_graph example_br built_world /\
  exists r' g' w',
    with_name example_graph "renamed" built_world = inr (r', w') /\
    w_graphs w' !! r' = Some g' /\
    @_get_build_result (with_builder no_builder example_collaborators) g' w'
      = inr (example_br, w').
Proof.
  split; [reflexivity |].
  destruct (copies_share_the_build (E := example_collaborators) no_builder
              example_graph built_world (with_name example_graph "renamed")
              (or_introl (ex_intro _ "renamed" eq_refl)))
    as (r' & g' & w' & Hrun & Hg & Hcached & _).
  exists r', g', w'. split; [exact Hrun |]. split; [exact Hg |].
  apply Hcached. reflexivity.
Defined.

(** X9 in the world of the built example graph. *)
Lemma results_is_unbuilt_witness :
  exists r' g' w',
    results [("y", 1)] built_world = inr (r', w') /\
    w_graphs w' !! r' = Some g' /\
    w_cached w' !! _build_result g' = None /\
    cached example_graph example_br w'.
Proof.
  destruct (results_is_unbuilt (E := example_collaborators) [("y", 1)] built_world)
    as (r' & g' & w' & Hrun & Hg & _ & _ & _ & _ & _ & _ & _ & Hnone & Hframe & _).
  exists r', g', w'. split; [exact Hrun |]. split; [exact Hg |].
  split; [exact Hnone |].
  apply (Hframe example_graph example_br); [simpl; lia | reflexivity].
Defined.

(** X10 on the built example graph: the copy holds the injected result,
    the original its own. *)
Lemma inject_build_result_is_private_witness :
  exists r' g' w',
    _inject_build_result example_graph bare_br built_world = inr (r', w') /\
    w_graphs w' !! r' = Some g' /\
    @_get_build_result (with_builder no_builder example_collaborators) g' w'
      = inr (bare_br, w') /\
    cached example_graph example_br w'.
Proof.
  destruct (inject_build_result_is_private (E := example_collaborators)
              no_builder example_graph bare_br built_world)
    as (r' & g' & w' & Hrun & Hg & _ & _ & _ & _ & _ & _ & Hget & Hframe).
  exists r', g', w'. split; [exact Hrun |]. split; [exact Hg |].
  split; [exact Hget |].
  apply (Hframe example_graph example_br); [simpl; lia | reflexivity].
Defined.

(** X11 on [arguments(x=float_vector, w=example_array)]. *)
Lemma arguments_in_order_witness :
  NoDup [("x", InfoType float_vector); ("w", InfoArray example_array)].*1 /\
  arguments [("x", InfoType float_vector); ("w", InfoArray example_array)]
    empty_world
    = inr ([0; 1],
           arguments_world
             [("x", InfoType float_vector); ("w", InfoArray example_array)]
             empty_world) /\
  w_vars (arguments_world
            [("x", InfoType float_vector); ("w", InfoArray example_array)]
            empty_world) !! 1
    = Some {| var_op := Some 1;
              var_type := Some (Tensor_like_array example_array);
              var_value := None; var_name := Some "w" |}.
Proof.
  assert (NoDup [("x", InfoType float_vector);
                 ("w", InfoArray example_array)].*1) as Hnd.
  { apply (bool_decide_unpack _). vm_compute. exact I. }
  split; [exact Hnd |].
  pose proof (arguments_in_order
                [("x", InfoType float_vector); ("w", InfoArray example_array)]
                empty_world Hnd)
    as Hthm.
  cbv zeta in Hthm. destruct Hthm as (_ & Hrun & Hnew & _).
  { intros name info Hin. apply elem_of_cons in Hin as [Heq | Hin].
    - injection Heq as -> ->. by eexists.
    - apply list_elem_of_singleton in Hin. injection Hin as -> ->. by eexists. }
  split; [exact Hrun |].
  exact (proj1 (Hnew 1 "w" (InfoArray example_array) eq_refl)).
Defined.

(** X12 on two infos and on two results. *)
Lemma enumerations_keep_everything_witness :
  enum_arguments [InfoArray example_array; InfoType float_vector] "in" empty_world
    = inr ([0; 1],
           arguments_world
             [("in0", InfoArray example_array); ("in1", InfoType float_vector)]
             empty_world) /\
  exists r' g' w',
    enum_results [1; 0] "out" intro_world = inr (r', w') /\
    w_graphs w' !! r' = Some g' /\
    _results g' = [("out0", 1); ("out1", 0)].
Proof.
  destruct (enumerations_keep_everything "in" empty_world) as (Hargs & _).
  destruct (enumerations_keep_everything "out" intro_world) as (_ & Hres).
  split.
  - destruct (Hargs [InfoArray example_array; InfoType float_vector])
      as (_ & Hrun).
    apply Hrun. intros info Hin.
    apply elem_of_cons in Hin as [-> | Hin]; [by eexists |].
    apply list_elem_of_singleton in Hin as ->. by eexists.
  - destruct (Hres [1; 0]) as (r' & g' & w' & Hrun & Hg & Hnames & _).
    exists r', g', w'. split; [exact Hrun |]. split; [exact Hg |].
    rewrite Hnames. reflexivity.
Defined.

(** X13 on an Initializer and on an Argument with a default. *)
Lemma arguments_register_defaults_witness :
  w_nodes initializer_world !! 0
    = Some {| node_class :=
                _Initializer (Tensor_like_array example_array) example_array;
              node_inputs := []; node_outputs := [0] |} /\
  (exists md',
     @update_metadata example_collaborators 0
        {| md_opset_req := ∅; md_initializers := []; md_functions := [] |}
        initializer_world = inr (md', initializer_world) /\
     dict_get 0 (md_initializers md') = Some example_array) /\
  (exists md',
     @update_metadata example_collaborators 1
        {| md_opset_req := ∅; md_initializers := []; md_functions := [] |}
        initializer_world = inr (md', initializer_world) /\
     dict_get 1 (md_initializers md') = Some example_array).
Proof.
  split; [reflexivity |]. split.
  - destruct (arguments_register_defaults (E := example_collaborators) 0
                {| node_class :=
                     _Initializer (Tensor_like_array example_array) example_array;
                   node_inputs := []; node_outputs := [0] |}
                0 {| md_opset_req := ∅; md_initializers := []; md_functions := [] |}
                initializer_world eq_refl eq_refl)
      as (md' & Hrun & _ & _ & Hget & _).
    exists md'. by split.
  - destruct (arguments_register_defaults (E := example_collaborators) 1
                {| node_class :=
                     Argument (Some (Tensor_like_array example_array)) (Some "b")
                              (Some example_array);
                   node_inputs := []; node_outputs := [1] |}
                1 {| md_opset_req := ∅; md_initializers := []; md_functions := [] |}
                initializer_world eq_refl eq_refl)
      as (md' & Hrun & _ & _ & Hget & _).
    exists md'. by split.
Defined.

Lemma typed_world_argument :
  Forall2 (fun x xo => w_vars typed_world !! x = Some xo) [0]
    [{| var_op := Some 0; var_type := Some float_vector;
        var_value := None; var_name := Some "x" |}].
Proof. constructor; [reflexivity | constructor]. Qed.

(** X15 on a typed argument. *)
Lemma intros_forwards_types_witness :
  w_vars typed_world !! 0
    = Some {| var_op := Some 0; var_type := Some float_vector;
              var_value := None; var_name := Some "x" |} /\
  exists w',
    intros [0] typed_world = inr ([1], w') /\
    w_vars w' !! 1 = Some {| var_op := Some 1; var_type := Some float_vector;
                             var_value := None; var_name := None |} /\
    w_nodes w' !! 1 = Some {| node_class := _Introduce;
                              node_inputs := [0]; node_outputs := [1] |}.
Proof.
  split; [reflexivity |].
  pose proof (intros_forwards_types [0] _ typed_world typed_world_argument)
    as Hthm.
  cbv zeta in Hthm. destruct Hthm as (Hrun & Hnode & Hnew & _).
  eexists. split; [exact Hrun |]. split; [| exact Hnode].
  exact (Hnew 0 0 _ eq_refl eq_refl).
Defined.

(** X16 on a typed argument, and without arguments. *)
Lemma intro_returns_last_witness :
  (exists w', intro [0] typed_world = inr (1, w')) /\
  intro [] typed_world = inl IndexError.
Proof.
  split.
  - eexists. exact (intro_returns_last [0] _ typed_world typed_world_argument).
  - apply (intro_returns_last [] [] typed_world). constructor.
Defined.

(** X17 on a node with an input and no output, and on the Introduce node
    of the example graph with a scope that names nothing. *)
Lemma introduce_lowering_refuses_witness :
  w_nodes lopsided_world !! 1
    = Some {| node_class := _Introduce; node_inputs := [0]; node_outputs := [] |} /\
  _Introduce_to_onnx 1 example_scope None lopsided_world = inl AssertionError /\
  _Introduce_to_onnx 1 {| scope_var := ∅; scope_node := ∅ |} None intro_world
    = inl KeyError.
Proof.
  split; [reflexivity |]. split.
  - apply (introduce_lowering_refuses 1
             {| node_class := _Introduce; node_inputs := [0]; node_outputs := [] |}
             example_scope None lopsided_world eq_refl).
    simpl. lia.
  - apply (introduce_lowering_refuses 1
             {| node_class := _Introduce; node_inputs := [0]; node_outputs := [1] |}
             {| scope_var := ∅; scope_node := ∅ |} None intro_world eq_refl).
    + reflexivity.
    + exists 0. split; [| reflexivity]. apply elem_of_cons. by left.
Defined.

(** X18 on the identity of one vector of floats. *)
Lemma subgraph_calls_on_fresh_arguments_witness :
  exists r g w',
    subgraph call_identity [float_vector] 7 empty_world = inr (r, w') /\
    w_graphs w' !! r = Some g /\
    _results g = [("out0", 0)] /\
    _arguments g = Some [0] /\
    _constructor g = Some 7 /\
    w_vars w' !! 0 = Some {| var_op := Some 0; var_type := Some float_vector;
                             var_value := None; var_name := None |}.
Proof.
  pose proof (subgraph_calls_on_fresh_arguments call_identity [float_vector] 7
                empty_world) as Hthm.
  cbv zeta in Hthm. destruct Hthm as (Hins & _ & Hret).
  destruct (Hret [0] (subgraph_world [float_vector] empty_world) eq_refl)
    as (r & g & w' & Hrun & Hg & Hres & Hargs & Hc & _ & _ & _ & _ & Hvars & _).
  exists r, g, w'. split; [exact Hrun |]. split; [exact Hg |].
  split; [rewrite Hres; reflexivity |]. split; [exact Hargs |].
  split; [exact Hc |]. rewrite Hvars.
  exact (proj1 (proj2 (Hins 0 float_vector eq_refl))).
Defined.

(** X19 on a Graph with a constructor, and on one without. *)
Lemma reconstruct_keeps_result_names_witness :
  _reconstruct call_identity example_graph [0] intro_world = inl AssertionError /\
  exists r g w',
    _reconstruct call_identity constructed_graph [0] intro_world = inr (r, w') /\
    w_graphs w' !! r = Some g /\
    _results g = [("y", 0)] /\
    _arguments g = Some [0] /\ _constructor g = Some 7 /\
    _name g = None /\ _doc_string g = None.
Proof.
  split.
  - exact (proj1 (reconstruct_keeps_result_names call_identity example_graph [0]
                    intro_world) eq_refl).
  - destruct (reconstruct_keeps_result_names call_identity constructed_graph [0]
                intro_world) as (_ & Hwith).
    destruct (Hwith 7 eq_refl) as (_ & Hret).
    destruct (Hret [0] intro_world (NoDup_singleton "y") eq_refl)
      as (r & g & w' & Hrun & Hg & Hres & _ & Hargs & Hc & Hn & Hd & _).
    exists r, g, w'. by repeat split.
Defined.

(** X20 on the registry [{1: 100, 0: 7}] of numbers, where every object
    has type 0 and hash 0 except 9, which cannot be hashed, where 1 and 2
    are equal, and where calling [c] on [x] gives their sum: 2 converts to
    the entry under 1, 5 is converted by the entry of its type, 9 raises
    a TypeError, and in the empty registry 5 raises a KeyError. *)
Lemma convert_object_before_type_witness :
  convert example_type example_hash example_eq example_call
    [(1, 100); (0, 7)] 2 = inr 100 /\
  convert example_type example_hash example_eq example_call
    [(1, 100); (0, 7)] 5 = inr 12 /\
  convert example_type example_hash example_eq example_call
    [(1, 100); (0, 7)] 9 = inl TypeError /\
  convert example_type example_hash example_eq example_call [] 5 = inl KeyError.
Proof.
  split; [| split; [| split]].
  - destruct (convert_object_before_type example_type example_hash example_eq
                example_call [(1, 100); (0, 7)] 2) as (_ & Hfound & _).
    apply (Hfound 0%Z 100 eq_refl). split.
    + exists 1. split; [apply elem_of_cons; by left |]. right. by split.
    + intros key value Hin. apply elem_of_cons in Hin as [Heq | Hin].
      * injection Heq as -> ->. left. split; [| done]. right. by split.
      * apply list_elem_of_singleton in Hin. injection Hin as -> ->.
        right. split; [done |]. by right.
  - destruct (convert_object_before_type example_type example_hash example_eq
                example_call [(1, 100); (0, 7)] 5) as (_ & _ & Htype).
    destruct (Htype 0%Z eq_refl) as (_ & Hcall & _).
    + intros key value Hin. apply elem_of_cons in Hin as [Heq | Hin].
      * injection Heq as -> ->. split; [done |]. by right.
      * apply list_elem_of_singleton in Hin. injection Hin as -> ->.
        split; [done |]. by right.
    + apply (Hcall 0%Z 7 eq_refl). split.
      * exists 0. split; [| by left].
        apply elem_of_cons. right. apply elem_of_cons. by left.
      * intros key value Hin. apply elem_of_cons in Hin as [Heq | Hin].
        -- injection Heq as -> ->. right. split; [done |]. by right.
        -- apply list_elem_of_singleton in Hin. injection Hin as -> ->.
           left. split; [by left | done].
  - destruct (convert_object_before_type example_type example_hash example_eq
                example_call [(1, 100); (0, 7)] 9) as (Hhash & _).
    exact (Hhash TypeError eq_refl).
  - destruct (convert_object_before_type example_type example_hash example_eq
                example_call [] 5) as (_ & _ & Htype).
    destruct (Htype 0%Z eq_refl) as (_ & _ & Hnone).
    + by intros key value Hin%elem_of_nil.
    + apply (Hnone 0%Z eq_refl). by intros key value Hin%elem_of_nil.
Defined.

Lemma double_body_built :
  @_get_build_result example_collaborators (double_graph 1) calling_world
  = inr (double_br "Add", calling_world).
Proof. vm_compute. reflexivity. Qed.

(** X21 on the first call of [double]. *)
Lemma function_definition_is_unadapted_witness :
  @_get_build_result example_collaborators (double_graph 1) calling_world
    = inr (double_br "Add", calling_world) /\
  exists p,
    @to_onnx_function example_collaborators 1 calling_world
      = inr (Some p, calling_world) /\
    fp_node p = [make_node "Add" ["in0"; "in0"] ["out0"] (Some "Add_0") None []] /\
    ("", 17%Z) ∈ fp_opset_import p /\
    @to_onnx_function
       (with_adapter (fun _ _ _ _ _ => Some []) example_collaborators)
       1 calling_world = inr (Some p, calling_world).
Proof.
  split; [exact double_body_built |].
  destruct (function_definition_is_unadapted (E := example_collaborators) 1
              {| node_class := Function (double_fields 1);
                 node_inputs := [0]; node_outputs := [1] |}
              (double_fields 1) (double_br "Add") calling_world calling_world
              eq_refl eq_refl double_body_built)
    as (p & Hrun & Hnode & _ & _ & _ & _ & Himports & Hany).
  exists p. split; [exact Hrun |]. split; [exact Hnode |].
  split; [| exact (Hany _)].
  apply Himports.
  change (br_opset_req (double_br "Add") ∪
          default ∅ (_extra_opset_req (func_graph (double_fields 1))))
    with (({[ ("", 17%Z) ]} : gset (string * Z)) ∪ ∅).
  split.
  - rewrite elem_of_union, elem_of_singleton. by left.
  - intros v'. rewrite elem_of_union, elem_of_singleton, elem_of_empty.
    intros [Heq | []]. injection Heq as ->. lia.
Defined.

Lemma initializers_collected :
  foldM (fun md n => @update_metadata example_collaborators n md)
        {| md_opset_req := ∅; md_initializers := [(1, example_array)];
           md_functions := [7] |}
        [0; 1] initializer_world
  = inr ({| md_opset_req := ∅;
            md_initializers := [(1, example_array); (0, example_array)];
            md_functions := [7] |}, initializer_world).
Proof. vm_compute. reflexivity. Qed.

(** X22 on an Initializer and an Argument with a default. *)
Lemma metadata_only_grows_witness :
  foldM (fun md n => @update_metadata example_collaborators n md)
        {| md_opset_req := ∅; md_initializers := [(1, example_array)];
           md_functions := [7] |}
        [0; 1] initializer_world
  = inr ({| md_opset_req := ∅;
            md_initializers := [(1, example_array); (0, example_array)];
            md_functions := [7] |}, initializer_world) /\
  metadata_le
    {| md_opset_req := ∅; md_initializers := [(1, example_array)];
       md_functions := [7] |}
    {| md_opset_req := ∅;
       md_initializers := [(1, example_array); (0, example_array)];
       md_functions := [7] |}.
Proof.
  split; [exact initializers_collected |].
  exact (metadata_only_grows (E := example_collaborators) [0; 1] _ _ _ _
           initializers_collected).
Defined.

Lemma example_metadata :
  @collect_metadata example_collaborators (dict_keys (br_nodes example_br))
     intro_world
  = inr ({| md_opset_req := {[ ("", 1%Z) ]};
            md_initializers := []; md_functions := [] |}, intro_world).
Proof. vm_compute. reflexivity. Qed.

(** C10 on the example graph, whose build contains an Introduce node, and
    on [intros] and [unsafe_cast] of a typed argument. *)
Lemma introduce_requires_default_opset_witness :
  @builder_keeps_nodes example_collaborators /\
  @_get_build_result example_collaborators example_graph intro_world
    = inr (example_br, built_world) /\
  @opset_req example_collaborators 1 intro_world
    = inr ({[ ("", 1%Z) ]}, intro_world) /\
  @opset_req example_collaborators 0 intro_world = inr (∅, intro_world) /\
  (exists outs w' o,
     intros [0] typed_world = inr (outs, w') /\
     w_nodes w' !! 1 = Some o /\ node_class o = _Introduce /\
     @opset_req example_collaborators 1 w' = inr ({[ ("", 1%Z) ]}, w')) /\
  (exists y w' o,
     unsafe_cast 0 (Tensor int64 None) typed_world = inr (y, w') /\
     w_nodes w' !! 1 = Some o /\ node_class o = _Introduce /\
     @opset_req example_collaborators 1 w' = inr ({[ ("", 1%Z) ]}, w')) /\
  ("", 1%Z) ∈ br_opset_req example_br /\
  exists opsets v,
    @get_opsets example_collaborators example_graph intro_world
      = inr (opsets, built_world) /\
    opsets !! "" = Some v /\ (1 <= v)%Z.
Proof.
  split; [exact example_builder_keeps_nodes |].
  split; [exact example_builds |].
  destruct (introduce_requires_default_opset (E := example_collaborators))
    as (_ & Hreq & Hintros & Hcast & Hbuild).
  split.
  { exact (Hreq 1 {| node_class := _Introduce; node_inputs := [0];
                     node_outputs := [1] |} intro_world eq_refl). }
  split.
  { exact (Hreq 0 {| node_class := Argument (Some float_vector) (Some "x") None;
                     node_inputs := []; node_outputs := [0] |}
             intro_world eq_refl). }
  split; [exact (Hintros [0] _ typed_world typed_world_argument) |].
  split.
  { exact (Hcast 0 {| var_op := Some 0; var_type := Some float_vector;
                      var_value := None; var_name := Some "x" |}
             (Tensor int64 None) typed_world eq_refl). }
  apply (Hbuild example_builder_keeps_nodes example_graph example_br
           intro_world built_world intro_world intro_world _ 1
           {| node_class := _Introduce; node_inputs := [0]; node_outputs := [1] |}
           example_builds example_metadata eq_refl).
  - apply elem_of_cons. right. apply elem_of_cons. by left.
  - reflexivity.
  - reflexivity.
Defined.

